(* ===================================================================== *)
(* SeoWatch: the SEO scoring engine, the in-memory job store, the CSV    *)
(* helpers and the bulk job runner, embedded from the TypeScript sources *)
(*   server/routes.ts, server/storage.ts, server/csv-processor.ts and    *)
(*   server/bulk-processor.ts.                                           *)
(* ===================================================================== *)

From Stdlib Require Import Ascii ZArith.
From stdpp Require Import gmap strings list fin_maps pretty sorting.

#[local] Set Warnings "-clear-no-such-hyp".

Local Open Scope string_scope.
Local Open Scope Z_scope.
Local Open Scope list_scope.

(* --------------------------------------------------------------------- *)
(* JavaScript string primitives used by the sources                      *)
(* --------------------------------------------------------------------- *)
(* A JavaScript string is modelled by a Rocq [string]; its characters are
   the 8-bit characters of [ascii], and [.length] is [String.length]. *)

Module Js.

(* WhiteSpace and LineTerminator code points below 256: TAB, LF, VT, FF,
   CR, SPACE and NBSP. *)
Definition is_space (c : ascii) : bool :=
  let n := nat_of_ascii c in
  ((9 <=? n)%nat && (n <=? 13)%nat) || (n =? 32)%nat || (n =? 160)%nat.

Fixpoint trimStart (s : string) : string :=
  match s with
  | EmptyString => EmptyString
  | String c r => if is_space c then trimStart r else s
  end.

Fixpoint trimEnd (s : string) : string :=
  match s with
  | EmptyString => EmptyString
  | String c r =>
      match trimEnd r with
      | EmptyString => if is_space c then EmptyString else String c EmptyString
      | r' => String c r'
      end
  end.

(* String.prototype.trim *)
Definition trim (s : string) : string := trimEnd (trimStart s).

(* Truthiness of a string: the empty string is falsy. *)
Definition truthy (s : string) : bool :=
  match s with EmptyString => false | _ => true end.

(* [a || b] on strings *)
Definition or_else (a b : string) : string := if truthy a then a else b.

(* [x?.trim() || ''] for a possibly undefined attribute value *)
Definition trim_or_empty (x : option string) : string :=
  match x with
  | Some s => or_else (trim s) ""
  | None => ""
  end.

(* [x || d] for a possibly undefined attribute value *)
Definition opt_or (x : option string) (d : string) : string :=
  match x with
  | Some s => or_else s d
  | None => d
  end.

(* String.prototype.startsWith *)
Fixpoint startsWith (p s : string) : bool :=
  match p, s with
  | EmptyString, _ => true
  | String a p', String b s' => if ascii_dec a b then startsWith p' s' else false
  | String _ _, EmptyString => false
  end.

(* String.prototype.includes *)
Fixpoint includes (sub s : string) : bool :=
  startsWith sub s ||
  match s with
  | EmptyString => false
  | String _ s' => includes sub s'
  end.

(* ASCII lower-casing of one character, for the [i] flag of a regex *)
Definition lower (c : ascii) : ascii :=
  let n := nat_of_ascii c in
  if ((65 <=? n)%nat && (n <=? 90)%nat) then ascii_of_nat (n + 32) else c.

(* [p] (given in lower case) is a prefix of [s], ignoring case *)
Fixpoint startsWith_ci (p s : string) : bool :=
  match p, s with
  | EmptyString, _ => true
  | String a p', String b s' =>
      if ascii_dec a (lower b) then startsWith_ci p' s' else false
  | String _ _, EmptyString => false
  end.

(* the class \w of a regex: [A-Za-z0-9_] *)
Definition is_word (c : ascii) : bool :=
  let n := nat_of_ascii c in
  ((48 <=? n)%nat && (n <=? 57)%nat) || ((65 <=? n)%nat && (n <=? 90)%nat)
  || ((97 <=? n)%nat && (n <=? 122)%nat) || (n =? 95)%nat.

Fixpoint drop (n : nat) (s : string) : string :=
  match n, s with
  | O, _ => s
  | S n', String _ s' => drop n' s'
  | S _, EmptyString => EmptyString
  end.

(* the rest of [s] behind the first occurrence of [pat] (lower case),
   compared ignoring case; [None] when [pat] does not occur *)
Fixpoint after_ci (pat s : string) : option string :=
  if startsWith_ci pat s then Some (drop (String.length pat) s)
  else match s with
       | EmptyString => None
       | String _ s' => after_ci pat s'
       end.

(* the rest of [s] behind the first occurrence of the character [c] *)
Fixpoint after_char (c : ascii) (s : string) : option string :=
  match s with
  | EmptyString => None
  | String d s' => if ascii_dec c d then Some s' else after_char c s'
  end.

(* Array.prototype.slice(from, to) *)
Definition slice {A : Type} (from to : nat) (l : list A) : list A :=
  take (to - from) (List.skipn from l).

End Js.

(* --------------------------------------------------------------------- *)
(* routes.ts: sanitizeText                                               *)
(* --------------------------------------------------------------------- *)

(* First replacement of sanitizeText: the global, case-insensitive regex
   for script blocks. It reads: the literal <script, a word boundary, a
   run of characters other than <, then any number of groups made of one <
   that does not open the closing tag followed by characters other than <,
   and at last the closing tag </script>. A match therefore starts at
   <script followed by a word boundary and ends with the first closing
   tag behind it; when no closing tag follows there is no match at that
   position. [fuel] bounds the scan by the length of the text. *)
Fixpoint strip_scripts (fuel : nat) (s : string) : string :=
  match fuel with
  | O => s
  | S fuel' =>
      match s with
      | EmptyString => EmptyString
      | String c r =>
          let boundary :=
            match Js.drop 7 s with
            | EmptyString => true
            | String d _ => negb (Js.is_word d)
            end in
          if Js.startsWith_ci "<script" s && boundary then
            match Js.after_ci "</script>" (Js.drop 7 s) with
            | Some rest => strip_scripts fuel' rest
            | None => String c (strip_scripts fuel' r)
            end
          else String c (strip_scripts fuel' r)
      end
  end.

(* Second replacement: the global regex for a tag, one < then characters
   other than > then one >. Each < with a > behind it is removed up to
   the first such >. *)
Fixpoint strip_tags (fuel : nat) (s : string) : string :=
  match fuel with
  | O => s
  | S fuel' =>
      match s with
      | EmptyString => EmptyString
      | String c r =>
          if ascii_dec c "<" then
            match Js.after_char ">" r with
            | Some rest => strip_tags fuel' rest
            | None => s
            end
          else String c (strip_tags fuel' r)
      end
  end.

Definition sanitizeText (text : string) : string :=
  let a := strip_scripts (String.length text) text in
  Js.trim (strip_tags (String.length a) a).

(* --------------------------------------------------------------------- *)
(* shared/schema.ts: SeoTag and SeoScoreBreakdown                        *)
(* --------------------------------------------------------------------- *)

Inductive TagStatus := good | warning | missing | error.

Record SeoTag := {
  tag : string;
  content : string;
  status : TagStatus;
  feedback : string;
  deduction : Z;
}.

Record SeoScoreBreakdown := {
  bd_tag : string;
  bd_issue : string;
  bd_deduction : Z;
}.

Global Instance TagStatus_eq_dec : EqDecision TagStatus.
Proof. solve_decision. Defined.

(* What the tag extraction library hands to the scoring engine: the text
   of the first <title> element (empty when there is none) and the
   [content] attribute of each meta element ([None] for undefined). *)
Record Page := {
  title_text : string;
  meta_description : option string;
  meta_robots : option string;
  og_title : option string;
  og_description : option string;
  og_image : option string;
  twitter_card : option string;
  twitter_title : option string;
  twitter_description : option string;
  twitter_image : option string;
}.

(* --------------------------------------------------------------------- *)
(* routes.ts: analyzeSeoTags                                             *)
(* --------------------------------------------------------------------- *)

(* The three locals of analyzeSeoTags: [tags], [breakdown] and [score]. *)
Record Analysis := {
  tags : list SeoTag;
  breakdown : list SeoScoreBreakdown;
  score : Z;
}.

(* tags.push(t) alone: the good branch of a check *)
Definition push_good (t : SeoTag) (a : Analysis) : Analysis :=
  {| tags := tags a ++ [t]; breakdown := breakdown a; score := score a |}.

(* tags.push(t); breakdown.push(b); score -= d *)
Definition push_issue (t : SeoTag) (b : SeoScoreBreakdown) (d : Z)
    (a : Analysis) : Analysis :=
  {| tags := tags a ++ [t]; breakdown := breakdown a ++ [b];
     score := score a - d |}.

Definition num (n : nat) : string := pretty n.

Definition check_title (title : string) : Analysis -> Analysis :=
  if negb (Js.truthy title) then
    push_issue
      {| tag := "Title"; content := "-"; status := missing;
         feedback := "Title tag is missing"; deduction := 25 |}
      {| bd_tag := "Title"; bd_issue := "Missing title tag";
         bd_deduction := 25 |} 25
  else
    let titleLength := String.length title in
    if (titleLength <? 30)%nat then
      push_issue
        {| tag := "Title"; content := sanitizeText title; status := warning;
           feedback := "Title is too short (" +:+ num titleLength
                       +:+ " chars, recommended 50-60)";
           deduction := 10 |}
        {| bd_tag := "Title"; bd_issue := "Title too short";
           bd_deduction := 10 |} 10
    else if (60 <? titleLength)%nat then
      push_issue
        {| tag := "Title"; content := sanitizeText title; status := warning;
           feedback := "Title is too long (" +:+ num titleLength
                       +:+ " chars, recommended 50-60)";
           deduction := 10 |}
        {| bd_tag := "Title"; bd_issue := "Title too long";
           bd_deduction := 10 |} 10
    else
      push_good
        {| tag := "Title"; content := sanitizeText title; status := good;
           feedback := "Perfect length (" +:+ num titleLength +:+ " chars)";
           deduction := 0 |}.

Definition check_description (description : string) : Analysis -> Analysis :=
  if negb (Js.truthy description) then
    push_issue
      {| tag := "Meta Description"; content := "-"; status := missing;
         feedback := "Meta description is missing"; deduction := 20 |}
      {| bd_tag := "Meta Description"; bd_issue := "Missing meta description";
         bd_deduction := 20 |} 20
  else
    let descLength := String.length description in
    if (descLength <? 120)%nat then
      push_issue
        {| tag := "Meta Description"; content := sanitizeText description;
           status := warning;
           feedback := "Description is too short (" +:+ num descLength
                       +:+ " chars, recommended 150-160)";
           deduction := 10 |}
        {| bd_tag := "Meta Description"; bd_issue := "Description too short";
           bd_deduction := 10 |} 10
    else if (160 <? descLength)%nat then
      push_issue
        {| tag := "Meta Description"; content := sanitizeText description;
           status := warning;
           feedback := "Description is too long (" +:+ num descLength
                       +:+ " chars, recommended 150-160)";
           deduction := 10 |}
        {| bd_tag := "Meta Description"; bd_issue := "Description too long";
           bd_deduction := 10 |} 10
    else
      push_good
        {| tag := "Meta Description"; content := sanitizeText description;
           status := good;
           feedback := "Perfect length (" +:+ num descLength +:+ " chars)";
           deduction := 0 |}.

(* The eight presence checks share one shape:
     if (!v) { tags.push(missing); breakdown.push(..); score -= 5 }
     else { tags.push(good) }
   [shown] is the content of the good tag: sanitizeText(v) for all but
   the two image tags, which push the value as it is. *)
Definition check_present (name missingFeedback category issue goodFeedback : string)
    (v shown : string) : Analysis -> Analysis :=
  if negb (Js.truthy v) then
    push_issue
      {| tag := name; content := "-"; status := missing;
         feedback := missingFeedback; deduction := 5 |}
      {| bd_tag := category; bd_issue := issue; bd_deduction := 5 |} 5
  else
    push_good
      {| tag := name; content := shown; status := good;
         feedback := goodFeedback; deduction := 0 |}.

(* The body of analyzeSeoTags up to its return statement. *)
Definition run_checks (p : Page) : Analysis :=
  let a0 := {| tags := []; breakdown := []; score := 100 |} in
  (* Title analysis *)
  let title := Js.trim (title_text p) in
  let a1 := check_title title a0 in
  (* Meta description analysis *)
  let description := Js.trim_or_empty (meta_description p) in
  let a2 := check_description description a1 in
  (* Meta robots analysis *)
  let robots := Js.trim_or_empty (meta_robots p) in
  let a3 := check_present "Meta Robots" "Meta robots tag is missing"
              "Meta Robots" "Missing robots tag" "Properly configured"
              robots (sanitizeText robots) a2 in
  (* Open Graph analysis *)
  let ogTitle := Js.trim_or_empty (og_title p) in
  let ogDescription := Js.trim_or_empty (og_description p) in
  let ogImage := Js.trim_or_empty (og_image p) in
  let a4 := check_present "OG Title" "Open Graph title is missing"
              "Open Graph" "Missing OG title" "Present and configured"
              ogTitle (sanitizeText ogTitle) a3 in
  let a5 := check_present "OG Description" "Open Graph description is missing"
              "Open Graph" "Missing OG description" "Good content"
              ogDescription (sanitizeText ogDescription) a4 in
  let a6 := check_present "OG Image" "Open Graph image is missing"
              "Open Graph" "Missing OG image" "Image present"
              ogImage ogImage a5 in
  (* Twitter Card analysis *)
  let twitterCard := Js.trim_or_empty (twitter_card p) in
  let twitterTitle := Js.trim_or_empty (twitter_title p) in
  let twitterDescription := Js.trim_or_empty (twitter_description p) in
  let twitterImage := Js.trim_or_empty (twitter_image p) in
  let a7 := check_present "Twitter Card" "Twitter card type is missing"
              "Twitter Card" "Missing card type" "Card type configured"
              twitterCard (sanitizeText twitterCard) a6 in
  let a8 := check_present "Twitter Title" "Twitter title is missing"
              "Twitter Card" "Missing Twitter title" "Present and configured"
              twitterTitle (sanitizeText twitterTitle) a7 in
  let a9 := check_present "Twitter Description" "Twitter description is missing"
              "Twitter Card" "Missing Twitter description" "Good content"
              twitterDescription (sanitizeText twitterDescription) a8 in
  let a10 := check_present "Twitter Image" "Twitter image is missing"
              "Twitter Card" "Missing Twitter image" "Image present"
              twitterImage twitterImage a9 in
  a10.

(* return { tags, breakdown, score: Math.max(0, score) }; the [url]
   parameter is not read by the function. *)
Definition analyzeSeoTags (p : Page) (url : string) : Analysis :=
  let a := run_checks p in
  {| tags := tags a; breakdown := breakdown a; score := Z.max 0 (score a) |}.

(* The page of the scenario: no <title>, no meta element at all. *)
Definition empty_page : Page :=
  {| title_text := ""; meta_description := None; meta_robots := None;
     og_title := None; og_description := None; og_image := None;
     twitter_card := None; twitter_title := None;
     twitter_description := None; twitter_image := None |}.

(* A page none of whose checked tags has a value: every extracted value
   is absent or made of white space only. *)
Definition nothing_present (p : Page) : Prop :=
  Js.trim (title_text p) = "" /\
  Js.trim_or_empty (meta_description p) = "" /\
  Js.trim_or_empty (meta_robots p) = "" /\
  Js.trim_or_empty (og_title p) = "" /\
  Js.trim_or_empty (og_description p) = "" /\
  Js.trim_or_empty (og_image p) = "" /\
  Js.trim_or_empty (twitter_card p) = "" /\
  Js.trim_or_empty (twitter_title p) = "" /\
  Js.trim_or_empty (twitter_description p) = "" /\
  Js.trim_or_empty (twitter_image p) = "".

Definition sum_deductions (bs : list SeoScoreBreakdown) : Z :=
  foldr (fun b acc => bd_deduction b + acc) 0 bs.

Definition not_good (t : SeoTag) : Prop := status t <> good.

Global Instance not_good_dec t : Decision (not_good t).
Proof. unfold not_good. apply _. Defined.

(* The fixed order of the tag evaluations. *)
Definition tag_order : list string :=
  ["Title"; "Meta Description"; "Meta Robots"; "OG Title"; "OG Description";
   "OG Image"; "Twitter Card"; "Twitter Title"; "Twitter Description";
   "Twitter Image"].


(* --------------------------------------------------------------------- *)
(* shared/schema.ts: analysis results, jobs, per-URL results, rows        *)
(* --------------------------------------------------------------------- *)

Record GooglePreview := {
  g_title : string; g_description : string; g_url : string;
}.

Record SocialPreview := {
  s_title : string; s_description : string; s_image : string;
  s_domain : string;
}.

Record TwitterPreview := {
  t_title : string; t_description : string; t_image : string;
  t_card : string; t_domain : string;
}.

Record Previews := {
  google : GooglePreview;
  facebook : SocialPreview;
  twitter : TwitterPreview;
  linkedin : SocialPreview;
}.

Record SeoAnalysisResult := {
  res_url : string;
  res_score : Z;
  res_breakdown : list SeoScoreBreakdown;
  res_tags : list SeoTag;
  previews : Previews;
}.

Inductive JobStatus := pending | processing | completed | failed.

Global Instance JobStatus_eq_dec : EqDecision JobStatus.
Proof. solve_decision. Defined.

Record BulkAnalysisJob := {
  job_id : string;
  userSession : string;
  filename : string;
  totalUrls : nat;
  processedUrls : nat;
  job_status : JobStatus;
  createdAt : string;
  completedAt : option string;
  resultFilePath : option string;
}.

(* InsertBulkAnalysisJob = Omit<BulkAnalysisJob, 'id' | 'createdAt'> *)
Record InsertBulkAnalysisJob := {
  ins_userSession : string;
  ins_filename : string;
  ins_totalUrls : nat;
  ins_processedUrls : nat;
  ins_status : JobStatus;
  ins_completedAt : option string;
  ins_resultFilePath : option string;
}.

(* Partial<BulkAnalysisJob>: [Some v] for a key the caller supplies. *)
Record JobUpdates := {
  upd_id : option string;
  upd_userSession : option string;
  upd_filename : option string;
  upd_totalUrls : option nat;
  upd_processedUrls : option nat;
  upd_status : option JobStatus;
  upd_createdAt : option string;
  upd_completedAt : option string;
  upd_resultFilePath : option string;
}.

Definition no_updates : JobUpdates :=
  {| upd_id := None; upd_userSession := None; upd_filename := None;
     upd_totalUrls := None; upd_processedUrls := None; upd_status := None;
     upd_createdAt := None; upd_completedAt := None;
     upd_resultFilePath := None |}.

Record BulkUrlResult := {
  ur_id : string;
  ur_jobId : string;
  ur_url : string;
  analysisResult : option SeoAnalysisResult;
  ur_errorMessage : option string;
  processedAt : string;
}.

(* InsertBulkUrlResult = Omit<BulkUrlResult, 'id' | 'processedAt'> *)
Record InsertBulkUrlResult := {
  ins_jobId : string;
  ins_url : string;
  ins_analysisResult : option SeoAnalysisResult;
  ins_errorMessage : option string;
}.

(* BulkAnalysisResult, one row of the result CSV. The last two fields are
   read by generateResultsCSV and set by its tests; bulkAnalysisResultSchema
   does not declare them, so they are optional here. *)
Record BulkAnalysisResult := {
  url : string;
  seoScore : Z;
  titleTag : string;
  titleLength : nat;
  metaDescription : string;
  metaDescriptionLength : nat;
  h1Tag : string;
  ogTitle : string;
  ogDescription : string;
  ogImage : string;
  twitterTitle : string;
  twitterDescription : string;
  twitterCard : string;
  robotsTag : string;
  canonicalUrl : string;
  analysisDate : string;
  errorMessage : option string;
  scoreBreakdown : option (list SeoScoreBreakdown);
  breakdownSummary : option string;
}.

(* --------------------------------------------------------------------- *)
(* storage.ts: MemStorage (the bulk analysis part)                        *)
(* --------------------------------------------------------------------- *)

Record MemStorage := {
  bulkJobs : gmap string BulkAnalysisJob;
  bulkUrlResults : gmap string BulkUrlResult;
}.

Definition new_MemStorage : MemStorage :=
  {| bulkJobs := ∅; bulkUrlResults := ∅ |}.

Definition set_bulkJobs (m : gmap string BulkAnalysisJob) (st : MemStorage) :=
  {| bulkJobs := m; bulkUrlResults := bulkUrlResults st |}.

Definition set_bulkUrlResults (m : gmap string BulkUrlResult) (st : MemStorage) :=
  {| bulkJobs := bulkJobs st; bulkUrlResults := m |}.

(* The identifier drawn by randomUUID() and the time read by new Date()
   are inputs of the operations that use them. *)
Definition createBulkJob (uuid now : string) (insertJob : InsertBulkAnalysisJob)
    (st : MemStorage) : BulkAnalysisJob * MemStorage :=
  let job :=
    {| job_id := uuid;
       userSession := ins_userSession insertJob;
       filename := ins_filename insertJob;
       totalUrls := ins_totalUrls insertJob;
       processedUrls := ins_processedUrls insertJob;
       job_status := ins_status insertJob;
       createdAt := now;
       completedAt := ins_completedAt insertJob;
       resultFilePath := ins_resultFilePath insertJob |} in
  (job, set_bulkJobs (<[uuid := job]> (bulkJobs st)) st).

Definition getBulkJob (jobId : string) (st : MemStorage)
    : option BulkAnalysisJob :=
  bulkJobs st !! jobId.

(* { ...job, ...updates } *)
Definition spread_job (job : BulkAnalysisJob) (updates : JobUpdates)
    : BulkAnalysisJob :=
  {| job_id := default (job_id job) (upd_id updates);
     userSession := default (userSession job) (upd_userSession updates);
     filename := default (filename job) (upd_filename updates);
     totalUrls := default (totalUrls job) (upd_totalUrls updates);
     processedUrls := default (processedUrls job) (upd_processedUrls updates);
     job_status := default (job_status job) (upd_status updates);
     createdAt := default (createdAt job) (upd_createdAt updates);
     completedAt :=
       match upd_completedAt updates with
       | Some v => Some v
       | None => completedAt job
       end;
     resultFilePath :=
       match upd_resultFilePath updates with
       | Some v => Some v
       | None => resultFilePath job
       end |}.

Definition updateBulkJob (jobId : string) (updates : JobUpdates)
    (st : MemStorage) : option BulkAnalysisJob * MemStorage :=
  match bulkJobs st !! jobId with
  | None => (None, st)
  | Some job =>
      let updatedJob := spread_job job updates in
      (Some updatedJob, set_bulkJobs (<[jobId := updatedJob]> (bulkJobs st)) st)
  end.

Definition createBulkUrlResult (uuid now : string)
    (insertResult : InsertBulkUrlResult) (st : MemStorage)
    : BulkUrlResult * MemStorage :=
  let result :=
    {| ur_id := uuid;
       ur_jobId := ins_jobId insertResult;
       ur_url := ins_url insertResult;
       analysisResult := ins_analysisResult insertResult;
       ur_errorMessage := ins_errorMessage insertResult;
       processedAt := now |} in
  (result, set_bulkUrlResults (<[uuid := result]> (bulkUrlResults st)) st).

(* Array.from(values()).filter(result => result.jobId === jobId); the
   order of the listing is the one of the map's enumeration. *)
Definition getBulkUrlResults (jobId : string) (st : MemStorage)
    : list BulkUrlResult :=
  filter (fun r => ur_jobId r = jobId) (map_to_list (bulkUrlResults st)).*2.

(* --------------------------------------------------------------------- *)
(* csv-processor.ts                                                       *)
(* --------------------------------------------------------------------- *)

(* What a catch clause receives: an Error object with its message, or a
   value that is not an Error. *)
Inductive Thrown := JsError (message : string) | NotAnError.

(* error instanceof Error ? error.message : dflt *)
Definition message_or (dflt : string) (e : Thrown) : string :=
  match e with
  | JsError m => m
  | NotAnError => dflt
  end.

(* One record as the csv-parse codec emits it with [columns: true]: the
   object's entries in the order Object.values enumerates them, one per
   key. *)
Abbreviation Row := (list (string * string)).

(* row[col] *)
Fixpoint row_get (col : string) (row : Row) : option string :=
  match row with
  | [] => None
  | (k, v) :: row' => if decide (k = col) then Some v else row_get col row'
  end.

(* An uploaded file: its size in bytes as stat reports it, and what the
   csv-parse codec makes of its content, the records or an error. *)
Record CsvFile := {
  file_size : Z;
  parsed : Thrown + list Row;
}.

Definition urlColumns : list string :=
  ["url"; "URL"; "website"; "link"; "domain"; "site"].

(* for (const col of urlColumns)
     if (row[col] && row[col].trim()) { foundUrl = row[col].trim(); break } *)
Fixpoint find_column (cols : list string) (row : Row) : string :=
  match cols with
  | [] => ""
  | col :: cols' =>
      match row_get col row with
      | Some v =>
          if Js.truthy v && Js.truthy (Js.trim v) then Js.trim v
          else find_column cols' row
      | None => find_column cols' row
      end
  end.

(* for (const value of Object.values(row))
     if (value && (value.includes('http') || value.includes('www.')
                   || value.includes('.'))) { foundUrl = value.trim(); break } *)
Fixpoint find_url_like (values : list string) : string :=
  match values with
  | [] => ""
  | value :: rest =>
      if Js.truthy value &&
         (Js.includes "http" value || Js.includes "www." value
          || Js.includes "." value)
      then Js.trim value
      else find_url_like rest
  end.

(* The 'data' handler of parseCSVUrls: the URL it pushes for one record,
   [None] when the record is skipped. *)
Definition row_url (row : Row) : option string :=
  let foundUrl := find_column urlColumns row in
  let foundUrl :=
    if negb (Js.truthy foundUrl) then find_url_like row.*2 else foundUrl in
  if Js.truthy foundUrl then
    if negb (Js.startsWith "http://" foundUrl)
       && negb (Js.startsWith "https://" foundUrl)
    then Some ("https://" +:+ foundUrl)
    else Some foundUrl
  else None.

(* parseCSVUrls resolves with the URLs in record order, or rejects with
   the error of the codec. *)
Definition parseCSVUrls (f : CsvFile) : Thrown + list string :=
  match parsed f with
  | inl e => inl e
  | inr rows => inr (omap row_url rows)
  end.

Record Validation := {
  valid : bool;
  verror : option string;
  urlCount : option nat;
}.

(* The default of the parameter maxSizeBytes; the one caller of
   validateCSVFile does not pass another value. *)
Definition maxSizeBytes : Z := 10 * 1024 * 1024.

Definition two_digits (d : Z) : string :=
  if d <? 10 then "0" +:+ pretty d else pretty d.

(* (size / 1024 / 1024).toFixed(2) for a byte count: the divisions by a
   power of two are exact, and toFixed rounds the exact value to the
   nearest hundredth, the larger one on a tie. *)
Definition megabytes_toFixed2 (bytes : Z) : string :=
  let n := (200 * bytes + 1048576) / 2097152 in
  pretty (n / 100) +:+ "." +:+ two_digits (n mod 100).

(* [file] is what stat finds: the file, or the error it throws. *)
Definition validateCSVFile (file : Thrown + CsvFile) : Validation :=
  let caught (e : Thrown) :=
    {| valid := false;
       verror := Some ("Invalid CSV file: " +:+ message_or "Unknown error" e);
       urlCount := None |} in
  match file with
  | inl e => caught e
  | inr f =>
      if maxSizeBytes <? file_size f then
        {| valid := false;
           verror := Some ("File size " +:+ megabytes_toFixed2 (file_size f)
                           +:+ "MB exceeds maximum of "
                           +:+ pretty (maxSizeBytes / 1024 / 1024) +:+ "MB");
           urlCount := None |}
      else
        match parseCSVUrls f with
        | inl e => caught e
        | inr urls =>
            if (length urls =? 0)%nat then
              {| valid := false;
                 verror := Some "No valid URLs found in CSV file. Please ensure your CSV has a column with URLs.";
                 urlCount := None |}
            else if (1000 <? length urls)%nat then
              {| valid := false;
                 verror := Some ("CSV contains " +:+ pretty (length urls)
                                 +:+ " URLs. Maximum allowed is 1000 URLs per batch.");
                 urlCount := None |}
            else
              {| valid := true; verror := None;
                 urlCount := Some (length urls) |}
        end
  end.

(* One field handed to the csv-stringify codec. *)
Inductive Cell := CellString (s : string) | CellNumber (n : Z) | CellUndefined.

(* The codec's default cast of a field: undefined becomes the empty
   field, a number its decimal notation. *)
Definition cast_cell (c : Cell) : string :=
  match c with
  | CellString s => s
  | CellNumber n => pretty n
  | CellUndefined => ""
  end.

Definition hex_digit (n : nat) : ascii :=
  ascii_of_nat (if (n <? 10)%nat then 48 + n else 87 + n).

(* JSON.stringify of a string: the quotes, and the escapes of the quote,
   the backslash and the control characters. *)
Fixpoint json_escape (s : string) : string :=
  match s with
  | EmptyString => EmptyString
  | String c r =>
      let n := nat_of_ascii c in
      let rest := json_escape r in
      if (n =? 34)%nat then String "\" (String (ascii_of_nat 34) rest)
      else if (n =? 92)%nat then String "\" (String "\" rest)
      else if (n =? 8)%nat then String "\" (String "b" rest)
      else if (n =? 9)%nat then String "\" (String "t" rest)
      else if (n =? 10)%nat then String "\" (String "n" rest)
      else if (n =? 12)%nat then String "\" (String "f" rest)
      else if (n =? 13)%nat then String "\" (String "r" rest)
      else if (n <? 32)%nat then
        String "\" (String "u" (String "0" (String "0"
          (String (hex_digit (n / 16)) (String (hex_digit (n mod 16)) rest)))))
      else String c rest
  end.

Definition dquote : string := String (ascii_of_nat 34) EmptyString.

Definition json_string (s : string) : string :=
  dquote +:+ json_escape s +:+ dquote.

Definition json_breakdown_entry (b : SeoScoreBreakdown) : string :=
  "{" +:+ json_string "tag" +:+ ":" +:+ json_string (bd_tag b) +:+ ","
  +:+ json_string "issue" +:+ ":" +:+ json_string (bd_issue b) +:+ ","
  +:+ json_string "deduction" +:+ ":" +:+ pretty (bd_deduction b) +:+ "}".

Fixpoint join (sep : string) (l : list string) : string :=
  match l with
  | [] => ""
  | [x] => x
  | x :: rest => x +:+ sep +:+ join sep rest
  end.

(* JSON.stringify(result.scoreBreakdown) *)
Definition JSON_stringify (bs : list SeoScoreBreakdown) : string :=
  "[" +:+ join "," (map json_breakdown_entry bs) +:+ "]".

Definition columns : list Cell :=
  map CellString
    ["URL"; "SEO_Score"; "Title_Tag"; "Title_Length"; "Meta_Description";
     "Meta_Description_Length"; "H1_Tag"; "OG_Title"; "OG_Description";
     "OG_Image"; "Twitter_Title"; "Twitter_Description"; "Twitter_Card";
     "Robots_Tag"; "Canonical_URL"; "Analysis_Date";
     "Score_Breakdown_Summary"; "Breakdown_Details"; "Error_Message"].

(* The array built for one result inside results.map(...) *)
Definition csv_record (result : BulkAnalysisResult) : list Cell :=
  [ CellString (url result);
    CellNumber (seoScore result);
    CellString (titleTag result);
    CellNumber (Z.of_nat (titleLength result));
    CellString (metaDescription result);
    CellNumber (Z.of_nat (metaDescriptionLength result));
    CellString (h1Tag result);
    CellString (ogTitle result);
    CellString (ogDescription result);
    CellString (ogImage result);
    CellString (twitterTitle result);
    CellString (twitterDescription result);
    CellString (twitterCard result);
    CellString (robotsTag result);
    CellString (canonicalUrl result);
    CellString (analysisDate result);
    match breakdownSummary result with
    | Some summary => CellString summary
    | None => CellUndefined
    end;
    match scoreBreakdown result with
    | Some bs => CellString (JSON_stringify bs)
    | None => CellString ""
    end;
    CellString (Js.opt_or (errorMessage result) "") ].

(* The records generateResultsCSV hands to stringify: [columns, ...csvData].
   The file it writes holds these records, the header first. *)
Definition generateResultsCSV (results : list BulkAnalysisResult)
    : list (list Cell) :=
  columns :: map csv_record results.

(* --------------------------------------------------------------------- *)
(* bulk-processor.ts: the analysis of one URL                             *)
(* --------------------------------------------------------------------- *)

(* How the race of processUrl between performSeoAnalysis and the timer
   ends: the page was fetched and parsed (with the host name that
   new URL(...) reports), something threw on the way, or the timer of
   processingTimeout rejected first. *)
Inductive Outcome :=
  | Fetched (page : Page) (hostname : string)
  | Threw (e : Thrown)
  | TimedOut.

Definition processingTimeout : Z := 30000.

(* performSeoAnalysis, behind the fetch *)
Definition performSeoAnalysis (targetUrl : string) (page : Page)
    (hostname : string) : SeoAnalysisResult :=
  let urlToAnalyze :=
    if Js.startsWith "http" targetUrl then targetUrl
    else "https://" +:+ targetUrl in
  let a := analyzeSeoTags page urlToAnalyze in
  let title := Js.or_else (Js.trim (title_text page)) "" in
  let description := Js.trim_or_empty (meta_description page) in
  let domain := hostname in
  {| res_url := targetUrl;
     res_score := score a;
     res_breakdown := breakdown a;
     res_tags := tags a;
     previews :=
       {| google :=
            {| g_title := sanitizeText title;
               g_description := sanitizeText description;
               g_url := targetUrl |};
          facebook :=
            {| s_title := sanitizeText (Js.opt_or (og_title page) title);
               s_description :=
                 sanitizeText (Js.opt_or (og_description page) description);
               s_image := Js.opt_or (og_image page) "";
               s_domain := domain |};
          twitter :=
            {| t_title := sanitizeText (Js.opt_or (twitter_title page) title);
               t_description :=
                 sanitizeText (Js.opt_or (twitter_description page) description);
               t_image := Js.opt_or (twitter_image page) "";
               t_card := Js.opt_or (twitter_card page) "summary";
               t_domain := domain |};
          linkedin :=
            {| s_title := sanitizeText (Js.opt_or (og_title page) title);
               s_description :=
                 sanitizeText (Js.opt_or (og_description page) description);
               s_image := Js.opt_or (og_image page) "";
               s_domain := domain |} |} |}.

(* const tag = tags.find(t => t.tag === tagName); tag ? tag.content : '' *)
Definition extractTagContent (tags : list SeoTag) (tagName : string) : string :=
  match List.find (fun t => bool_decide (tag t = tagName)) tags with
  | Some t => content t
  | None => ""
  end.

(* The object csvResult of processUrl *)
Definition csvResult (analysis : SeoAnalysisResult) (now : string)
    : BulkAnalysisResult :=
  {| url := res_url analysis;
     seoScore := res_score analysis;
     titleTag := extractTagContent (res_tags analysis) "Title";
     titleLength :=
       String.length (extractTagContent (res_tags analysis) "Title");
     metaDescription :=
       extractTagContent (res_tags analysis) "Meta Description";
     metaDescriptionLength :=
       String.length (extractTagContent (res_tags analysis) "Meta Description");
     h1Tag := extractTagContent (res_tags analysis) "H1";
     ogTitle := s_title (facebook (previews analysis));
     ogDescription := s_description (facebook (previews analysis));
     ogImage := Js.or_else (s_image (facebook (previews analysis))) "";
     twitterTitle := t_title (twitter (previews analysis));
     twitterDescription := t_description (twitter (previews analysis));
     twitterCard := t_card (twitter (previews analysis));
     robotsTag := extractTagContent (res_tags analysis) "Robots";
     canonicalUrl := extractTagContent (res_tags analysis) "Canonical";
     analysisDate := now;
     errorMessage := None;
     scoreBreakdown := None;
     breakdownSummary := None |}.

(* A settled promise of processUrl, as Promise.allSettled reports it. *)
Inductive Settled :=
  | Fulfilled (value : BulkAnalysisResult)
  | Rejected (reason : Thrown).

(* What the race rejects with when it does not deliver an analysis. *)
Definition race_error (o : Outcome) : Thrown :=
  match o with
  | Threw e => e
  | _ => JsError "URL analysis timeout"
  end.

(* processUrl from the moment the race settles: the success branch stores
   the analysis and returns the row, the catch branch stores the error
   message and throws. [uuid] and [now] are the identifier and the time
   that createBulkUrlResult draws. *)
Definition processUrl (url jobId : string) (o : Outcome) (uuid now : string)
    (st : MemStorage) : Settled * MemStorage :=
  match o with
  | Fetched page hostname =>
      let analysis := performSeoAnalysis url page hostname in
      let row := csvResult analysis now in
      let st' :=
        snd (createBulkUrlResult uuid now
               {| ins_jobId := jobId; ins_url := url;
                  ins_analysisResult := Some analysis;
                  ins_errorMessage := None |} st) in
      (Fulfilled row, st')
  | _ =>
      let errorMessage := message_or "Unknown error" (race_error o) in
      let st' :=
        snd (createBulkUrlResult uuid now
               {| ins_jobId := jobId; ins_url := url;
                  ins_analysisResult := None;
                  ins_errorMessage := Some errorMessage |} st) in
      (Rejected (JsError ("Failed to analyze " +:+ url +:+ ": "
                          +:+ errorMessage)), st')
  end.

(* The object errorResult that processJob builds for a rejected promise:
   result.reason?.message || 'Analysis failed' *)
Definition errorResult (url : string) (reason : Thrown) (now : string)
    : BulkAnalysisResult :=
  {| url := url;
     seoScore := 0;
     titleTag := "";
     titleLength := 0;
     metaDescription := "";
     metaDescriptionLength := 0;
     h1Tag := "";
     ogTitle := "";
     ogDescription := "";
     ogImage := "";
     twitterTitle := "";
     twitterDescription := "";
     twitterCard := "";
     robotsTag := "";
     canonicalUrl := "";
     analysisDate := now;
     errorMessage :=
       Some (match reason with
             | JsError m => Js.or_else m "Analysis failed"
             | NotAnError => "Analysis failed"
             end);
     scoreBreakdown := None;
     breakdownSummary := None |}.

(* --------------------------------------------------------------------- *)
(* bulk-processor.ts: BulkAnalysisQueue.processJob                        *)
(* --------------------------------------------------------------------- *)

(* The payloads handed to emit(...); of the progress payload the total
   and the processed count are kept (the percentage is a floating point
   rounding of their quotient). *)
Inductive QueueEvent :=
  | job_started (jobId : string)
  | job_progress (jobId : string) (total processed : nat)
  | job_completed (jobId : string)
  | job_failed (jobId : string) (e : Thrown).

(* A file on disk: an uploaded CSV, or a result CSV given by the records
   that were handed to the codec. *)
Inductive FileData :=
  | Uploaded (f : CsvFile)
  | Results (table : list (list Cell)).

(* A call of processJob is suspended at one of three awaits that wait for
   the outside world; [Runner] holds the locals that are live there.
   - AwaitParse: inside parseCSVUrls; [f] is the opened upload, [None]
     when the file could not be opened (its stream error has no listener,
     so the promise never settles).
   - AwaitBatch: inside Promise.allSettled for the batch that starts at
     [i]; [batchPromises] holds, per URL of the batch, how its promise
     has settled so far.
   - AwaitWrite: inside generateResultsCSV. *)
Inductive Runner :=
  | AwaitParse (f : option CsvFile)
  | AwaitBatch (urls : list string) (i : nat)
      (results : list BulkAnalysisResult) (batchPromises : list (option Settled))
  | AwaitWrite (urls : list string) (results : list BulkAnalysisResult).

(* The process: the storage singleton, the queue singleton (its set of
   processing jobs, what it has emitted and its suspended calls), the
   files, and the upload handlers suspended in their rename, each with
   the temporary file it holds. *)
Record World := {
  storage : MemStorage;
  processingJobs : gset string;
  emitted : list QueueEvent;
  files : gmap string FileData;
  runners : gmap string Runner;
  renaming : gmap string CsvFile;
}.

Definition init : World :=
  {| storage := new_MemStorage; processingJobs := ∅; emitted := [];
     files := ∅; runners := ∅; renaming := ∅ |}.

Definition set_storage (st : MemStorage) (w : World) : World :=
  {| storage := st; processingJobs := processingJobs w;
     emitted := emitted w; files := files w; runners := runners w;
     renaming := renaming w |}.

Definition set_processingJobs (s : gset string) (w : World) : World :=
  {| storage := storage w; processingJobs := s;
     emitted := emitted w; files := files w; runners := runners w;
     renaming := renaming w |}.

Definition emit (e : QueueEvent) (w : World) : World :=
  {| storage := storage w; processingJobs := processingJobs w;
     emitted := emitted w ++ [e]; files := files w; runners := runners w;
     renaming := renaming w |}.

Definition set_files (fs : gmap string FileData) (w : World) : World :=
  {| storage := storage w; processingJobs := processingJobs w;
     emitted := emitted w; files := fs; runners := runners w;
     renaming := renaming w |}.

Definition set_runners (rs : gmap string Runner) (w : World) : World :=
  {| storage := storage w; processingJobs := processingJobs w;
     emitted := emitted w; files := files w; runners := rs;
     renaming := renaming w |}.

Definition set_renaming (rn : gmap string CsvFile) (w : World) : World :=
  {| storage := storage w; processingJobs := processingJobs w;
     emitted := emitted w; files := files w; runners := runners w;
     renaming := rn |}.

(* await storage.updateBulkJob(jobId, updates), the result dropped *)
Definition update_job (jobId : string) (updates : JobUpdates) (w : World)
    : World :=
  set_storage (snd (updateBulkJob jobId updates (storage w))) w.

Global Arguments update_job : simpl never.

(* path.join(process.cwd(), 'uploads', `${jobId}.csv`) and
   path.join(process.cwd(), 'results', `${jobId}_results.csv`), relative
   to the working directory *)
Definition uploadPath (jobId : string) : string :=
  "uploads/" +:+ jobId +:+ ".csv".

Definition resultPath (jobId : string) : string :=
  "results/" +:+ jobId +:+ "_results.csv".

Definition maxConcurrentUrls : nat := 10.

(* The catch clause and the finally clause of processJob; the call ends. *)
Definition job_fails (jobId : string) (error : Thrown) (now : string)
    (w : World) : World :=
  let w := update_job jobId
             {| upd_id := None; upd_userSession := None; upd_filename := None;
                upd_totalUrls := None; upd_processedUrls := None;
                upd_status := Some failed; upd_createdAt := None;
                upd_completedAt := Some now; upd_resultFilePath := None |} w in
  let w := emit (job_failed jobId error) w in
  let w := set_processingJobs (processingJobs w ∖ {[jobId]}) w in
  set_runners (delete jobId (runners w)) w.

(* The head of the loop  for (let i = ..; i < urls.length; i += batchSize):
   either the next batch is sliced and all its processUrl calls are
   started, or the loop is left and generateResultsCSV is started. Both
   ways the call waits again. *)
Definition next_wait (urls : list string) (i : nat)
    (results : list BulkAnalysisResult) : Runner :=
  if (i <? length urls)%nat then
    let batch := Js.slice i (i + maxConcurrentUrls) urls in
    AwaitBatch urls i results (replicate (length batch) None)
  else
    AwaitWrite urls results.

Definition loop_head (jobId : string) (urls : list string) (i : nat)
    (results : list BulkAnalysisResult) (w : World) : World :=
  set_runners (<[jobId := next_wait urls i results]> (runners w)) w.

(* processJob from its entry to its first wait for the outside world. *)
Definition processJob (jobId : string) (now : string) (w : World) : World :=
  if decide (jobId ∈ processingJobs w) then w
  else
    let w := set_processingJobs ({[jobId]} ∪ processingJobs w) w in
    let w := emit (job_started jobId) w in
    match getBulkJob jobId (storage w) with
    | None =>
        job_fails jobId (JsError ("Job " +:+ jobId +:+ " not found")) now w
    | Some job =>
        let w := update_job jobId
                   {| upd_id := None; upd_userSession := None;
                      upd_filename := None; upd_totalUrls := None;
                      upd_processedUrls := Some 0%nat;
                      upd_status := Some processing; upd_createdAt := None;
                      upd_completedAt := None; upd_resultFilePath := None |} w in
        let opened :=
          match files w !! uploadPath jobId with
          | Some (Uploaded f) => Some f
          | _ => None
          end in
        set_runners (<[jobId := AwaitParse opened]> (runners w)) w
    end.

(* parseCSVUrls settles: with an error the catch clause runs, with the
   URLs the loop over the batches is entered. *)
Definition parse_settles (jobId : string) (now : string) (w : World) : World :=
  match runners w !! jobId with
  | Some (AwaitParse (Some f)) =>
      match parseCSVUrls f with
      | inl e => job_fails jobId e now w
      | inr urls => loop_head jobId urls 0 [] w
      end
  | _ => w
  end.

(* The loop  for (let j = 0; j < batchResults.length; j++)  over the
   settled batch: [batch] and [batchResults] have the same length, and
   [j] counts from 0. *)
Fixpoint collect_batch (jobId : string) (total i j : nat)
    (batch : list string) (batchResults : list Settled) (now : string)
    (results : list BulkAnalysisResult) (w : World)
    : list BulkAnalysisResult * World :=
  match batch, batchResults with
  | url :: batch', result :: batchResults' =>
      let results :=
        match result with
        | Fulfilled value => results ++ [value]
        | Rejected reason => results ++ [errorResult url reason now]
        end in
      let processedCount := (i + j + 1)%nat in
      let w := update_job jobId
                 {| upd_id := None; upd_userSession := None;
                    upd_filename := None; upd_totalUrls := None;
                    upd_processedUrls := Some processedCount;
                    upd_status := None; upd_createdAt := None;
                    upd_completedAt := None; upd_resultFilePath := None |} w in
      let w := emit (job_progress jobId total processedCount) w in
      collect_batch jobId total i (S j) batch' batchResults' now results w
  | _, _ => (results, w)
  end.

(* The promises of a batch that have all settled, in batch order. *)
Definition all_settled (batchPromises : list (option Settled))
    : option (list Settled) :=
  mapM id batchPromises.

(* The race for the [n]-th URL of the job settles. The call of processUrl
   continues and settles its promise; when this was the last promise of
   the batch, Promise.allSettled resolves and processJob runs on to its
   next wait. A promise settles once: the event has no effect on a
   promise that is settled or not among those of the current batch. *)
Definition url_settles (jobId : string) (n : nat) (o : Outcome)
    (uuid now : string) (w : World) : World :=
  match runners w !! jobId with
  | Some (AwaitBatch urls i results batchPromises) =>
      let batch := Js.slice i (i + maxConcurrentUrls) urls in
      let j := (n - i)%nat in
      match bool_decide (i <= n)%nat, batchPromises !! j, batch !! j with
      | true, Some None, Some url =>
          let '(settled, st) := processUrl url jobId o uuid now (storage w) in
          let w := set_storage st w in
          let batchPromises := <[j := Some settled]> batchPromises in
          match all_settled batchPromises with
          | Some batchResults =>
              let '(results, w) :=
                collect_batch jobId (length urls) i 0 batch batchResults now
                  results w in
              loop_head jobId urls (i + maxConcurrentUrls) results w
          | None =>
              set_runners
                (<[jobId := AwaitBatch urls i results batchPromises]>
                   (runners w)) w
          end
      | _, _, _ => w
      end
  | _ => w
  end.

(* generateResultsCSV settles: [err] is the error of the codec or of the
   write, [None] when the file was written. *)
Definition write_settles (jobId : string) (err : option Thrown) (now : string)
    (w : World) : World :=
  match runners w !! jobId with
  | Some (AwaitWrite urls results) =>
      match err with
      | Some e => job_fails jobId e now w
      | None =>
          let w := set_files
                     (<[resultPath jobId := Results (generateResultsCSV results)]>
                        (files w)) w in
          let w := update_job jobId
                     {| upd_id := None; upd_userSession := None;
                        upd_filename := None; upd_totalUrls := None;
                        upd_processedUrls := None;
                        upd_status := Some completed; upd_createdAt := None;
                        upd_completedAt := Some now;
                        upd_resultFilePath := Some (resultPath jobId) |} w in
          let w := emit (job_completed jobId) w in
          let w := set_processingJobs (processingJobs w ∖ {[jobId]}) w in
          set_runners (delete jobId (runners w)) w
      end
  | _ => w
  end.

(* --------------------------------------------------------------------- *)
(* routes.ts: the bulk routes that change a job                           *)
(* --------------------------------------------------------------------- *)

(* POST /api/bulk/upload up to its rename: the file is validated and the
   job is created. [f] is the temporary file of the request; randomUUID
   draws [uuid], an identifier that no job has yet. *)
Definition upload (sessionId originalname : string) (f : CsvFile)
    (uuid now : string) (w : World) : World :=
  let validation := validateCSVFile (inr f) in
  if negb (valid validation) then w
  else if decide (uuid ∈ dom (bulkJobs (storage w))) then w
  else
    let '(job, st) :=
      createBulkJob uuid now
        {| ins_userSession := sessionId;
           ins_filename := originalname;
           ins_totalUrls := default 0%nat (urlCount validation);
           ins_processedUrls := 0;
           ins_status := pending;
           ins_completedAt := None;
           ins_resultFilePath := None |} (storage w) in
    set_renaming (<[job_id job := f]> (renaming w)) (set_storage st w).

(* The rest of the upload handler: the file has been moved to its
   permanent place and processJob is started. *)
Definition renamed (jobId : string) (now : string) (w : World) : World :=
  match renaming w !! jobId with
  | Some f =>
      let w := set_renaming (delete jobId (renaming w)) w in
      let w := set_files (<[uploadPath jobId := Uploaded f]> (files w)) w in
      processJob jobId now w
  | None => w
  end.

(* DELETE /api/bulk/jobs/:jobId, with the status code it answers *)
Definition delete_job (jobId sessionId : string) (w : World) : Z * World :=
  match getBulkJob jobId (storage w) with
  | None => (404, w)
  | Some job =>
      if negb (bool_decide (userSession job = sessionId)) then (403, w)
      else
        let w :=
          if bool_decide (job_status job = pending)
             || bool_decide (job_status job = processing)
          then update_job jobId
                 {| upd_id := None; upd_userSession := None;
                    upd_filename := None; upd_totalUrls := None;
                    upd_processedUrls := None; upd_status := Some failed;
                    upd_createdAt := None; upd_completedAt := None;
                    upd_resultFilePath := None |} w
          else w in
        let w := set_files (delete (uploadPath jobId) (files w)) w in
        let w :=
          match resultFilePath job with
          | Some p => set_files (delete p (files w)) w
          | None => w
          end in
        (200, w)
  end.

(* --------------------------------------------------------------------- *)
(* The process as a transition system                                     *)
(* --------------------------------------------------------------------- *)
(* Every handler and every continuation runs without interruption until
   it waits for the network, the file system or a timer; storage calls are
   awaited but complete without such a wait. One event is one of these
   uninterrupted stretches. *)
Inductive Event :=
  | Upload (sessionId originalname : string) (f : CsvFile) (uuid now : string)
  | Renamed (jobId now : string)
  | ParseSettled (jobId now : string)
  | UrlSettled (jobId : string) (n : nat) (o : Outcome) (uuid now : string)
  | WriteSettled (jobId : string) (err : option Thrown) (now : string)
  | Delete (jobId sessionId : string).

Definition step (w : World) (e : Event) : World :=
  match e with
  | Upload sessionId originalname f uuid now =>
      upload sessionId originalname f uuid now w
  | Renamed jobId now => renamed jobId now w
  | ParseSettled jobId now => parse_settles jobId now w
  | UrlSettled jobId n o uuid now => url_settles jobId n o uuid now w
  | WriteSettled jobId err now => write_settles jobId err now w
  | Delete jobId sessionId => snd (delete_job jobId sessionId w)
  end.

Definition run (evs : list Event) (w : World) : World := foldl step w evs.

(* --------------------------------------------------------------------- *)
(* The definitions at work                                                *)
(* --------------------------------------------------------------------- *)

Example sanitizeText_strips_script_block :
  sanitizeText "  Shop <SCRIPT type=x>track(<b>)</script>now <b>open</b> " =
  "Shop now open".
Proof. reflexivity. Qed.

Example sanitizeText_open_script_is_a_tag :
  sanitizeText "a <script>b < c" = "a b < c".
Proof. reflexivity. Qed.

Example sanitizeText_needs_word_boundary :
  sanitizeText "<scripted>x</script>y" = "xy".
Proof. reflexivity. Qed.

Example row_url_prefers_named_column :
  row_url [("name", "a.example"); ("website", " shop.example ")] =
  Some "https://shop.example".
Proof. reflexivity. Qed.

Example row_url_falls_back_to_url_like_value :
  row_url [("name", "Shop"); ("home", "http://shop.example")] =
  Some "http://shop.example".
Proof. reflexivity. Qed.

Example row_url_skips_row_without_candidate :
  row_url [("name", "Test"); ("description", "Description")] = None.
Proof. reflexivity. Qed.

Example validate_no_urls :
  validateCSVFile
    (inr {| file_size := 60;
            parsed := inr [[("name", "Test"); ("description", "Description")];
                           [("name", "Another");
                            ("description", "Another Description")]] |}) =
  {| valid := false;
     verror := Some "No valid URLs found in CSV file. Please ensure your CSV has a column with URLs.";
     urlCount := None |}.
Proof. reflexivity. Qed.

Example validate_1001_urls :
  validateCSVFile
    (inr {| file_size := 20000;
            parsed := inr (replicate 1001 [("url", "https://example.com")]) |}) =
  {| valid := false;
     verror := Some "CSV contains 1001 URLs. Maximum allowed is 1000 URLs per batch.";
     urlCount := None |}.
Proof. by vm_compute. Qed.

Example validate_oversize :
  verror (validateCSVFile (inr {| file_size := 11000000; parsed := inr [] |})) =
  Some "File size 10.49MB exceeds maximum of 10MB".
Proof. reflexivity. Qed.

(* ===================================================================== *)
(* Scoring engine: properties                                            *)
(* ===================================================================== *)

Section Scoring.

(* What one check does to the three locals: it pushes exactly one tag
   named [name]; a good tag leaves breakdown and score alone, any other
   tag comes with one breakdown entry of the same positive deduction,
   which is also taken off the score. *)
Definition check_step (name : string) (a a' : Analysis) : Prop :=
  exists t, tag t = name /\ tags a' = tags a ++ [t] /\
    ((status t = good /\ deduction t = 0 /\
      breakdown a' = breakdown a /\ score a' = score a) \/
     (status t <> good /\ 0 < deduction t /\
      exists b, breakdown a' = breakdown a ++ [b] /\
                bd_deduction b = deduction t /\
                score a' = score a - deduction t)).

Lemma push_good_step t a :
  status t = good -> deduction t = 0 -> check_step (tag t) a (push_good t a).
Proof. intros Hs Hd. exists t. split; [done|]. split; [done|]. left. done. Qed.

Lemma push_issue_step t b d a :
  status t <> good -> 0 < d -> deduction t = d -> bd_deduction b = d ->
  check_step (tag t) a (push_issue t b d a).
Proof.
  intros Hs Hd Ht Hb. exists t. split; [done|]. split; [done|]. right.
  split; [done|]. split; [lia|]. exists b. simpl. by rewrite Hb, Ht.
Qed.

Lemma check_title_step title a : check_step "Title" a (check_title title a).
Proof.
  unfold check_title.
  destruct (negb (Js.truthy title)).
  - by apply (push_issue_step (Build_SeoTag _ _ _ _ _)).
  - cbv zeta. destruct (_ <? 30)%nat.
    + by apply (push_issue_step (Build_SeoTag _ _ _ _ _)).
    + destruct (60 <? _)%nat.
      * by apply (push_issue_step (Build_SeoTag _ _ _ _ _)).
      * by apply (push_good_step (Build_SeoTag _ _ _ _ _)).
Qed.

Lemma check_description_step d a :
  check_step "Meta Description" a (check_description d a).
Proof.
  unfold check_description.
  destruct (negb (Js.truthy d)).
  - by apply (push_issue_step (Build_SeoTag _ _ _ _ _)).
  - cbv zeta. destruct (_ <? 120)%nat.
    + by apply (push_issue_step (Build_SeoTag _ _ _ _ _)).
    + destruct (160 <? _)%nat.
      * by apply (push_issue_step (Build_SeoTag _ _ _ _ _)).
      * by apply (push_good_step (Build_SeoTag _ _ _ _ _)).
Qed.

Lemma check_present_step name mf cat issue gf v shown a :
  check_step name a (check_present name mf cat issue gf v shown a).
Proof.
  unfold check_present. destruct (negb (Js.truthy v)).
  - by apply (push_issue_step (Build_SeoTag _ _ _ _ _)).
  - by apply (push_good_step (Build_SeoTag _ _ _ _ _)).
Qed.

Lemma sum_deductions_app bs b :
  sum_deductions (bs ++ [b]) = sum_deductions bs + bd_deduction b.
Proof. unfold sum_deductions. induction bs as [|x bs IH]; simpl; lia. Qed.

(* The invariant carried along the ten checks. *)
Record checked (names : list string) (a : Analysis) : Prop := {
  checked_names : map tag (tags a) = names;
  checked_score : score a = 100 - sum_deductions (breakdown a);
  checked_nonneg : 0 <= sum_deductions (breakdown a);
  checked_pairs :
    map bd_deduction (breakdown a) = map deduction (filter not_good (tags a));
}.

Lemma checked_start :
  checked [] {| tags := []; breakdown := []; score := 100 |}.
Proof. split; done. Qed.

Lemma checked_step names name a a' :
  checked names a -> check_step name a a' -> checked (names ++ [name]) a'.
Proof.
  intros [Hn Hs Hp Hb] (t & Ht & Htags & Hcase).
  destruct Hcase as [(Hg & Hd & Hbd & Hsc) | (Hg & Hd & b & Hbd & Hdb & Hsc)].
  - split.
    + by rewrite Htags, map_app, Hn, <- Ht.
    + by rewrite Hbd, Hsc.
    + by rewrite Hbd.
    + rewrite Hbd, Htags, filter_app, Hb.
      rewrite (filter_cons_False _ t []) by (unfold not_good; tauto).
      by rewrite filter_nil, app_nil_r.
  - split.
    + by rewrite Htags, map_app, Hn, <- Ht.
    + rewrite Hbd, Hsc, sum_deductions_app, Hs. lia.
    + rewrite Hbd, sum_deductions_app. lia.
    + rewrite Hbd, Htags, filter_app, !map_app, Hb.
      rewrite (filter_cons_True _ t []) by done.
      by rewrite filter_nil; simpl; rewrite Hdb.
Qed.

Ltac checked_next :=
  match goal with
  | |- checked ?l (check_present ?n _ _ _ _ _ _ ?a) =>
      let l' := eval cbv in (removelast l) in
      apply (checked_step l' n a _); [| apply check_present_step]
  | |- checked ?l (check_description _ ?a) =>
      let l' := eval cbv in (removelast l) in
      apply (checked_step l' "Meta Description" a _);
      [| apply check_description_step]
  | |- checked ?l (check_title _ ?a) =>
      let l' := eval cbv in (removelast l) in
      apply (checked_step l' "Title" a _); [| apply check_title_step]
  end.

Lemma run_checks_checked p : checked tag_order (run_checks p).
Proof.
  unfold run_checks, tag_order. cbv zeta.
  do 10 checked_next. apply checked_start.
Qed.

(** C6: for every parsed page the returned score is
    max(0, 100 - sum of the deductions recorded in the breakdown), and so
    an integer between 0 and 100. *)
Theorem score_is_clamped_remainder (p : Page) (url : string) :
  let r := analyzeSeoTags p url in
  score r = Z.max 0 (100 - sum_deductions (breakdown r)) /\
  0 <= score r <= 100.
Proof.
  destruct (run_checks_checked p) as [_ Hs Hp _].
  unfold analyzeSeoTags. simpl. rewrite Hs. lia.
Qed.

(** C9: for every parsed page the engine returns the ten tag evaluations
    in the fixed order Title, Meta Description, Meta Robots, OG Title,
    OG Description, OG Image, Twitter Card, Twitter Title,
    Twitter Description, Twitter Image; the last one is the Twitter Image
    check, missing with a deduction of 5 (and its breakdown entry) exactly
    when the page has no twitter:image value; and the breakdown holds one
    entry per tag that is not good, in the same order and with the same
    deduction. *)
Theorem ten_tags_one_entry_per_issue (p : Page) (url : string) :
  let r := analyzeSeoTags p url in
  map tag (tags r) = tag_order /\
  length (tags r) = 10%nat /\
  (exists t, tags r !! 9%nat = Some t /\ tag t = "Twitter Image" /\
     match Js.truthy (Js.trim_or_empty (twitter_image p)) with
     | true => status t = good /\ deduction t = 0
     | false =>
         status t = missing /\ deduction t = 5 /\
         last (breakdown r) =
           Some {| bd_tag := "Twitter Card";
                   bd_issue := "Missing Twitter image"; bd_deduction := 5 |}
     end) /\
  length (breakdown r) = length (filter not_good (tags r)) /\
  map bd_deduction (breakdown r) = map deduction (filter not_good (tags r)).
Proof.
  destruct (run_checks_checked p) as [Hn _ _ Hb].
  unfold analyzeSeoTags. simpl.
  split; [done|]. split; [by rewrite <- (length_map tag), Hn|].
  split.
  - clear Hn Hb. unfold run_checks. cbv zeta.
    match goal with
    | |- context [check_present "Twitter Image" _ _ _ _ _ _ ?a] => set (a9 := a)
    end.
    assert (H9 : checked (removelast tag_order) a9).
    { unfold a9, tag_order. simpl removelast. do 9 checked_next.
      apply checked_start. }
    assert (Hlen : length (tags a9) = 9%nat).
    { by rewrite <- (length_map tag), (checked_names _ _ H9). }
    clearbody a9. unfold check_present.
    destruct (Js.truthy (Js.trim_or_empty (twitter_image p))); simpl.
    + eexists. split; [by apply list_lookup_middle|]. done.
    + eexists. split; [by apply list_lookup_middle|].
      by rewrite last_snoc.
  - split; [|done]. by rewrite <- (length_map bd_deduction), Hb, length_map.
Qed.

(** C1 (as the code has it): for a page with no title, no meta description
    and none of the other checked tags, the engine returns the score
    100 - 25 - 20 - 5 - 5 * 7 = 15 and a breakdown of exactly 10 entries. *)
Theorem nothing_present_score (p : Page) (url : string) :
  nothing_present p ->
  score (analyzeSeoTags p url) = 15 /\
  length (breakdown (analyzeSeoTags p url)) = 10%nat.
Proof.
  intros (H1 & H2 & H3 & H4 & H5 & H6 & H7 & H8 & H9 & H10).
  unfold analyzeSeoTags, run_checks. cbv zeta.
  rewrite H1, H2, H3, H4, H5, H6, H7, H8, H9, H10. by vm_compute.
Qed.

Lemma nothing_present_score_witness :
  nothing_present empty_page /\
  score (analyzeSeoTags empty_page "https://example.com") = 15 /\
  length (breakdown (analyzeSeoTags empty_page "https://example.com")) = 10%nat.
Proof.
  assert (H : nothing_present empty_page) by (repeat split; reflexivity).
  split; [exact H|]. exact (nothing_present_score empty_page _ H).
Defined.

(* The scenario as the specification words it does not hold of the code:
   the empty page scores 15 with 10 breakdown entries, not 0 with 9. *)
Lemma empty_page_not_zero_nine :
  nothing_present empty_page /\
  ~ (score (analyzeSeoTags empty_page "https://example.com") = 0 /\
     length (breakdown (analyzeSeoTags empty_page "https://example.com")) = 9%nat).
Proof.
  split; [by repeat split|]. vm_compute. intros [H _]. discriminate H.
Qed.

End Scoring.

(* ===================================================================== *)
(* Job store: properties                                                 *)
(* ===================================================================== *)

Section Storage.

(* A field after the merge: the supplied value, or the old one. *)
Definition merged {A : Type} (old : A) (supplied : option A) (new : A) : Prop :=
  match supplied with
  | Some v => new = v
  | None => new = old
  end.

Lemma merged_default {A : Type} (old : A) (supplied : option A) :
  merged old supplied (default old supplied).
Proof. by destruct supplied. Qed.

Lemma merged_option {A : Type} (old : option A) (supplied : option A) :
  merged old (Some <$> supplied)
    (match supplied with Some v => Some v | None => old end).
Proof. by destruct supplied. Qed.

(** C10: updateBulkJob with a job id that is not in the store returns
    undefined and leaves the store as it is; with a job id that is in the
    store it returns the merged job, stores it under that id, overwrites
    exactly the supplied fields, and changes no other job and no per-URL
    result. *)
Theorem updateBulkJob_frame (jobId : string) (updates : JobUpdates)
    (st : MemStorage) :
  match bulkJobs st !! jobId with
  | None => updateBulkJob jobId updates st = (None, st)
  | Some job =>
      exists updated st',
        updateBulkJob jobId updates st = (Some updated, st') /\
        bulkJobs st' !! jobId = Some updated /\
        merged (job_id job) (upd_id updates) (job_id updated) /\
        merged (userSession job) (upd_userSession updates) (userSession updated) /\
        merged (filename job) (upd_filename updates) (filename updated) /\
        merged (totalUrls job) (upd_totalUrls updates) (totalUrls updated) /\
        merged (processedUrls job) (upd_processedUrls updates)
               (processedUrls updated) /\
        merged (job_status job) (upd_status updates) (job_status updated) /\
        merged (createdAt job) (upd_createdAt updates) (createdAt updated) /\
        merged (completedAt job) (Some <$> upd_completedAt updates)
               (completedAt updated) /\
        merged (resultFilePath job) (Some <$> upd_resultFilePath updates)
               (resultFilePath updated) /\
        (forall other, other <> jobId ->
           bulkJobs st' !! other = bulkJobs st !! other) /\
        dom (bulkJobs st') = dom (bulkJobs st) /\
        bulkUrlResults st' = bulkUrlResults st
  end.
Proof.
  unfold updateBulkJob.
  destruct (bulkJobs st !! jobId) as [job|] eqn:Hjob; [|done].
  eexists _, _. split; [done|]. simpl.
  split; [by rewrite lookup_insert_eq|].
  repeat (split; [first [apply merged_default | apply merged_option]|]).
  split; [|split; [|done]].
  - intros other Hne. by rewrite lookup_insert_ne.
  - apply dom_insert_lookup_L. by rewrite Hjob.
Qed.

End Storage.

(* ===================================================================== *)
(* CSV validation: properties                                            *)
(* ===================================================================== *)

Section Validation.

Lemma append_assoc (a b c : string) : (a +:+ b) +:+ c = a +:+ (b +:+ c).
Proof.
  induction a as [|x a IH]; [done|].
  change (String x ((a +:+ b) +:+ c) = String x (a +:+ (b +:+ c))).
  by rewrite IH.
Qed.

Lemma validate_small (f : CsvFile) (urls : list string) :
  file_size f <= 10 * 1024 * 1024 -> parseCSVUrls f = inr urls ->
  validateCSVFile (inr f) =
    if (length urls =? 0)%nat then
      {| valid := false;
         verror := Some "No valid URLs found in CSV file. Please ensure your CSV has a column with URLs.";
         urlCount := None |}
    else if (1000 <? length urls)%nat then
      {| valid := false;
         verror := Some ("CSV contains " +:+ pretty (length urls)
                         +:+ " URLs. Maximum allowed is 1000 URLs per batch.");
         urlCount := None |}
    else {| valid := true; verror := None; urlCount := Some (length urls) |}.
Proof.
  intros Hsmall Hparse. unfold validateCSVFile. cbv zeta.
  assert ((maxSizeBytes <? file_size f) = false) as ->.
  { apply Z.ltb_ge. unfold maxSizeBytes. lia. }
  by rewrite Hparse.
Qed.

(** C8: validateCSVFile returns an invalid verdict with a reason when the
    file is larger than 10 MB; when, within that size, no URL is extracted
    (the reason contains No valid URLs found) or more than 1000 are (the
    reason contains Maximum allowed is 1000 URLs); and for a file within
    the size whose extracted URL count lies between 1 and 1000 it returns
    the valid verdict that carries this count. *)
Theorem validateCSVFile_verdicts (f : CsvFile) :
  let v := validateCSVFile (inr f) in
  ((10 * 1024 * 1024 < file_size f) ->
     (valid v = false /\ urlCount v = None /\
      verror v = Some ("File size " +:+ megabytes_toFixed2 (file_size f)
                       +:+ "MB exceeds maximum of 10MB"))) /\
  ((file_size f <= 10 * 1024 * 1024) ->
   forall urls, parseCSVUrls f = inr urls ->
     ((length urls = 0%nat) ->
        (valid v = false /\ urlCount v = None /\
         exists rest, verror v = Some ("No valid URLs found" +:+ rest))) /\
     ((1000 < length urls)%nat ->
        (valid v = false /\ urlCount v = None /\
         exists front rest,
           verror v =
             Some (front +:+ "Maximum allowed is 1000 URLs" +:+ rest))) /\
     ((1 <= length urls <= 1000)%nat ->
        v = {| valid := true; verror := None;
               urlCount := Some (length urls) |})).
Proof.
  cbv zeta. split.
  - intros Hbig. unfold validateCSVFile.
    assert ((maxSizeBytes <? file_size f) = true) as ->.
    { apply Z.ltb_lt. unfold maxSizeBytes. lia. }
    done.
  - intros Hsmall urls Hparse.
    rewrite (validate_small f urls Hsmall Hparse).
    split; [|split].
    + intros Hzero. rewrite Hzero. simpl.
      split; [done|]. split; [done|]. by eexists.
    + intros Hmany.
      destruct (length urls =? 0)%nat eqn:E; [apply Nat.eqb_eq in E; lia|].
      destruct (1000 <? length urls)%nat eqn:E2; [|apply Nat.ltb_ge in E2; lia].
      simpl. split; [done|]. split; [done|].
      exists ("CSV contains " +:+ pretty (length urls) +:+ " URLs. "),
        " per batch.".
      by rewrite !append_assoc.
    + intros [Hlo Hhi].
      destruct (length urls =? 0)%nat eqn:E; [apply Nat.eqb_eq in E; lia|].
      by destruct (1000 <? length urls)%nat eqn:E2; [apply Nat.ltb_lt in E2; lia|].
Qed.

(* A file of two records within the size ceiling. *)
Definition two_url_file : CsvFile :=
  {| file_size := 44;
     parsed := inr [[("url", "https://example.com")];
                    [("url", "https://google.com")]] |}.

Lemma validateCSVFile_verdicts_witness :
  file_size two_url_file <= 10 * 1024 * 1024 /\
  parseCSVUrls two_url_file = inr ["https://example.com"; "https://google.com"] /\
  validateCSVFile (inr two_url_file) =
    {| valid := true; verror := None; urlCount := Some 2%nat |}.
Proof.
  assert (Hsize : file_size two_url_file <= 10 * 1024 * 1024) by (simpl; lia).
  assert (Hparse : parseCSVUrls two_url_file =
                   inr ["https://example.com"; "https://google.com"])
    by reflexivity.
  split; [exact Hsize|]. split; [exact Hparse|].
  refine (proj2 (proj2 (proj2 (validateCSVFile_verdicts two_url_file) Hsize _ Hparse)) _).
  simpl. lia.
Defined.

End Validation.

(* ===================================================================== *)
(* Bulk job runner: properties                                           *)
(* ===================================================================== *)

Section Runner.

Implicit Types (w : World) (jobId : string) (e : Event).

(* How the pieces of the handlers act on the components of the process. *)

Lemma update_job_lookup jobId updates w other :
  bulkJobs (storage (update_job jobId updates w)) !! other =
    if decide (other = jobId)
    then (fun job => spread_job job updates) <$> bulkJobs (storage w) !! jobId
    else bulkJobs (storage w) !! other.
Proof.
  unfold update_job, updateBulkJob.
  destruct (bulkJobs (storage w) !! jobId) as [job|] eqn:Hjob; simpl.
  - case_decide as Ho.
    + subst other. by rewrite lookup_insert_eq.
    + by rewrite lookup_insert_ne.
  - case_decide as Ho; [by subst other|done].
Qed.

Lemma update_job_dom jobId updates w :
  dom (bulkJobs (storage (update_job jobId updates w))) =
  dom (bulkJobs (storage w)).
Proof.
  unfold update_job, updateBulkJob.
  destruct (bulkJobs (storage w) !! jobId) as [job|] eqn:Hjob; simpl; [|done].
  apply dom_insert_lookup_L. by rewrite Hjob.
Qed.

Lemma update_job_rest jobId updates w :
  bulkUrlResults (storage (update_job jobId updates w)) =
    bulkUrlResults (storage w) /\
  processingJobs (update_job jobId updates w) = processingJobs w /\
  emitted (update_job jobId updates w) = emitted w /\
  files (update_job jobId updates w) = files w /\
  runners (update_job jobId updates w) = runners w /\
  renaming (update_job jobId updates w) = renaming w.
Proof.
  unfold update_job, updateBulkJob.
  by destruct (bulkJobs (storage w) !! jobId).
Qed.

Lemma job_fails_processing jobId err now w :
  processingJobs (job_fails jobId err now w) = processingJobs w ∖ {[jobId]}.
Proof. done. Qed.

Lemma job_fails_runners jobId err now w :
  runners (job_fails jobId err now w) = delete jobId (runners w).
Proof. done. Qed.

Lemma job_fails_renaming jobId err now w :
  renaming (job_fails jobId err now w) = renaming w.
Proof. done. Qed.

Lemma job_fails_lookup jobId err now w other :
  bulkJobs (storage (job_fails jobId err now w)) !! other =
    if decide (other = jobId)
    then (fun job => spread_job job
            {| upd_id := None; upd_userSession := None; upd_filename := None;
               upd_totalUrls := None; upd_processedUrls := None;
               upd_status := Some failed; upd_createdAt := None;
               upd_completedAt := Some now; upd_resultFilePath := None |})
         <$> bulkJobs (storage w) !! jobId
    else bulkJobs (storage w) !! other.
Proof. unfold job_fails. simpl. apply update_job_lookup. Qed.

Lemma loop_head_runners jobId urls i results w :
  runners (loop_head jobId urls i results w) =
    <[jobId := next_wait urls i results]> (runners w).
Proof. done. Qed.

Lemma loop_head_rest jobId urls i results w :
  storage (loop_head jobId urls i results w) = storage w /\
  processingJobs (loop_head jobId urls i results w) = processingJobs w /\
  emitted (loop_head jobId urls i results w) = emitted w /\
  files (loop_head jobId urls i results w) = files w /\
  renaming (loop_head jobId urls i results w) = renaming w.
Proof. done. Qed.

Lemma collect_batch_rest jobId total i j batch batchResults now results w :
  let w' := snd (collect_batch jobId total i j batch batchResults now results w) in
  bulkUrlResults (storage w') = bulkUrlResults (storage w) /\
  processingJobs w' = processingJobs w /\
  files w' = files w /\
  runners w' = runners w /\
  renaming w' = renaming w.
Proof.
  revert j batchResults results w.
  induction batch as [|u batch IH]; intros j batchResults results w; [done|].
  destruct batchResults as [|r batchResults]; [done|].
  simpl.
  match goal with
  | |- context [collect_batch _ _ _ _ _ _ _ ?rs ?w1] =>
      destruct (IH (S j) batchResults rs w1) as (I1 & I2 & I3 & I4 & I5)
  end.
  split; [rewrite I1; apply update_job_rest|]. done.
Qed.

(* The set of processing jobs is the set of the calls in flight. *)
Definition guard_inv w : Prop := processingJobs w = dom (runners w).

Lemma guard_inv_job_fails jobId err now w :
  guard_inv w -> guard_inv (job_fails jobId err now w).
Proof.
  unfold guard_inv. intros H.
  by rewrite job_fails_processing, job_fails_runners, dom_delete_L, H.
Qed.

Lemma guard_inv_loop_head jobId urls i results w :
  guard_inv w -> is_Some (runners w !! jobId) ->
  guard_inv (loop_head jobId urls i results w).
Proof.
  unfold guard_inv. intros H Hin.
  rewrite loop_head_runners.
  destruct (loop_head_rest jobId urls i results w) as (_ & -> & _).
  rewrite dom_insert_lookup_L; done.
Qed.

Lemma guard_inv_processJob jobId now w :
  guard_inv w -> guard_inv (processJob jobId now w).
Proof.
  intros H. unfold processJob. case_decide as Hin; [done|].
  simpl. destruct (getBulkJob jobId (storage w)) as [job|].
  - unfold guard_inv. simpl. by rewrite dom_insert_L, H.
  - unfold guard_inv.
    rewrite job_fails_processing, job_fails_runners, dom_delete_L. simpl.
    rewrite H. set_solver.
Qed.

Lemma guard_inv_step w e : guard_inv w -> guard_inv (step w e).
Proof.
  intros H. destruct e as [s o f u t|j t|j t|j n o u t|j err t|j s]; simpl.
  - unfold upload. destruct (negb _); [done|]. case_decide; done.
  - unfold renamed. destruct (renaming w !! j); [|done].
    by apply guard_inv_processJob.
  - unfold parse_settles.
    destruct (runners w !! j) as [[[f|]| |]|] eqn:Hr; try done.
    destruct (parseCSVUrls f).
    + by apply guard_inv_job_fails.
    + apply guard_inv_loop_head; [done|]. by rewrite Hr.
  - unfold url_settles.
    destruct (runners w !! j) as [[| urls i results proms |]|] eqn:Hr; try done.
    destruct (bool_decide _); [|done].
    destruct (proms !! _) as [[|]|]; try done.
    destruct (Js.slice _ _ _ !! _) as [url|]; [|done].
    destruct (processUrl _ _ _ _ _ _) as [settled st].
    destruct (all_settled _) as [batchResults|].
    + match goal with
      | |- context [collect_batch ?a ?b ?c ?d ?e ?f ?g ?h ?k] =>
          pose proof (collect_batch_rest a b c d e f g h k) as Hc;
          destruct (collect_batch a b c d e f g h k) as [results' w']
      end.
      simpl in Hc. destruct Hc as (_ & Hp & _ & Hrun & _).
      apply guard_inv_loop_head.
      * unfold guard_inv. by rewrite Hp, Hrun.
      * by rewrite Hrun; simpl; rewrite Hr.
    + unfold guard_inv. simpl. rewrite dom_insert_lookup_L; [done|by rewrite Hr].
  - unfold write_settles.
    destruct (runners w !! j) as [[| |urls results]|] eqn:Hr; try done.
    destruct err as [e|]; [by apply guard_inv_job_fails|].
    unfold guard_inv. simpl. by rewrite dom_delete_L, H.
  - unfold delete_job. destruct (getBulkJob j (storage w)) as [job|]; [|done].
    destruct (negb _); [done|]. simpl.
    unfold guard_inv.
    by destruct (resultFilePath job); simpl;
      destruct (bool_decide _ || bool_decide _).
Qed.

Lemma run_snoc evs e w : run (evs ++ [e]) w = step (run evs w) e.
Proof. unfold run. by rewrite foldl_app. Qed.

Lemma guard_inv_run evs : guard_inv (run evs init).
Proof.
  induction evs as [|e evs IH] using rev_ind.
  - unfold guard_inv. simpl. by rewrite dom_empty_L.
  - rewrite run_snoc. by apply guard_inv_step.
Qed.


(* Locality: a handler that works for one job leaves the record, the call
   and the upload handler of every other job alone. *)
Definition touches_only (jobId : string) (w w' : World) : Prop :=
  forall other, other <> jobId ->
    bulkJobs (storage w') !! other = bulkJobs (storage w) !! other /\
    runners w' !! other = runners w !! other /\
    renaming w' !! other = renaming w !! other.

Lemma touches_only_refl jobId w : touches_only jobId w w.
Proof. by intros other _. Qed.

Lemma touches_only_trans jobId w1 w2 w3 :
  touches_only jobId w1 w2 -> touches_only jobId w2 w3 ->
  touches_only jobId w1 w3.
Proof.
  intros H12 H23 other Hne.
  destruct (H23 other Hne) as (-> & -> & ->).
  by destruct (H12 other Hne) as (-> & -> & ->).
Qed.

Lemma touches_only_update_job jobId updates w :
  touches_only jobId w (update_job jobId updates w).
Proof.
  intros other Hne. rewrite update_job_lookup.
  by case_decide.
Qed.

Lemma touches_only_job_fails jobId err now w :
  touches_only jobId w (job_fails jobId err now w).
Proof.
  intros other Hne. rewrite job_fails_lookup, job_fails_runners.
  case_decide; [done|]. by rewrite lookup_delete_ne.
Qed.

Lemma touches_only_loop_head jobId urls i results w :
  touches_only jobId w (loop_head jobId urls i results w).
Proof.
  intros other Hne.
  rewrite loop_head_runners.
  destruct (loop_head_rest jobId urls i results w) as (-> & _ & _ & _ & ->).
  by rewrite lookup_insert_ne.
Qed.

Lemma touches_only_processJob jobId now w :
  touches_only jobId w (processJob jobId now w).
Proof.
  unfold processJob. case_decide; [apply touches_only_refl|].
  cbv zeta. cbn [storage emit set_processingJobs].
  destruct (getBulkJob jobId (storage w)) as [job|].
  - intros other Hne. cbn [storage runners renaming set_runners].
    rewrite update_job_lookup.
    case_decide; [done|]. by rewrite lookup_insert_ne.
  - intros other Hne. rewrite job_fails_lookup, job_fails_runners.
    case_decide; [done|]. by rewrite lookup_delete_ne.
Qed.

(* The row that the loop over a settled batch pushes for one promise. *)
Definition row_of_settled (url : string) (result : Settled) (now : string)
    : BulkAnalysisResult :=
  match result with
  | Fulfilled value => value
  | Rejected reason => errorResult url reason now
  end.

Definition progress_update (n : nat) : JobUpdates :=
  {| upd_id := None; upd_userSession := None; upd_filename := None;
     upd_totalUrls := None; upd_processedUrls := Some n; upd_status := None;
     upd_createdAt := None; upd_completedAt := None;
     upd_resultFilePath := None |}.

Lemma collect_batch_results jobId total i j batch batchResults now results w :
  fst (collect_batch jobId total i j batch batchResults now results w) =
    results ++ zip_with (fun u r => row_of_settled u r now) batch batchResults.
Proof.
  revert j batchResults results w.
  induction batch as [|u batch IH]; intros j [|r batchResults] results w;
    cbn; try by rewrite app_nil_r.
  rewrite IH. destruct r; cbn; by rewrite <- app_assoc.
Qed.

Lemma spread_progress_twice job a b :
  spread_job (spread_job job (progress_update a)) (progress_update b) =
  spread_job job (progress_update b).
Proof. done. Qed.

Lemma collect_batch_lookup jobId total i j batch batchResults now results w other :
  let n := (length batch `min` length batchResults)%nat in
  bulkJobs (storage (snd (collect_batch jobId total i j batch batchResults
                            now results w))) !! other =
    if decide (other = jobId)
    then (fun job => match n with
                     | O => job
                     | S _ => spread_job job (progress_update (i + j + n))
                     end) <$> bulkJobs (storage w) !! jobId
    else bulkJobs (storage w) !! other.
Proof.
  revert j batchResults results w.
  induction batch as [|u batch IH]; intros j [|r batchResults] results w;
    cbn.
  1-3: case_decide as Ho; [subst other|done]; by destruct (_ !! jobId).
  cbv zeta in IH. rewrite IH. cbn. rewrite !update_job_lookup.
  case_decide as Ho; [|done]. rewrite decide_True by done.
  destruct (bulkJobs (storage w) !! jobId) as [job|]; [|done]. cbn.
  f_equal.
  destruct (length batch `min` length batchResults)%nat as [|m] eqn:Hm.
  - done.
  - change (spread_job (spread_job job (progress_update (i + j + 1)))
              (progress_update (i + S j + S m)) =
            spread_job job (progress_update (i + j + S (S m)))).
    rewrite spread_progress_twice. do 2 f_equal. lia.
Qed.

Lemma touches_only_collect_batch jobId total i j batch batchResults now results w :
  touches_only jobId w
    (snd (collect_batch jobId total i j batch batchResults now results w)).
Proof.
  revert j batchResults results w.
  induction batch as [|u batch IH]; intros j [|r batchResults] results w;
    try apply touches_only_refl.
  cbn [collect_batch].
  eapply touches_only_trans; [|apply IH].
  intros other Hne. cbn [storage runners renaming emit].
  by apply touches_only_update_job.
Qed.

(* processUrl stores one per-URL result and changes no job. *)
Lemma processUrl_jobs url jobId o uuid now st :
  bulkJobs (snd (processUrl url jobId o uuid now st)) = bulkJobs st.
Proof. by destruct o. Qed.

Lemma processUrl_fulfilled_url u jobId o uuid now st value :
  fst (processUrl u jobId o uuid now st) = Fulfilled value -> url value = u.
Proof. destruct o; simpl; [|done..]. by intros [= <-]. Qed.

Lemma all_settled_length proms batchResults :
  all_settled proms = Some batchResults -> length batchResults = length proms.
Proof.
  unfold all_settled. intros H. by apply length_mapM in H.
Qed.


(* The batch that starts at [i]. *)
Definition batch_of (urls : list string) (i : nat) : list string :=
  Js.slice i (i + maxConcurrentUrls) urls.

Lemma batch_of_take urls i : batch_of urls i = take maxConcurrentUrls (drop i urls).
Proof. unfold batch_of, Js.slice. f_equal. lia. Qed.

Lemma batch_of_lookup urls i j :
  (j < maxConcurrentUrls)%nat -> batch_of urls i !! j = urls !! (i + j)%nat.
Proof. intros Hj. by rewrite batch_of_take, lookup_take_lt, lookup_drop. Qed.

Lemma batch_of_length urls i :
  length (batch_of urls i) = (maxConcurrentUrls `min` (length urls - i))%nat.
Proof. by rewrite batch_of_take, length_take, length_drop. Qed.

(* What the settling of one race does, when it does anything. *)
Lemma url_settles_inv jobId n o uuid now w :
  url_settles jobId n o uuid now w = w \/
  exists urls i results proms u,
    runners w !! jobId = Some (AwaitBatch urls i results proms) /\
    (i <= n)%nat /\ proms !! (n - i)%nat = Some None /\
    batch_of urls i !! (n - i)%nat = Some u /\
    let settled := fst (processUrl u jobId o uuid now (storage w)) in
    let w1 := set_storage (snd (processUrl u jobId o uuid now (storage w))) w in
    let proms' := <[(n - i)%nat := Some settled]> proms in
    match all_settled proms' with
    | Some batchResults =>
        url_settles jobId n o uuid now w =
          loop_head jobId urls (i + maxConcurrentUrls)
            (fst (collect_batch jobId (length urls) i 0 (batch_of urls i)
                    batchResults now results w1))
            (snd (collect_batch jobId (length urls) i 0 (batch_of urls i)
                    batchResults now results w1))
    | None =>
        url_settles jobId n o uuid now w =
          set_runners (<[jobId := AwaitBatch urls i results proms']> (runners w)) w1
    end.
Proof.
  unfold url_settles, batch_of.
  destruct (runners w !! jobId) as [[| urls i results proms |]|] eqn:Hr;
    try by left.
  destruct (bool_decide (i <= n)%nat) eqn:Hle; [|by left].
  apply bool_decide_eq_true in Hle.
  destruct (proms !! (n - i)%nat) as [[|]|] eqn:Hp; try by left.
  destruct (Js.slice i (i + maxConcurrentUrls) urls !! (n - i)%nat)
    as [u|] eqn:Hu; [|by left].
  right. exists urls, i, results, proms, u.
  split; [done|]. split; [done|]. split; [done|]. split; [done|].
  cbv zeta. destruct (processUrl u jobId o uuid now (storage w)) as [settled st].
  cbn [fst snd].
  destruct (all_settled _) as [batchResults|]; [|done].
  by destruct (collect_batch _ _ _ _ _ _ _ _ _).
Qed.

Lemma touches_only_set_storage jobId st w :
  bulkJobs st = bulkJobs (storage w) -> touches_only jobId w (set_storage st w).
Proof. intros H other _. simpl. by rewrite H. Qed.

Lemma touches_only_url_settles jobId n o uuid now w :
  touches_only jobId w (url_settles jobId n o uuid now w).
Proof.
  destruct (url_settles_inv jobId n o uuid now w)
    as [->|(urls & i & results & proms & u & Hr & Hle & Hp & Hu & H)];
    [apply touches_only_refl|].
  cbv zeta in H.
  assert (touches_only jobId w
            (set_storage (snd (processUrl u jobId o uuid now (storage w))) w))
    as H1 by (apply touches_only_set_storage, processUrl_jobs).
  destruct (all_settled _) as [batchResults|] eqn:Hall; rewrite H.
  - eapply touches_only_trans; [|apply touches_only_loop_head].
    eapply touches_only_trans; [exact H1|].
    apply touches_only_collect_batch.
  - intros other Hne. simpl. rewrite processUrl_jobs.
    by rewrite lookup_insert_ne.
Qed.


Lemma touches_only_parse_settles jobId now w :
  touches_only jobId w (parse_settles jobId now w).
Proof.
  unfold parse_settles.
  destruct (runners w !! jobId) as [[[f|]| |]|]; try apply touches_only_refl.
  destruct (parseCSVUrls f).
  - apply touches_only_job_fails.
  - apply touches_only_loop_head.
Qed.

Lemma touches_only_write_settles jobId err now w :
  touches_only jobId w (write_settles jobId err now w).
Proof.
  unfold write_settles.
  destruct (runners w !! jobId) as [[| |urls results]|];
    try apply touches_only_refl.
  destruct err as [e|]; [apply touches_only_job_fails|].
  intros other Hne. cbn [storage runners renaming emit set_runners
    set_processingJobs].
  rewrite update_job_lookup. case_decide; [done|].
  by rewrite lookup_delete_ne.
Qed.

Lemma touches_only_renamed jobId now w :
  touches_only jobId w (renamed jobId now w).
Proof.
  unfold renamed. destruct (renaming w !! jobId) as [f|];
    [|apply touches_only_refl].
  eapply touches_only_trans; [|apply touches_only_processJob].
  intros other Hne. simpl. by rewrite lookup_delete_ne.
Qed.

Lemma touches_only_upload sessionId originalname f uuid now w :
  touches_only uuid w (upload sessionId originalname f uuid now w).
Proof.
  unfold upload. destruct (negb _); [apply touches_only_refl|].
  case_decide; [apply touches_only_refl|].
  intros other Hne. simpl. by rewrite !lookup_insert_ne.
Qed.

Lemma delete_job_rest jobId sessionId w :
  runners (snd (delete_job jobId sessionId w)) = runners w /\
  renaming (snd (delete_job jobId sessionId w)) = renaming w /\
  processingJobs (snd (delete_job jobId sessionId w)) = processingJobs w /\
  bulkUrlResults (storage (snd (delete_job jobId sessionId w))) =
    bulkUrlResults (storage w).
Proof.
  unfold delete_job. destruct (getBulkJob jobId (storage w)) as [job|]; [|done].
  destruct (negb _); [done|].
  destruct (resultFilePath job), (bool_decide _ || bool_decide _);
    cbn [snd runners renaming processingJobs storage set_files];
    repeat split; try done; apply update_job_rest.
Qed.

Definition cancel_update : JobUpdates :=
  {| upd_id := None; upd_userSession := None; upd_filename := None;
     upd_totalUrls := None; upd_processedUrls := None;
     upd_status := Some failed; upd_createdAt := None;
     upd_completedAt := None; upd_resultFilePath := None |}.

(* The one change DELETE makes to the job store. *)
Lemma delete_job_lookup jobId sessionId w other :
  bulkJobs (storage (snd (delete_job jobId sessionId w))) !! other =
    match bulkJobs (storage w) !! jobId with
    | Some job =>
        if bool_decide (userSession job = sessionId)
           && (bool_decide (job_status job = pending)
               || bool_decide (job_status job = processing))
           && bool_decide (other = jobId)
        then Some (spread_job job cancel_update)
        else bulkJobs (storage w) !! other
    | None => bulkJobs (storage w) !! other
    end.
Proof.
  unfold delete_job, getBulkJob.
  destruct (bulkJobs (storage w) !! jobId) as [job|] eqn:Hjob; [|done].
  destruct (bool_decide (userSession job = sessionId)); [|done].
  cbn [negb andb].
  destruct (bool_decide _ || bool_decide _); cbn [andb].
  - assert (bulkJobs (storage (update_job jobId cancel_update w)) !! other =
            if bool_decide (other = jobId) then Some (spread_job job cancel_update)
            else bulkJobs (storage w) !! other) as Hu.
    { rewrite update_job_lookup, Hjob. case_decide as Ho.
      - by rewrite bool_decide_eq_true_2.
      - by rewrite bool_decide_eq_false_2. }
    by destruct (resultFilePath job).
  - by destruct (resultFilePath job).
Qed.

Lemma touches_only_delete_job jobId sessionId w :
  touches_only jobId w (snd (delete_job jobId sessionId w)).
Proof.
  intros other Hne.
  destruct (delete_job_rest jobId sessionId w) as (-> & -> & _).
  rewrite delete_job_lookup.
  destruct (bulkJobs (storage w) !! jobId) as [job|]; [|done].
  by rewrite (bool_decide_eq_false_2 (other = jobId)), andb_false_r.
Qed.

(* The job an event is about. *)
Definition event_job (e : Event) : string :=
  match e with
  | Upload _ _ _ uuid _ => uuid
  | Renamed jobId _ => jobId
  | ParseSettled jobId _ => jobId
  | UrlSettled jobId _ _ _ _ => jobId
  | WriteSettled jobId _ _ => jobId
  | Delete jobId _ => jobId
  end.

Lemma step_touches_only w e : touches_only (event_job e) w (step w e).
Proof.
  destruct e; simpl.
  - apply touches_only_upload.
  - apply touches_only_renamed.
  - apply touches_only_parse_settles.
  - apply touches_only_url_settles.
  - apply touches_only_write_settles.
  - apply touches_only_delete_job.
Qed.


(* The updates that the handlers hand to updateBulkJob. *)
Definition claim_update : JobUpdates :=
  {| upd_id := None; upd_userSession := None; upd_filename := None;
     upd_totalUrls := None; upd_processedUrls := Some 0%nat;
     upd_status := Some processing; upd_createdAt := None;
     upd_completedAt := None; upd_resultFilePath := None |}.

Definition fail_update (now : string) : JobUpdates :=
  {| upd_id := None; upd_userSession := None; upd_filename := None;
     upd_totalUrls := None; upd_processedUrls := None;
     upd_status := Some failed; upd_createdAt := None;
     upd_completedAt := Some now; upd_resultFilePath := None |}.

Definition complete_update (jobId now : string) : JobUpdates :=
  {| upd_id := None; upd_userSession := None; upd_filename := None;
     upd_totalUrls := None; upd_processedUrls := None;
     upd_status := Some completed; upd_createdAt := None;
     upd_completedAt := Some now;
     upd_resultFilePath := Some (resultPath jobId) |}.

(* processJob after one batch: the processed count it has stored. *)
Definition after_batch (job : BulkAnalysisJob) (i k : nat) : BulkAnalysisJob :=
  match k with
  | O => job
  | S _ => spread_job job (progress_update (i + k))
  end.

(* Every way in which one event acts on the job [jobId]: on its record, on
   its call of processJob and on its upload handler. The three indices
   behind the event are the record, the call and the handler afterwards. *)
Inductive job_change (w : World) (jobId : string) (job : BulkAnalysisJob)
    : Event -> BulkAnalysisJob -> option Runner -> option CsvFile -> Prop :=
  | jc_same e :
      job_change w jobId job e job (runners w !! jobId) (renaming w !! jobId)
  | jc_claim now f :
      renaming w !! jobId = Some f -> jobId ∉ processingJobs w ->
      job_change w jobId job (Renamed jobId now)
        (spread_job job claim_update) (Some (AwaitParse (Some f))) None
  | jc_guarded now f :
      renaming w !! jobId = Some f -> jobId ∈ processingJobs w ->
      job_change w jobId job (Renamed jobId now) job (runners w !! jobId) None
  | jc_parse_error now f err :
      runners w !! jobId = Some (AwaitParse (Some f)) ->
      parseCSVUrls f = inl err ->
      job_change w jobId job (ParseSettled jobId now)
        (spread_job job (fail_update now)) None (renaming w !! jobId)
  | jc_parsed now f urls :
      runners w !! jobId = Some (AwaitParse (Some f)) ->
      parseCSVUrls f = inr urls ->
      job_change w jobId job (ParseSettled jobId now)
        job (Some (next_wait urls 0 [])) (renaming w !! jobId)
  | jc_settled n o uuid now urls i results proms u :
      runners w !! jobId = Some (AwaitBatch urls i results proms) ->
      (i <= n)%nat -> proms !! (n - i)%nat = Some None ->
      batch_of urls i !! (n - i)%nat = Some u ->
      let settled := fst (processUrl u jobId o uuid now (storage w)) in
      all_settled (<[(n - i)%nat := Some settled]> proms) = None ->
      job_change w jobId job (UrlSettled jobId n o uuid now)
        job
        (Some (AwaitBatch urls i results (<[(n - i)%nat := Some settled]> proms)))
        (renaming w !! jobId)
  | jc_batch_done n o uuid now urls i results proms u batchResults :
      runners w !! jobId = Some (AwaitBatch urls i results proms) ->
      (i <= n)%nat -> proms !! (n - i)%nat = Some None ->
      batch_of urls i !! (n - i)%nat = Some u ->
      let settled := fst (processUrl u jobId o uuid now (storage w)) in
      all_settled (<[(n - i)%nat := Some settled]> proms) = Some batchResults ->
      job_change w jobId job (UrlSettled jobId n o uuid now)
        (after_batch job i (length (batch_of urls i) `min` length proms))
        (Some (next_wait urls (i + maxConcurrentUrls)
                 (results ++ zip_with (fun u r => row_of_settled u r now)
                               (batch_of urls i) batchResults)))
        (renaming w !! jobId)
  | jc_write_error now err urls results :
      runners w !! jobId = Some (AwaitWrite urls results) ->
      job_change w jobId job (WriteSettled jobId (Some err) now)
        (spread_job job (fail_update now)) None (renaming w !! jobId)
  | jc_complete now urls results :
      runners w !! jobId = Some (AwaitWrite urls results) ->
      job_change w jobId job (WriteSettled jobId None now)
        (spread_job job (complete_update jobId now)) None (renaming w !! jobId)
  | jc_cancel sessionId :
      job_status job = pending \/ job_status job = processing ->
      job_change w jobId job (Delete jobId sessionId)
        (spread_job job cancel_update) (runners w !! jobId) (renaming w !! jobId).

Lemma jc_same_eq w jobId job e r rn :
  runners w !! jobId = r -> renaming w !! jobId = rn ->
  job_change w jobId job e job r rn.
Proof. intros <- <-. constructor. Qed.

Lemma step_job w e jobId job :
  bulkJobs (storage w) !! jobId = Some job ->
  exists job',
    bulkJobs (storage (step w e)) !! jobId = Some job' /\
    job_change w jobId job e job'
      (runners (step w e) !! jobId) (renaming (step w e) !! jobId).
Proof.
  intros Hjob.
  destruct (decide (jobId = event_job e)) as [->|Hne]; last first.
  { exists job.
    destruct (step_touches_only w e jobId Hne) as (-> & -> & ->).
    split; [done|constructor]. }
  destruct e as [s orig f u t|j t|j t|j n o u t|j err t|j s]; simpl in *.
  - (* Upload: the identifier is taken *)
    exists job. unfold upload.
    destruct (negb _); [split; [done|constructor]|].
    rewrite decide_True; [split; [done|constructor]|].
    by apply elem_of_dom_2 in Hjob.
  - (* Renamed *)
    unfold renamed. destruct (renaming w !! j) as [f|] eqn:Hf;
      [|exists job; split; [done|by apply jc_same_eq]].
    unfold processJob. cbn [processingJobs set_files set_renaming].
    case_decide as Hin.
    { exists job. cbn [storage runners renaming set_files set_renaming].
      rewrite lookup_delete_eq. split; [done|]. by econstructor. }
    cbv zeta. cbn [storage emit set_processingJobs set_files set_renaming].
    unfold getBulkJob. rewrite Hjob.
    exists (spread_job job claim_update).
    cbn [storage runners renaming set_runners files set_files set_renaming
         emit set_processingJobs].
    rewrite update_job_lookup, decide_True by done.
    cbn [storage set_files set_renaming emit set_processingJobs].
    rewrite Hjob, !lookup_insert_eq.
    split; [done|].
    destruct (update_job_rest j claim_update
      (emit (job_started j) (set_processingJobs ({[j]} ∪ processingJobs w)
         (set_files (<[uploadPath j:=Uploaded f]> (files w))
            (set_renaming (delete j (renaming w)) w)))))
      as (_ & _ & _ & Hfiles & _ & Hren).
    unfold claim_update in Hfiles, Hren. rewrite Hfiles, Hren.
    cbn [files renaming emit set_processingJobs set_files set_renaming].
    rewrite lookup_insert_eq, lookup_delete_eq. by econstructor.
  - (* ParseSettled *)
    unfold parse_settles.
    destruct (runners w !! j) as [[[f|]| |]|] eqn:Hr;
      try (exists job; split; [done|by apply jc_same_eq]).
    destruct (parseCSVUrls f) as [err|urls] eqn:Hparse.
    + exists (spread_job job (fail_update t)).
      rewrite job_fails_lookup, decide_True, Hjob by done.
      rewrite job_fails_runners, job_fails_renaming, lookup_delete_eq.
      split; [done|]. by econstructor.
    + exists job. rewrite loop_head_runners, lookup_insert_eq.
      destruct (loop_head_rest j urls 0 [] w) as (-> & _ & _ & _ & ->).
      split; [done|]. by econstructor.
  - (* UrlSettled *)
    destruct (url_settles_inv j n o u t w)
      as [->|(urls & i & results & proms & url & Hr & Hle & Hp & Hu & H)];
      [exists job; split; [done|constructor]|].
    cbv zeta in H.
    destruct (all_settled _) as [batchResults|] eqn:Hall; rewrite H.
    + rewrite loop_head_runners, lookup_insert_eq.
      match goal with
      | |- context [loop_head ?a ?b ?c ?d ?e] =>
          destruct (loop_head_rest a b c d e) as (-> & _ & _ & _ & ->)
      end.
      rewrite collect_batch_lookup, decide_True by done.
      rewrite collect_batch_results.
      match goal with
      | |- context [renaming (snd (collect_batch ?a ?b ?c ?d ?e ?f ?g ?h ?k))] =>
          destruct (collect_batch_rest a b c d e f g h k) as (_ & _ & _ & _ & ->)
      end.
      cbn [storage renaming set_storage]. rewrite processUrl_jobs, Hjob.
      pose proof (all_settled_length _ _ Hall) as Hlen.
      rewrite length_insert in Hlen. rewrite Hlen.
      eexists. split; [done|].
      rewrite Nat.add_0_r.
      by eapply jc_batch_done.
    + exists job. cbn [storage runners renaming set_runners set_storage].
      rewrite processUrl_jobs, lookup_insert_eq. split; [done|].
      by econstructor.
  - (* WriteSettled *)
    unfold write_settles.
    destruct (runners w !! j) as [[| |urls results]|] eqn:Hr;
      try (exists job; split; [done|by apply jc_same_eq]).
    destruct err as [e|].
    + exists (spread_job job (fail_update t)).
      rewrite job_fails_lookup, decide_True, Hjob by done.
      rewrite job_fails_runners, job_fails_renaming, lookup_delete_eq.
      split; [done|]. by econstructor.
    + exists (spread_job job (complete_update j t)).
      cbn [storage runners renaming set_runners set_processingJobs emit].
      rewrite update_job_lookup, decide_True by done.
      cbn [storage set_files]. rewrite Hjob, lookup_delete_eq.
      split; [done|].
      match goal with
      | |- context [renaming (update_job ?a ?b ?c)] =>
          change (renaming (update_job a b c)) with (renaming w)
      end.
      by econstructor.
  - (* Delete *)
    destruct (delete_job_rest j s w) as (-> & -> & _).
    rewrite delete_job_lookup, Hjob.
    rewrite (bool_decide_eq_true_2 (j = j)), andb_true_r by done.
    destruct (bool_decide (userSession job = s)); cbn [andb];
      [|exists job; split; [done|constructor]].
    destruct (bool_decide (job_status job = pending)) eqn:E1.
    { apply bool_decide_eq_true in E1. eexists. split; [done|].
      constructor. by left. }
    destruct (bool_decide (job_status job = processing)) eqn:E2.
    { apply bool_decide_eq_true in E2. eexists. split; [done|].
      constructor. by right. }
    exists job. split; [done|constructor].
Qed.


Lemma validate_valid (f : CsvFile) :
  valid (validateCSVFile (inr f)) = true ->
  exists urls, parseCSVUrls f = inr urls /\
    urlCount (validateCSVFile (inr f)) = Some (length urls) /\
    (1 <= length urls <= 1000)%nat.
Proof.
  unfold validateCSVFile. destruct (maxSizeBytes <? file_size f); [done|].
  destruct (parseCSVUrls f) as [err|urls]; [done|].
  destruct (length urls =? 0)%nat eqn:E0; [done|].
  destruct (1000 <? length urls)%nat eqn:E1; [done|].
  intros _. exists urls. split; [done|]. split; [done|].
  apply Nat.eqb_neq in E0. apply Nat.ltb_ge in E1. lia.
Qed.

(* An event about a job that does not exist does nothing, unless it is
   the upload that creates the job. *)
Lemma step_fresh w e jobId :
  bulkJobs (storage w) !! jobId = None ->
  runners w !! jobId = None -> renaming w !! jobId = None ->
  (bulkJobs (storage (step w e)) !! jobId = None /\
   runners (step w e) !! jobId = None /\
   renaming (step w e) !! jobId = None) \/
  (exists sessionId originalname f now urls,
     e = Upload sessionId originalname f jobId now /\
     parseCSVUrls f = inr urls /\ (1 <= length urls <= 1000)%nat /\
     bulkJobs (storage (step w e)) !! jobId =
       Some {| job_id := jobId; userSession := sessionId;
               filename := originalname; totalUrls := length urls;
               processedUrls := 0; job_status := pending; createdAt := now;
               completedAt := None; resultFilePath := None |} /\
     runners (step w e) !! jobId = None /\
     renaming (step w e) !! jobId = Some f).
Proof.
  intros Hjob Hrun Hren.
  destruct (decide (jobId = event_job e)) as [->|Hne]; last first.
  { left. by destruct (step_touches_only w e jobId Hne) as (-> & -> & ->). }
  destruct e as [s orig f u t|j t|j t|j n o u t|j err t|j s]; simpl in *.
  - unfold upload.
    destruct (valid (validateCSVFile (inr f))) eqn:Hvalid; cbn [negb];
      [|by left].
    destruct (validate_valid f Hvalid) as (urls & Hparse & Hcount & Hbounds).
    rewrite decide_False by (by apply not_elem_of_dom). right.
    exists s, orig, f, t, urls. split; [done|]. split; [done|]. split; [done|].
    rewrite Hcount. cbn. by rewrite !lookup_insert_eq.
  - left. unfold renamed. by rewrite Hren.
  - left. unfold parse_settles. by rewrite Hrun.
  - left. unfold url_settles. by rewrite Hrun.
  - left. unfold write_settles. by rewrite Hrun.
  - left. destruct (delete_job_rest j s w) as (-> & -> & _).
    by rewrite delete_job_lookup, Hjob.
Qed.

(* Calls and upload handlers exist only for jobs of the store. *)
Definition has_jobs w : Prop :=
  forall jobId, bulkJobs (storage w) !! jobId = None ->
    runners w !! jobId = None /\ renaming w !! jobId = None.

Lemma has_jobs_step w e : has_jobs w -> has_jobs (step w e).
Proof.
  intros H jobId Hnone.
  destruct (bulkJobs (storage w) !! jobId) as [job|] eqn:Hjob.
  { destruct (step_job w e jobId job Hjob) as (job' & Hjob' & _). congruence. }
  destruct (H jobId Hjob) as [Hrun Hren].
  destruct (step_fresh w e jobId Hjob Hrun Hren)
    as [(_ & ? & ?)|(? & ? & ? & ? & ? & _ & _ & _ & Hnew & _)]; [done|].
  congruence.
Qed.

Lemma has_jobs_run evs : has_jobs (run evs init).
Proof.
  induction evs as [|e evs IH] using rev_ind; [done|].
  rewrite run_snoc. by apply has_jobs_step.
Qed.

Lemma all_settled_Some proms batchResults :
  all_settled proms = Some batchResults <-> proms = Some <$> batchResults.
Proof.
  unfold all_settled. rewrite mapM_Some. split.
  - induction 1 as [|p r proms rs Hp _ IH]; [done|].
    simpl in Hp. by rewrite Hp, IH.
  - intros ->. induction batchResults; constructor; done.
Qed.

Lemma all_settled_None proms :
  all_settled proms = None <-> exists j, proms !! j = Some None.
Proof.
  unfold all_settled. rewrite mapM_None, Exists_exists. split.
  - intros (p & Hin & Hp). simpl in Hp. subst p.
    by apply list_elem_of_lookup in Hin.
  - intros (j & Hj). exists None. split; [|done].
    by eapply list_elem_of_lookup_2.
Qed.


(* The invariant of one job. [U] is the list of URLs of its upload and
   [Q n s] is what is known of the settled promise [s] of the [n]-th URL. *)
Section JobInvariant.

Variable jobId : string.
Variable U : list string.
Variable Q : nat -> Settled -> Prop.

Definition settled_ok (n : nat) (s : Settled) : Prop :=
  Q n s /\ forall u value, U !! n = Some u -> s = Fulfilled value -> url value = u.

Definition row_ok (n : nat) (row : BulkAnalysisResult) : Prop :=
  exists u s now, U !! n = Some u /\ settled_ok n s /\ row = row_of_settled u s now.

Definition rows_ok (results : list BulkAnalysisResult) : Prop :=
  forall k row, results !! k = Some row -> row_ok k row.

Definition runner_inv (r : Runner) : Prop :=
  match r with
  | AwaitParse (Some f) => parseCSVUrls f = inr U
  | AwaitParse None => True
  | AwaitBatch urls i results proms =>
      urls = U /\ (i < length U)%nat /\ length results = i /\ rows_ok results /\
      length proms = length (batch_of U i) /\ all_settled proms = None /\
      forall j s, proms !! j = Some (Some s) -> settled_ok (i + j) s
  | AwaitWrite urls results =>
      urls = U /\ length results = length U /\ rows_ok results
  end.

Definition job_inv (w : World) : Prop :=
  (exists job, bulkJobs (storage w) !! jobId = Some job /\
     totalUrls job = length U /\ (processedUrls job <= length U)%nat) /\
  (forall f, renaming w !! jobId = Some f -> parseCSVUrls f = inr U) /\
  (forall r, runners w !! jobId = Some r -> runner_inv r).

(* The outcomes that the events deliver for this job agree with [Q]. *)
Definition respects (e : Event) : Prop :=
  match e with
  | UrlSettled j n o uuid now =>
      j = jobId -> forall u st, U !! n = Some u ->
        Q n (fst (processUrl u jobId o uuid now st))
  | _ => True
  end.

Lemma row_ok_url n row u : row_ok n row -> U !! n = Some u -> url row = u.
Proof.
  intros (u' & s & now & Hu' & [_ Hs] & ->) Hu.
  assert (u' = u) as -> by congruence.
  destruct s as [value|reason]; simpl; [|done]. by apply Hs.
Qed.

Lemma rows_ok_urls results :
  rows_ok results -> (length results <= length U)%nat ->
  map url results = take (length results) U.
Proof.
  intros Hrows Hlen. apply list_eq. intros k.
  rewrite list_lookup_fmap.
  destruct (results !! k) as [row|] eqn:Hrow; simpl.
  - pose proof (lookup_lt_Some _ _ _ Hrow) as Hk.
    rewrite lookup_take_lt by done.
    destruct (lookup_lt_is_Some_2 U k) as [u Hu]; [lia|].
    by rewrite Hu, (row_ok_url k row u (Hrows k row Hrow) Hu).
  - apply lookup_ge_None in Hrow. by rewrite lookup_take_ge.
Qed.

Lemma batch_length_pos i :
  (i < length U)%nat -> (0 < length (batch_of U i) <= maxConcurrentUrls)%nat.
Proof. intros Hi. rewrite batch_of_length. unfold maxConcurrentUrls. lia. Qed.

Lemma next_wait_inv i results :
  rows_ok results -> length results = (i `min` length U)%nat ->
  runner_inv (next_wait U i results).
Proof.
  intros Hrows Hlen. unfold next_wait.
  destruct (i <? length U)%nat eqn:Hi.
  - apply Nat.ltb_lt in Hi. cbv zeta. fold (batch_of U i).
    split; [done|]. split; [done|]. split; [lia|]. split; [done|].
    split; [by rewrite length_replicate|]. split.
    + apply all_settled_None. exists 0%nat.
      apply lookup_replicate_2. pose proof (batch_length_pos i Hi). lia.
    + intros j s Hj. apply lookup_replicate in Hj. by destruct Hj.
  - apply Nat.ltb_ge in Hi. split; [done|]. split; [lia|done].
Qed.

Ltac job_ok :=
  eexists; split; [reflexivity|]; simpl; split; [assumption|lia].

Lemma job_inv_step w e : job_inv w -> respects e -> job_inv (step w e).
Proof.
  intros ((job & Hjob & Htotal & Hproc) & Hren & Hrun) Hresp.
  destruct (step_job w e jobId job Hjob) as (job' & Hjob' & Hchange).
  unfold job_inv. rewrite Hjob'.
  destruct Hchange.
  - (* nothing happens to this job *)
    split; [job_ok|]. done.
  - (* the runner claims the job *)
    split; [job_ok|]. split; [done|].
    intros r [= <-]. simpl. by apply Hren.
  - (* the guard holds the second call back *)
    split; [job_ok|]. done.
  - split; [job_ok|]. done.
  - (* the URLs are parsed *)
    split; [job_ok|]. split; [done|].
    intros r [= <-].
    match goal with
    | Hr : runners w !! jobId = Some _, Hp : parseCSVUrls _ = inr _ |- _ =>
        pose proof (Hrun _ Hr) as Hf; simpl in Hf; rewrite Hf in Hp;
        injection Hp as <-
    end.
    apply next_wait_inv; [by intros k row|]. simpl. lia.
  - (* one promise of the batch settles *)
    split; [job_ok|]. split; [done|].
    intros r [= <-].
    match goal with
    | Hr : runners w !! jobId = Some _ |- _ =>
        destruct (Hrun _ Hr) as (-> & Hi & Hlen & Hrows & Hpl & _ & Hps)
    end.
    split; [done|]. split; [done|]. split; [done|]. split; [done|].
    split; [by rewrite length_insert|]. split; [done|].
    intros j s Hj.
    destruct (decide (j = (n - i)%nat)) as [->|Hne].
    + rewrite list_lookup_insert_eq in Hj by (by eapply lookup_lt_Some).
      injection Hj as <-.
      replace (i + (n - i))%nat with n by lia.
      assert (U !! n = Some u) as Hu.
      { match goal with
        | Hb : batch_of U i !! _ = Some u |- _ =>
            rewrite batch_of_lookup in Hb;
            [by replace (i + (n - i))%nat with n in Hb by lia|];
            apply lookup_lt_Some in Hb; pose proof (batch_length_pos i Hi); lia
        end. }
      split.
      * by apply (Hresp eq_refl).
      * intros u' value Hu' Hs. assert (u' = u) as -> by congruence.
        by eapply processUrl_fulfilled_url.
    + rewrite list_lookup_insert_ne in Hj by done. by apply Hps.
  - (* the last promise of the batch settles *)
    match goal with
    | Hr : runners w !! jobId = Some _ |- _ =>
        destruct (Hrun _ Hr) as (-> & Hi & Hlen & Hrows & Hpl & _ & Hps)
    end.
    pose proof (batch_length_pos i Hi) as Hb.
    pose proof (batch_of_length U i) as Hbl.
    rewrite Hpl, Nat.min_id.
    split.
    { eexists. split; [done|]. unfold after_batch.
      destruct (length (batch_of U i)) as [|m] eqn:Hm; [lia|].
      simpl. split; [done|]. unfold maxConcurrentUrls in *. lia. }
    split; [done|]. intros r [= <-].
    match goal with
    | Ha : all_settled _ = Some _ |- _ =>
        apply all_settled_Some in Ha; rename Ha into Hall
    end.
    assert (length batchResults = length (batch_of U i)) as Hbr.
    { rewrite <- Hpl, <- (length_insert proms (n - i) (Some settled)), Hall.
      by rewrite length_fmap. }
    apply next_wait_inv.
    + intros k row Hk.
      destruct (decide (k < length results)%nat) as [Hlt|Hge].
      { rewrite lookup_app_l in Hk by done. by apply Hrows. }
      rewrite lookup_app_r in Hk by lia.
      assert (exists j, k = (i + j)%nat) as [j ->] by (exists (k - i)%nat; lia).
      replace (i + j - length results)%nat with j in Hk by lia.
      apply lookup_zip_with_Some in Hk as (u' & s & -> & Hu' & Hs).
      exists u', s, now.
      assert (j < maxConcurrentUrls)%nat as Hj
        by (apply lookup_lt_Some in Hu'; lia).
      rewrite batch_of_lookup in Hu' by done.
      split; [done|]. split; [|done].
      assert (<[(n - i)%nat:=Some settled]> proms !! j = Some (Some s)) as Hpj
        by (by rewrite Hall, list_lookup_fmap, Hs).
      destruct (decide (j = (n - i)%nat)) as [Hjn|Hne].
      * rewrite Hjn in Hpj.
        rewrite list_lookup_insert_eq in Hpj by (by eapply lookup_lt_Some).
        injection Hpj as <-.
        assert (U !! n = Some u) as Hu.
        { match goal with
          | Hbu : batch_of U i !! _ = Some u |- _ =>
              rewrite batch_of_lookup in Hbu;
              [by replace (i + (n - i))%nat with n in Hbu by lia|lia]
          end. }
        replace (i + j)%nat with n by lia. split.
        -- by apply (Hresp eq_refl).
        -- intros u'' value Hu'' Hsv. assert (u'' = u) as -> by congruence.
           by eapply processUrl_fulfilled_url.
      * rewrite list_lookup_insert_ne in Hpj by done. by apply Hps.
    + rewrite length_app, length_zip_with, Hbr, Nat.min_id, Hlen, Hbl.
      unfold maxConcurrentUrls. lia.
  - split; [job_ok|]. done.
  - split; [job_ok|]. done.
  - split; [job_ok|]. done.
Qed.

Lemma job_inv_run w evs :
  job_inv w -> Forall respects evs -> job_inv (run evs w).
Proof.
  intros Hw Hevs. revert Hw.
  induction evs as [|e evs IH] using rev_ind; [done|].
  apply Forall_app in Hevs as [Hevs He]. rewrite Forall_singleton in He.
  intros Hw. rewrite run_snoc. apply job_inv_step; [by apply IH|done].
Qed.

End JobInvariant.


Definition anything (n : nat) (s : Settled) : Prop := True.

Lemma respects_anything jobId U e : respects jobId U anything e.
Proof. by destruct e. Qed.

(* The upload that creates a job establishes its invariant. *)
Lemma job_inv_created Q w jobId sessionId originalname f now urls :
  let w' := step w (Upload sessionId originalname f jobId now) in
  parseCSVUrls f = inr urls ->
  bulkJobs (storage w') !! jobId =
    Some {| job_id := jobId; userSession := sessionId;
            filename := originalname; totalUrls := length urls;
            processedUrls := 0; job_status := pending; createdAt := now;
            completedAt := None; resultFilePath := None |} ->
  runners w' !! jobId = None -> renaming w' !! jobId = Some f ->
  job_inv jobId urls Q w'.
Proof.
  intros w' Hparse Hjob Hrun Hren. unfold job_inv.
  rewrite Hjob, Hrun, Hren. split.
  - eexists. split; [done|]. simpl. split; [done|lia].
  - split; [by intros f' [= <-]|done].
Qed.

(* Every job of the store has a list of URLs for which its invariant
   holds. *)
Definition jobs_inv w : Prop :=
  forall jobId, is_Some (bulkJobs (storage w) !! jobId) ->
    exists U, job_inv jobId U anything w.

Lemma jobs_inv_step w e : has_jobs w -> jobs_inv w -> jobs_inv (step w e).
Proof.
  intros Hhas Hinv jobId Hsome.
  destruct (bulkJobs (storage w) !! jobId) as [job|] eqn:Hjob.
  - destruct (Hinv jobId) as [U HU]; [by rewrite Hjob|].
    exists U. apply job_inv_step; [done|apply respects_anything].
  - destruct (Hhas jobId Hjob) as [Hrun Hren].
    destruct (step_fresh w e jobId Hjob Hrun Hren)
      as [(Hnone & _)|(s & orig & f & now & urls & -> & Hparse & _ & Hnew & Hr & Hn)].
    + rewrite Hnone in Hsome. by destruct Hsome.
    + exists urls. by eapply job_inv_created.
Qed.

Lemma jobs_inv_run evs : jobs_inv (run evs init).
Proof.
  induction evs as [|e evs IH] using rev_ind.
  - intros jobId [job Hjob]. done.
  - rewrite run_snoc. apply jobs_inv_step; [apply has_jobs_run|done].
Qed.

(* The order of the statuses that the specification allows. *)
Definition status_step_ok (a b : JobStatus) : Prop :=
  a = b \/ (a = pending /\ b = processing) \/
  (a = processing /\ (b = completed \/ b = failed)).

Global Instance status_step_ok_dec a b : Decision (status_step_ok a b).
Proof. unfold status_step_ok. apply _. Defined.

(* [e] is a DELETE request for the job. *)
Definition deletes (jobId : string) (e : Event) : bool :=
  match e with
  | Delete j _ => bool_decide (j = jobId)
  | _ => false
  end.

(* Where the call and the upload handler of a job are, by its status, as
   long as no DELETE request has hit the job. *)
Definition phase_ok (job : BulkAnalysisJob) (r : option Runner)
    (rn : option CsvFile) : Prop :=
  match job_status job with
  | pending => r = None
  | processing => is_Some r /\ rn = None
  | _ => r = None /\ rn = None
  end.

Lemma phase_step w e jobId job job' r' rn' :
  guard_inv w ->
  phase_ok job (runners w !! jobId) (renaming w !! jobId) ->
  deletes jobId e = false ->
  job_change w jobId job e job' r' rn' ->
  phase_ok job' r' rn' /\ status_step_ok (job_status job) (job_status job').
Proof.
  intros Hguard Hphase Hdel Hchange. unfold phase_ok in *.
  destruct Hchange as [e| now f Hf Hin | now f Hf Hin | now f err Hr Hp
    | now f urls Hr Hp | n o uuid now urls i results proms u Hr Hle Hpn Hu settled Hall
    | n o uuid now urls i results proms u brs Hr Hle Hpn Hu settled Hall
    | now err urls results Hr | now urls results Hr | sessionId Hst ].
  - split; [done|by left].
  - rewrite Hf in Hphase.
    destruct (job_status job) eqn:Hs; simpl.
    + split; [done|]. right. by left.
    + by first [discriminate Hphase | destruct Hphase].
    + by first [discriminate Hphase | destruct Hphase].
    + by first [discriminate Hphase | destruct Hphase].
  - exfalso. rewrite Hguard in Hin. apply elem_of_dom in Hin as [r Hr].
    rewrite Hr, Hf in Hphase.
    destruct (job_status job); by first [discriminate Hphase | destruct Hphase].
  - rewrite Hr in Hphase. destruct (job_status job) eqn:Hs; simpl;
      try (by first [discriminate Hphase | destruct Hphase]).
    destruct Hphase as [_ ->]. split; [done|]. right. right. by split; [|right].
  - rewrite Hr in Hphase. destruct (job_status job) eqn:Hs; simpl;
      try (by first [discriminate Hphase | destruct Hphase]).
    destruct Hphase as [_ ->]. split; [done|by left].
  - rewrite Hr in Hphase. destruct (job_status job) eqn:Hs; simpl;
      try (by first [discriminate Hphase | destruct Hphase]).
    destruct Hphase as [_ ->]. split; [done|by left].
  - rewrite Hr in Hphase.
    assert (job_status (after_batch job i
              (length (batch_of urls i) `min` length proms)) = job_status job)
      as Hsame by (unfold after_batch; by destruct (_ `min` _)%nat).
    rewrite Hsame.
    destruct (job_status job) eqn:Hs; simpl; try (by first [discriminate Hphase | destruct Hphase]).
    destruct Hphase as [_ ->]. split; [done|by left].
  - rewrite Hr in Hphase. destruct (job_status job) eqn:Hs; simpl;
      try (by first [discriminate Hphase | destruct Hphase]).
    destruct Hphase as [_ ->]. split; [done|]. right. right. by split; [|right].
  - rewrite Hr in Hphase. destruct (job_status job) eqn:Hs; simpl;
      try (by first [discriminate Hphase | destruct Hphase]).
    destruct Hphase as [_ ->]. split; [done|]. right. right. by split; [|left].
  - simpl in Hdel. by rewrite bool_decide_eq_true_2 in Hdel.
Qed.

Definition phase_inv (jobId : string) w : Prop :=
  forall job, bulkJobs (storage w) !! jobId = Some job ->
    phase_ok job (runners w !! jobId) (renaming w !! jobId).

Lemma phase_inv_step w e jobId :
  guard_inv w -> has_jobs w -> phase_inv jobId w -> deletes jobId e = false ->
  phase_inv jobId (step w e) /\
  forall job job', bulkJobs (storage w) !! jobId = Some job ->
    bulkJobs (storage (step w e)) !! jobId = Some job' ->
    status_step_ok (job_status job) (job_status job').
Proof.
  intros Hguard Hhas Hphase Hdel.
  destruct (bulkJobs (storage w) !! jobId) as [job|] eqn:Hjob.
  - destruct (step_job w e jobId job Hjob) as (job' & Hjob' & Hchange).
    destruct (phase_step w e jobId job job' _ _ Hguard (Hphase job Hjob)
                Hdel Hchange) as [Hp Hs].
    split.
    + intros job'' Hjob''. by assert (job'' = job') as -> by congruence.
    + intros ? job'' [= <-] Hjob''. by assert (job'' = job') as -> by congruence.
  - split; [|done].
    destruct (Hhas jobId Hjob) as [Hrun Hren].
    destruct (step_fresh w e jobId Hjob Hrun Hren)
      as [(Hnone & _)|(s & orig & f & now & urls & -> & _ & _ & Hnew & Hr & Hn)].
    + intros job'. by rewrite Hnone.
    + intros job' Hjob'. rewrite Hnew in Hjob'. injection Hjob' as <-.
      unfold phase_ok. simpl. done.
Qed.

Lemma phase_inv_run evs jobId :
  Forall (fun e => deletes jobId e = false) evs ->
  phase_inv jobId (run evs init).
Proof.
  induction evs as [|e evs IH] using rev_ind; [done|].
  intros Hevs. apply Forall_app in Hevs as [Hevs He].
  rewrite Forall_singleton in He. rewrite run_snoc.
  apply phase_inv_step; [apply guard_inv_run|apply has_jobs_run|by apply IH|done].
Qed.


(* A job of one URL, followed from its upload on. *)
Definition one_url_file : CsvFile :=
  {| file_size := 24; parsed := inr [[("url", "https://example.com")]] |}.

Definition scenario_start : list Event :=
  [ Upload "10.0.0.1-agent" "sites.csv" one_url_file "job-1" "2024-01-01T00:00:00.000Z";
    Renamed "job-1" "2024-01-01T00:00:01.000Z";
    ParseSettled "job-1" "2024-01-01T00:00:02.000Z" ].

Definition scenario_settle : Event :=
  UrlSettled "job-1" 0 (Threw (JsError "connect ECONNREFUSED")) "result-1"
    "2024-01-01T00:00:03.000Z".

Definition scenario_write : Event :=
  WriteSettled "job-1" None "2024-01-01T00:00:04.000Z".

Lemma after_batch_fields job i k :
  job_status (after_batch job i k) = job_status job /\
  totalUrls (after_batch job i k) = totalUrls job.
Proof. by destruct k. Qed.

(** C2 (as the code has it): in every execution the processed count of
    every job stays within its total URL count; as long as no DELETE
    request has hit a job, every event moves its status only along
    Pending, Processing, then Completed or Failed; and a DELETE request
    changes neither count and moves a Pending or Processing job to Failed,
    leaving a Completed or Failed job as it is. *)
Theorem job_record_invariants :
  (forall evs jobId job,
     bulkJobs (storage (run evs init)) !! jobId = Some job ->
     (processedUrls job <= totalUrls job)%nat) /\
  (forall evs e jobId job job',
     Forall (fun e => deletes jobId e = false) (evs ++ [e]) ->
     bulkJobs (storage (run evs init)) !! jobId = Some job ->
     bulkJobs (storage (run (evs ++ [e]) init)) !! jobId = Some job' ->
     status_step_ok (job_status job) (job_status job')) /\
  (forall w jobId sessionId job job',
     bulkJobs (storage w) !! jobId = Some job ->
     bulkJobs (storage (step w (Delete jobId sessionId))) !! jobId = Some job' ->
     processedUrls job' = processedUrls job /\
     totalUrls job' = totalUrls job /\
     (job' = job \/
      ((job_status job = pending \/ job_status job = processing) /\
       job_status job' = failed))).
Proof.
  split; [|split].
  - intros evs jobId job Hjob.
    destruct (jobs_inv_run evs jobId) as (U & (job0 & Hjob0 & Ht & Hp) & _);
      [by rewrite Hjob|].
    assert (job0 = job) as -> by congruence. lia.
  - intros evs e jobId job job' Hdel Hjob Hjob'.
    apply Forall_app in Hdel as [Hevs He]. rewrite Forall_singleton in He.
    rewrite run_snoc in Hjob'.
    by eapply (phase_inv_step (run evs init) e jobId);
      [apply guard_inv_run|apply has_jobs_run|apply phase_inv_run|..].
  - intros w jobId sessionId job job' Hjob Hjob'.
    destruct (step_job w (Delete jobId sessionId) jobId job Hjob)
      as (job'' & Hjob'' & Hchange).
    assert (job'' = job') as -> by congruence.
    inversion Hchange; subst.
    + split; [done|]. split; [done|]. by left.
    + split; [done|]. split; [done|]. right. done.
Qed.

Lemma job_record_invariants_witness :
  let evs := scenario_start ++ [scenario_settle] in
  Forall (fun e => deletes "job-1" e = false) (evs ++ [scenario_write]) /\
  exists job job',
    bulkJobs (storage (run evs init)) !! "job-1" = Some job /\
    bulkJobs (storage (run (evs ++ [scenario_write]) init)) !! "job-1" = Some job' /\
    job_status job = processing /\ job_status job' = completed /\
    (processedUrls job' <= totalUrls job')%nat /\
    status_step_ok (job_status job) (job_status job').
Proof.
  cbv zeta.
  assert (Hdel : Forall (fun e => deletes "job-1" e = false)
                   ((scenario_start ++ [scenario_settle]) ++ [scenario_write]))
    by (repeat constructor).
  split; [exact Hdel|].
  eexists _, _.
  assert (Hjob : bulkJobs (storage (run (scenario_start ++ [scenario_settle]) init))
                   !! "job-1" =
                 Some {| job_id := "job-1"; userSession := "10.0.0.1-agent";
                         filename := "sites.csv"; totalUrls := 1;
                         processedUrls := 1; job_status := processing;
                         createdAt := "2024-01-01T00:00:00.000Z";
                         completedAt := None; resultFilePath := None |})
    by (vm_compute; reflexivity).
  assert (Hjob' : bulkJobs (storage
                    (run ((scenario_start ++ [scenario_settle]) ++ [scenario_write])
                       init)) !! "job-1" =
                 Some {| job_id := "job-1"; userSession := "10.0.0.1-agent";
                         filename := "sites.csv"; totalUrls := 1;
                         processedUrls := 1; job_status := completed;
                         createdAt := "2024-01-01T00:00:00.000Z";
                         completedAt := Some "2024-01-01T00:00:04.000Z";
                         resultFilePath := Some "results/job-1_results.csv" |})
    by (vm_compute; reflexivity).
  split; [exact Hjob|]. split; [exact Hjob'|].
  split; [reflexivity|]. split; [reflexivity|].
  split.
  - exact (proj1 job_record_invariants _ _ _ Hjob').
  - exact (proj1 (proj2 job_record_invariants) _ _ _ _ _ Hdel Hjob Hjob').
Defined.

(* The order of the statuses as the specification words it fails once a
   DELETE request meets a job that the runner has not finished. When the
   request arrives while the runner is in flight, it marks the job Failed,
   and the runner, which never reads the status, marks it Completed
   afterwards. When it arrives before the runner has claimed the job, the
   job goes from Pending straight to Failed, and the runner then claims
   it all the same: Failed goes back to Processing. *)
Lemma cancelled_job_is_completed :
  (let evs := scenario_start
              ++ [Delete "job-1" "10.0.0.1-agent"; scenario_settle] in
   exists job job',
     bulkJobs (storage (run evs init)) !! "job-1" = Some job /\
     bulkJobs (storage (step (run evs init) scenario_write)) !! "job-1"
       = Some job' /\
     job_status job = failed /\ job_status job' = completed /\
     ~ status_step_ok (job_status job) (job_status job')) /\
  (let evs := take 1 scenario_start ++ [Delete "job-1" "10.0.0.1-agent"] in
   exists job job' job'',
     bulkJobs (storage (run (take 1 scenario_start) init)) !! "job-1"
       = Some job /\
     bulkJobs (storage (run evs init)) !! "job-1" = Some job' /\
     bulkJobs (storage (step (run evs init)
                          (Renamed "job-1" "2024-01-01T00:00:01.000Z")))
       !! "job-1" = Some job'' /\
     job_status job = pending /\ job_status job' = failed /\
     job_status job'' = processing /\
     ~ status_step_ok (job_status job) (job_status job') /\
     ~ status_step_ok (job_status job') (job_status job'')).
Proof.
  split; cbv zeta.
  - eexists _, _.
    split; [vm_compute; reflexivity|]. split; [vm_compute; reflexivity|].
    split; [reflexivity|]. split; [reflexivity|].
    simpl. unfold status_step_ok. intros [H|[[H _]|[H _]]]; discriminate H.
  - eexists _, _, _.
    split; [vm_compute; reflexivity|]. split; [vm_compute; reflexivity|].
    split; [vm_compute; reflexivity|].
    split; [reflexivity|]. split; [reflexivity|]. split; [reflexivity|].
    simpl. unfold status_step_ok.
    split; intros [H|[[H H']|[H H']]]; try discriminate H;
      try discriminate H'; destruct H' as [H'|H']; discriminate H'.
Qed.

(** C7: a call of processJob for a job id that is in the set of processing
    jobs returns at once and changes nothing; in every execution a job id
    is in that set exactly while a call of processJob for it is in flight;
    and both ends of a run, the catch clause that marks the job Failed and
    the settling of the writer, through which the job becomes Completed
    or Failed, leave the set without the job id. *)
Theorem processJob_guarded_and_released :
  (forall jobId now w,
     (jobId ∈ processingJobs w) -> processJob jobId now w = w) /\
  (forall evs jobId,
     (jobId ∈ processingJobs (run evs init)) <->
     is_Some (runners (run evs init) !! jobId)) /\
  (forall jobId err now w,
     (jobId ∉ processingJobs (job_fails jobId err now w)) /\
     runners (job_fails jobId err now w) !! jobId = None) /\
  (forall jobId err now w urls results,
     runners w !! jobId = Some (AwaitWrite urls results) ->
     (jobId ∉ processingJobs (write_settles jobId err now w)) /\
     runners (write_settles jobId err now w) !! jobId = None).
Proof.
  split; [|split; [|split]].
  - intros jobId now w Hin. unfold processJob. by rewrite decide_True.
  - intros evs jobId. rewrite (guard_inv_run evs). apply elem_of_dom.
  - intros jobId err now w. rewrite job_fails_processing, job_fails_runners.
    split; [set_solver|apply lookup_delete_eq].
  - intros jobId err now w urls results Hr. unfold write_settles. rewrite Hr.
    destruct err as [e|].
    + rewrite job_fails_processing, job_fails_runners.
      split; [set_solver|apply lookup_delete_eq].
    + cbn [processingJobs runners set_runners set_processingJobs].
      split; [set_solver|apply lookup_delete_eq].
Qed.

Lemma processJob_guarded_and_released_witness :
  "job-1" ∈ processingJobs (run scenario_start init) /\
  processJob "job-1" "2024-01-01T00:00:05.000Z" (run scenario_start init) =
    run scenario_start init.
Proof.
  assert (Hin : "job-1" ∈ processingJobs (run scenario_start init)).
  { apply (proj1 (proj2 processJob_guarded_and_released)). vm_compute. eauto. }
  split; [exact Hin|].
  exact (proj1 processJob_guarded_and_released _ _ _ Hin).
Defined.


(* The column URL of the data records of a result file. *)
Definition url_column (table : list (list Cell)) : list (option Cell) :=
  map (fun record => record !! 0%nat) (tail table).

Lemma url_column_results results :
  url_column (generateResultsCSV results) =
  map (fun u => Some (CellString u)) (map url results).
Proof.
  unfold url_column, generateResultsCSV. simpl.
  induction results as [|r results IH]; simpl; [done|]. by rewrite IH.
Qed.

(* The only way to Completed is the settling of the writer. *)
Lemma job_change_completed w jobId job e job' r' rn' :
  job_change w jobId job e job' r' rn' ->
  job_status job <> completed -> job_status job' = completed ->
  exists now urls results,
    e = WriteSettled jobId None now /\
    runners w !! jobId = Some (AwaitWrite urls results) /\
    totalUrls job' = totalUrls job.
Proof.
  intros Hchange Hbefore Hafter.
  destruct Hchange; simpl in Hafter; try done.
  - by rewrite (proj1 (after_batch_fields _ _ _)) in Hafter.
  - by eexists _, _, _.
Qed.

(** C3: take any execution in which an upload creates a job and any events
    follow, in any interleaving and with the analyses settling in any
    order. When an event makes the job Completed, the result file of the
    job holds totalUrls + 1 records, the header and one record per URL,
    and the URL column of the data records is the list of URLs extracted
    from the uploaded CSV, in the same order. *)
Theorem completed_csv_rows_in_order
    (evs1 evs2 : list Event) (sessionId originalname : string) (f : CsvFile)
    (uuid now : string) (e : Event) (urls : list string)
    (job job' : BulkAnalysisJob) :
  let w1 := run evs1 init in
  let w2 := step w1 (Upload sessionId originalname f uuid now) in
  let w3 := run evs2 w2 in
  let w4 := step w3 e in
  bulkJobs (storage w1) !! uuid = None ->
  is_Some (bulkJobs (storage w2) !! uuid) ->
  parseCSVUrls f = inr urls ->
  bulkJobs (storage w3) !! uuid = Some job ->
  job_status job <> completed ->
  bulkJobs (storage w4) !! uuid = Some job' ->
  job_status job' = completed ->
  exists results,
    files w4 !! resultPath uuid = Some (Results (generateResultsCSV results)) /\
    length (generateResultsCSV results) = S (totalUrls job') /\
    map url results = urls /\
    url_column (generateResultsCSV results) =
      map (fun u => Some (CellString u)) urls.
Proof.
  intros w1 w2 w3 w4 Hfresh Hcreated Hparse Hjob Hbefore Hjob' Hafter.
  destruct (has_jobs_run evs1 uuid Hfresh) as [Hrun Hren].
  destruct (step_fresh w1 (Upload sessionId originalname f uuid now) uuid
              Hfresh Hrun Hren)
    as [(Hnone & _)|(s & orig & f' & now' & urls' & He & Hparse' & _ & Hnew & Hr & Hn)].
  { fold w2 in Hnone. rewrite Hnone in Hcreated. by destruct Hcreated. }
  injection He as <- <- <- <-.
  assert (urls' = urls) as -> by congruence.
  assert (job_inv uuid urls anything w3) as Hinv.
  { apply job_inv_run; [by eapply job_inv_created|].
    apply Forall_forall. intros ? _. apply respects_anything. }
  destruct Hinv as ((job0 & Hjob0 & Htotal & _) & _ & Hrunner).
  assert (job0 = job) as -> by congruence.
  destruct (step_job w3 e uuid job Hjob) as (job'' & Hjob'' & Hchange).
  fold w4 in Hjob''. assert (job'' = job') as -> by congruence.
  destruct (job_change_completed _ _ _ _ _ _ _ Hchange Hbefore Hafter)
    as (now'' & urls0 & results & -> & Hwrite & Htotal').
  destruct (Hrunner _ Hwrite) as (-> & Hlen & Hrows).
  exists results.
  assert (map url results = urls) as Hurls.
  { rewrite (rows_ok_urls urls anything results Hrows) by lia.
    rewrite Hlen. apply firstn_all. }
  split; [|split; [|split]].
  - unfold w4. simpl. unfold write_settles. rewrite Hwrite.
    cbn [files set_runners set_processingJobs emit].
    match goal with
    | |- context [files (update_job ?a ?b ?c)] =>
        change (files (update_job a b c)) with (files c)
    end.
    cbn [files set_files]. by rewrite lookup_insert_eq.
  - unfold generateResultsCSV. simpl. rewrite length_map. congruence.
  - done.
  - by rewrite url_column_results, Hurls.
Qed.

Lemma completed_csv_rows_in_order_witness :
  let w3 := run (skipn 1 scenario_start ++ [scenario_settle])
              (step (run [] init)
                 (Upload "10.0.0.1-agent" "sites.csv" one_url_file "job-1"
                    "2024-01-01T00:00:00.000Z")) in
  exists job' results,
    bulkJobs (storage (step w3 scenario_write)) !! "job-1" = Some job' /\
    job_status job' = completed /\
    files (step w3 scenario_write) !! resultPath "job-1" =
      Some (Results (generateResultsCSV results)) /\
    length (generateResultsCSV results) = S (totalUrls job') /\
    map url results = ["https://example.com"] /\
    url_column (generateResultsCSV results) =
      [Some (CellString "https://example.com")].
Proof.
  cbv zeta.
  assert (Hjob : bulkJobs (storage (run (skipn 1 scenario_start ++ [scenario_settle])
              (step (run [] init)
                 (Upload "10.0.0.1-agent" "sites.csv" one_url_file "job-1"
                    "2024-01-01T00:00:00.000Z")))) !! "job-1" =
                 Some {| job_id := "job-1"; userSession := "10.0.0.1-agent";
                         filename := "sites.csv"; totalUrls := 1;
                         processedUrls := 1; job_status := processing;
                         createdAt := "2024-01-01T00:00:00.000Z";
                         completedAt := None; resultFilePath := None |})
    by (vm_compute; reflexivity).
  assert (Hjob' : bulkJobs (storage (step (run (skipn 1 scenario_start ++ [scenario_settle])
              (step (run [] init)
                 (Upload "10.0.0.1-agent" "sites.csv" one_url_file "job-1"
                    "2024-01-01T00:00:00.000Z"))) scenario_write)) !! "job-1" =
                 Some {| job_id := "job-1"; userSession := "10.0.0.1-agent";
                         filename := "sites.csv"; totalUrls := 1;
                         processedUrls := 1; job_status := completed;
                         createdAt := "2024-01-01T00:00:00.000Z";
                         completedAt := Some "2024-01-01T00:00:04.000Z";
                         resultFilePath := Some "results/job-1_results.csv" |})
    by (vm_compute; reflexivity).
  destruct (completed_csv_rows_in_order [] (skipn 1 scenario_start ++ [scenario_settle])
              "10.0.0.1-agent" "sites.csv" one_url_file "job-1"
              "2024-01-01T00:00:00.000Z" scenario_write ["https://example.com"]
              _ _ ltac:(reflexivity) ltac:(vm_compute; eauto) ltac:(reflexivity)
              Hjob ltac:(simpl; discriminate) Hjob' ltac:(reflexivity))
    as (results & H1 & H2 & H3 & H4).
  eexists _, results. split; [exact Hjob'|]. split; [reflexivity|].
  split; [exact H1|]. split; [exact H2|]. split; [exact H3|exact H4].
Defined.


(* The event for a promise that is settled, or that is not among the
   promises of the current batch, does nothing. *)
Lemma url_settles_noop jobId n o uuid now w :
  match runners w !! jobId with
  | Some (AwaitBatch urls i results proms) =>
      ~ ((i <= n)%nat /\ proms !! (n - i)%nat = Some None)
  | _ => True
  end ->
  url_settles jobId n o uuid now w = w.
Proof.
  unfold url_settles.
  destruct (runners w !! jobId) as [[| urls i results proms |]|]; try done.
  intros Hno. destruct (bool_decide (i <= n)%nat) eqn:Hle; [|done].
  apply bool_decide_eq_true in Hle.
  destruct (proms !! (n - i)%nat) as [[s|]|] eqn:Hp; try done.
  by destruct Hno.
Qed.

(* The call of processJob after the event for an unsettled promise of
   the current batch. *)
Lemma url_settles_runner jobId n o uuid now w urls i results proms u :
  runners w !! jobId = Some (AwaitBatch urls i results proms) ->
  (i <= n)%nat -> proms !! (n - i)%nat = Some None ->
  batch_of urls i !! (n - i)%nat = Some u ->
  let settled := fst (processUrl u jobId o uuid now (storage w)) in
  let proms' := <[(n - i)%nat := Some settled]> proms in
  runners (url_settles jobId n o uuid now w) !! jobId =
    Some (match all_settled proms' with
          | Some batchResults =>
              next_wait urls (i + maxConcurrentUrls)
                (results ++ zip_with (fun u r => row_of_settled u r now)
                              (batch_of urls i) batchResults)
          | None => AwaitBatch urls i results proms'
          end).
Proof.
  intros Hr Hle Hp Hu. cbv zeta.
  unfold url_settles. rewrite Hr. cbv zeta. fold (batch_of urls i).
  rewrite bool_decide_eq_true_2, Hp, Hu by done.
  destruct (processUrl u jobId o uuid now (storage w)) as [settled st].
  cbn [fst].
  destruct (all_settled _) as [brs|].
  - pose proof (collect_batch_results jobId (length urls) i 0 (batch_of urls i)
                  brs now results (set_storage st w)) as Hres.
    destruct (collect_batch _ _ _ _ _ _ _ _ _) as [rs w0]. cbn [fst] in Hres.
    by rewrite loop_head_runners, lookup_insert_eq, Hres.
  - cbn [runners set_runners]. by rewrite lookup_insert_eq.
Qed.

Section Progress.

Variable jobId : string.
Variable U : list string.
Variable Q : nat -> Settled -> Prop.

(* Every promise of the current batch for a URL before the [m]-th has
   settled. *)
Definition settled_below (m : nat) (r : Runner) : Prop :=
  match r with
  | AwaitParse _ => False
  | AwaitBatch urls i results proms =>
      forall j, (i + j < m)%nat -> (j < length proms)%nat ->
        exists s, proms !! j = Some (Some s)
  | AwaitWrite _ _ => True
  end.

(* [evs] lets the analyses of the URLs [m], [m + 1], ... settle, in this
   order. *)
Definition settles_from (m : nat) (evs : list Event) : Prop :=
  forall p e, evs !! p = Some e ->
    exists o uuid now, e = UrlSettled jobId (m + p) o uuid now.

Lemma settle_next w m r o uuid now :
  job_inv jobId U Q w -> respects jobId U Q (UrlSettled jobId m o uuid now) ->
  runners w !! jobId = Some r -> settled_below m r ->
  exists r', runners (step w (UrlSettled jobId m o uuid now)) !! jobId = Some r' /\
             settled_below (S m) r'.
Proof.
  intros Hinv Hresp Hr Hbelow. simpl.
  destruct r as [f| urls i results proms | urls results]; [done| |].
  2:{ exists (AwaitWrite urls results). split; [|done].
      rewrite url_settles_noop; [done|by rewrite Hr]. }
  destruct Hinv as (_ & _ & Hrun).
  destruct (Hrun _ Hr) as (-> & Hi & Hlen & Hrows & Hpl & Hnone & Hps).
  pose proof (batch_length_pos U i Hi) as Hb.
  assert (((i <= m)%nat /\ proms !! (m - i)%nat = Some None) \/
          ~ ((i <= m)%nat /\ proms !! (m - i)%nat = Some None))
    as [[Hle Hp]|Hno].
  { destruct (decide (i <= m)%nat) as [Hle|Hgt]; [|right; by intros [? _]].
    destruct (proms !! (m - i)%nat) as [[s|]|];
      [right; by intros [_ ?]|by left|right; by intros [_ ?]]. }
  - pose proof (lookup_lt_Some _ _ _ Hp) as Hlt.
    destruct (lookup_lt_is_Some_2 (batch_of U i) (m - i)%nat) as [u Hu]; [lia|].
    pose proof (url_settles_runner jobId m o uuid now w U i results proms u
                  Hr Hle Hp Hu) as Hnext.
    cbv zeta in Hnext.
    destruct (all_settled _) as [brs|] eqn:Hall in Hnext;
      (eexists; split; [exact Hnext|]).
    + unfold next_wait. destruct (_ <? _)%nat; [|done].
      cbv zeta. unfold settled_below. intros j Hj _.
      unfold maxConcurrentUrls in *. lia.
    + unfold settled_below. intros j Hj Hjl. rewrite length_insert in Hjl.
      destruct (decide (j = (m - i)%nat)) as [->|Hne].
      * rewrite list_lookup_insert_eq by done. by eexists.
      * rewrite list_lookup_insert_ne by done. apply Hbelow; [lia|done].
  - exists (AwaitBatch U i results proms). split.
    + rewrite url_settles_noop; [done|by rewrite Hr].
    + unfold settled_below. intros j Hj Hjl.
      destruct (decide (i + j < m)%nat) as [Hlt|Hge]; [by apply Hbelow|].
      assert (j = (m - i)%nat) as -> by lia.
      destruct (lookup_lt_is_Some_2 proms (m - i)%nat Hjl) as [[s|] Hs].
      * by exists s.
      * destruct Hno. split; [lia|done].
Qed.

Lemma in_order_pass evs : forall m w r,
  job_inv jobId U Q w -> Forall (respects jobId U Q) evs ->
  runners w !! jobId = Some r -> settled_below m r ->
  settles_from m evs -> (m + length evs = length U)%nat ->
  exists results,
    runners (run evs w) !! jobId = Some (AwaitWrite U results) /\
    job_inv jobId U Q (run evs w).
Proof.
  induction evs as [|e evs IH]; intros m w r Hinv Hresp Hr Hbelow Hfrom Hlen.
  - simpl in *. destruct r as [f| urls i results proms | urls results]; [done| |].
    + exfalso. destruct Hinv as (_ & _ & Hrun).
      destruct (Hrun _ Hr) as (-> & Hi & _ & _ & Hpl & Hnone & _).
      apply all_settled_None in Hnone as [j Hj].
      pose proof (lookup_lt_Some _ _ _ Hj) as Hjl.
      destruct (Hbelow j) as [s Hs]; [|done|congruence].
      rewrite Hpl, batch_of_length in Hjl. lia.
    + exists results. split; [|done].
      destruct Hinv as (_ & _ & Hrun). by destruct (Hrun _ Hr) as (-> & _).
  - apply Forall_cons in Hresp as [He Hresp].
    destruct (Hfrom 0%nat e eq_refl) as (o & uuid & now & ->).
    rewrite Nat.add_0_r in *.
    destruct (settle_next w m r o uuid now Hinv He Hr Hbelow) as (r' & Hr' & Hb').
    change (run (UrlSettled jobId m o uuid now :: evs) w)
      with (run evs (step w (UrlSettled jobId m o uuid now))).
    apply (IH (S m) _ r'); try done.
    + by apply job_inv_step.
    + intros p e Hp. destruct (Hfrom (S p) e Hp) as (o' & uuid' & now' & ->).
      exists o', uuid', now'. f_equal. lia.
    + simpl in Hlen. lia.
Qed.

End Progress.


(* The analysis of a URL has failed: the race did not deliver a page. *)
Definition failure (o : Outcome) : Prop :=
  match o with
  | Fetched _ _ => False
  | _ => True
  end.

(* The message that processUrl stores and wraps for a failed analysis. *)
Definition failure_message (o : Outcome) : string :=
  message_or "Unknown error" (race_error o).

(* A placeholder row: the URL, score 0, every analysis field empty and an
   error message that is not empty. *)
Definition is_placeholder (u : string) (row : BulkAnalysisResult) : Prop :=
  url row = u /\ seoScore row = 0 /\
  titleTag row = "" /\ titleLength row = 0%nat /\
  metaDescription row = "" /\ metaDescriptionLength row = 0%nat /\
  h1Tag row = "" /\ ogTitle row = "" /\ ogDescription row = "" /\
  ogImage row = "" /\ twitterTitle row = "" /\ twitterDescription row = "" /\
  twitterCard row = "" /\ robotsTag row = "" /\ canonicalUrl row = "" /\
  scoreBreakdown row = None /\ breakdownSummary row = None /\
  exists m, errorMessage row = Some m /\ m <> "".

Lemma processUrl_failure u jobId o uuid now st :
  failure o ->
  fst (processUrl u jobId o uuid now st) =
    Rejected (JsError ("Failed to analyze " +:+ u +:+ ": " +:+ failure_message o)) /\
  bulkUrlResults (snd (processUrl u jobId o uuid now st)) !! uuid =
    Some {| ur_id := uuid; ur_jobId := jobId; ur_url := u;
            analysisResult := None;
            ur_errorMessage := Some (failure_message o);
            processedAt := now |}.
Proof.
  destruct o as [page hostname|e|]; [done|..]; intros _; simpl;
    by rewrite lookup_insert_eq.
Qed.

Lemma errorResult_placeholder u msg now :
  is_placeholder u (errorResult u (JsError ("Failed to analyze " +:+ msg)) now).
Proof.
  unfold is_placeholder. simpl. repeat (split; [done|]).
  eexists. split; [reflexivity|]. done.
Qed.

(* The identifier that an event draws for a per-URL result. *)
Definition draws (e : Event) : option string :=
  match e with
  | UrlSettled _ _ _ uuid _ => Some uuid
  | _ => None
  end.

Lemma update_job_results jobId updates w :
  bulkUrlResults (storage (update_job jobId updates w)) =
  bulkUrlResults (storage w).
Proof. apply update_job_rest. Qed.

Lemma job_fails_results jobId err now w :
  bulkUrlResults (storage (job_fails jobId err now w)) =
  bulkUrlResults (storage w).
Proof.
  unfold job_fails. cbn [storage set_runners set_processingJobs emit].
  apply update_job_results.
Qed.

Lemma processJob_results jobId now w :
  bulkUrlResults (storage (processJob jobId now w)) = bulkUrlResults (storage w).
Proof.
  unfold processJob. case_decide; [done|]. cbv zeta.
  cbn [storage emit set_processingJobs].
  destruct (getBulkJob jobId (storage w)); [|by rewrite job_fails_results].
  cbn [storage set_runners]. by rewrite update_job_results.
Qed.

Lemma results_kept w e k r :
  bulkUrlResults (storage w) !! k = Some r -> draws e <> Some k ->
  bulkUrlResults (storage (step w e)) !! k = Some r.
Proof.
  intros Hk Hdraw.
  destruct e as [s orig f u t|j t|j t|j n o u t|j err t|j s]; simpl in *.
  - unfold upload. destruct (negb _); [done|]. by case_decide.
  - unfold renamed. destruct (renaming w !! j); [|done].
    by rewrite processJob_results.
  - unfold parse_settles.
    destruct (runners w !! j) as [[[f|]| |]|]; try done.
    destruct (parseCSVUrls f); [|done].
    by rewrite job_fails_results.
  - destruct (url_settles_inv j n o u t w)
      as [->|(urls & i & results & proms & url & _ & _ & _ & _ & H)]; [done|].
    cbv zeta in H.
    assert (bulkUrlResults (snd (processUrl url j o u t (storage w))) !! k =
            Some r) as Hk'.
    { destruct o; simpl; rewrite lookup_insert_ne; try done;
        intros ->; by destruct Hdraw. }
    destruct (all_settled _) as [brs|]; rewrite H.
    + cbn [storage loop_head set_runners].
      by rewrite (proj1 (collect_batch_rest _ _ _ _ _ _ _ _ _)).
    + done.
  - unfold write_settles.
    destruct (runners w !! j) as [[| |urls results]|]; try done.
    destruct err as [e|].
    + by rewrite job_fails_results.
    + cbn [storage set_runners set_processingJobs emit].
      by rewrite update_job_results.
  - by rewrite (proj2 (proj2 (proj2 (delete_job_rest j s w)))).
Qed.

(* The upload handler and the call of processJob up to the first batch. *)
Lemma renamed_runner jobId now w f job :
  renaming w !! jobId = Some f -> jobId ∉ processingJobs w ->
  bulkJobs (storage w) !! jobId = Some job ->
  runners (renamed jobId now w) !! jobId = Some (AwaitParse (Some f)).
Proof.
  intros Hf Hin Hjob. unfold renamed. rewrite Hf. unfold processJob.
  cbn [processingJobs set_files set_renaming].
  rewrite decide_False by done. cbv zeta.
  cbn [storage emit set_processingJobs set_files set_renaming].
  unfold getBulkJob. rewrite Hjob.
  cbn [runners set_runners]. rewrite lookup_insert_eq.
  match goal with
  | |- context [files (update_job ?a ?b ?c)] =>
      change (files (update_job a b c)) with (files c)
  end.
  cbn [files emit set_processingJobs set_files].
  by rewrite lookup_insert_eq.
Qed.

Lemma parse_settles_runner jobId now w f urls :
  runners w !! jobId = Some (AwaitParse (Some f)) ->
  parseCSVUrls f = inr urls ->
  runners (parse_settles jobId now w) !! jobId = Some (next_wait urls 0 []).
Proof.
  intros Hr Hp. unfold parse_settles. rewrite Hr, Hp.
  by rewrite loop_head_runners, lookup_insert_eq.
Qed.

Lemma upload_creates sessionId originalname f uuid now w :
  valid (validateCSVFile (inr f)) = true ->
  bulkJobs (storage w) !! uuid = None ->
  is_Some (bulkJobs (storage (upload sessionId originalname f uuid now w)) !! uuid) /\
  processingJobs (upload sessionId originalname f uuid now w) = processingJobs w.
Proof.
  intros Hvalid Hnone. unfold upload. rewrite Hvalid. cbn [negb].
  rewrite decide_False by (by apply not_elem_of_dom).
  cbn. by rewrite lookup_insert_eq.
Qed.

Lemma write_settles_completes jobId now w urls results job :
  runners w !! jobId = Some (AwaitWrite urls results) ->
  bulkJobs (storage w) !! jobId = Some job ->
  bulkJobs (storage (write_settles jobId None now w)) !! jobId =
    Some (spread_job job (complete_update jobId now)) /\
  files (write_settles jobId None now w) !! resultPath jobId =
    Some (Results (generateResultsCSV results)).
Proof.
  intros Hr Hjob. unfold write_settles. rewrite Hr.
  cbn [storage files set_runners set_processingJobs emit].
  rewrite update_job_lookup, decide_True by done.
  cbn [storage set_files]. rewrite Hjob. split; [done|].
  match goal with
  | |- context [files (update_job ?a ?b ?c)] =>
      change (files (update_job a b c)) with (files c)
  end.
  cbn [files set_files]. by rewrite lookup_insert_eq.
Qed.


Lemma run_app evs1 evs2 w : run (evs1 ++ evs2) w = run evs2 (run evs1 w).
Proof. unfold run. by rewrite foldl_app. Qed.

(* Whatever settles, in whatever order, the call keeps waiting for its
   batch or for the writer. *)
Lemma settle_any jobId U Q w r n o uuid now :
  job_inv jobId U Q w -> runners w !! jobId = Some r -> settled_below 0 r ->
  exists r', runners (step w (UrlSettled jobId n o uuid now)) !! jobId = Some r' /\
             settled_below 0 r'.
Proof.
  intros Hinv Hr Hbelow. simpl.
  destruct r as [f| urls i results proms | urls results]; [done| |].
  2:{ exists (AwaitWrite urls results). split; [|done].
      rewrite url_settles_noop; [done|by rewrite Hr]. }
  destruct Hinv as (_ & _ & Hrun).
  destruct (Hrun _ Hr) as (-> & Hi & Hlen & Hrows & Hpl & Hnone & Hps).
  assert (((i <= n)%nat /\ proms !! (n - i)%nat = Some None) \/
          ~ ((i <= n)%nat /\ proms !! (n - i)%nat = Some None))
    as [[Hle Hp]|Hno].
  { destruct (decide (i <= n)%nat) as [Hle|Hgt]; [|right; by intros [? _]].
    destruct (proms !! (n - i)%nat) as [[s|]|];
      [right; by intros [_ ?]|by left|right; by intros [_ ?]]. }
  - pose proof (lookup_lt_Some _ _ _ Hp) as Hlt.
    destruct (lookup_lt_is_Some_2 (batch_of U i) (n - i)%nat) as [u Hu]; [lia|].
    pose proof (url_settles_runner jobId n o uuid now w U i results proms u
                  Hr Hle Hp Hu) as Hnext.
    cbv zeta in Hnext.
    destruct (all_settled _) as [brs|] in Hnext;
      (eexists; split; [exact Hnext|]).
    + unfold next_wait. destruct (_ <? _)%nat; [|done].
      cbv zeta. unfold settled_below. intros j Hj _. lia.
    + unfold settled_below. intros j Hj _. lia.
  - exists (AwaitBatch U i results proms). split; [|done].
    rewrite url_settles_noop; [done|by rewrite Hr].
Qed.

(* [e] lets the analysis of some URL of the job settle, with the outcome
   that [os] gives for this URL. *)
Definition settles_with (jobId : string) (os : nat -> Outcome) (e : Event)
    : Prop :=
  exists n uuid now, e = UrlSettled jobId n (os n) uuid now.

(* The settled promise of the [n]-th URL is the one that processUrl
   returns for the outcome [os n]. *)
Definition delivered (jobId : string) (U : list string) (os : nat -> Outcome)
    (n : nat) (s : Settled) : Prop :=
  exists u uuid now st,
    U !! n = Some u /\ s = fst (processUrl u jobId (os n) uuid now st).

Lemma settles_with_respects jobId U os e :
  settles_with jobId os e -> respects jobId U (delivered jobId U os) e.
Proof.
  intros (n & uuid & now & ->) _ u st Hu. by exists u, uuid, now, st.
Qed.

Lemma settle_all_any jobId U os evs : forall w r,
  job_inv jobId U (delivered jobId U os) w ->
  runners w !! jobId = Some r -> settled_below 0 r ->
  Forall (settles_with jobId os) evs ->
  job_inv jobId U (delivered jobId U os) (run evs w) /\
  exists r', runners (run evs w) !! jobId = Some r' /\ settled_below 0 r'.
Proof.
  induction evs as [|e evs IH]; intros w r Hinv Hr Hbelow Hevs.
  - split; [done|]. by exists r.
  - apply Forall_cons in Hevs as [He Hevs].
    pose proof (settles_with_respects jobId U os e He) as Hresp.
    destruct He as (n & uuid & now & ->).
    destruct (settle_any jobId U _ w r n (os n) uuid now Hinv Hr Hbelow)
      as (r' & Hr' & Hb').
    change (run (UrlSettled jobId n (os n) uuid now :: evs) w)
      with (run evs (step w (UrlSettled jobId n (os n) uuid now))).
    apply (IH _ r'); try done. by apply job_inv_step.
Qed.

(* The row of the result file for one URL, given how its analysis ended. *)
Definition row_for (u : string) (o : Outcome) (row : BulkAnalysisResult)
    : Prop :=
  match o with
  | Fetched page hostname =>
      exists now, row = csvResult (performSeoAnalysis u page hostname) now
  | _ => is_placeholder u row
  end.

Lemma row_ok_row_for jobId U os n row u :
  row_ok U (delivered jobId U os) n row -> U !! n = Some u ->
  row_for u (os n) row.
Proof.
  intros (u' & s & now & Hu' & [(u'' & uuid & now' & st & Hu'' & ->) _] & ->) Hu.
  assert (u' = u) as -> by congruence.
  assert (u'' = u) as -> by congruence.
  unfold row_for. destruct (os n) as [page hostname|e|] eqn:Ho.
  - simpl. by eexists.
  - destruct (processUrl_failure u jobId (Threw e) uuid now' st I) as [-> _].
    apply errorResult_placeholder.
  - destruct (processUrl_failure u jobId TimedOut uuid now' st I) as [-> _].
    apply errorResult_placeholder.
Qed.


(* Events that let analyses settle in a given order: each entry names the
   URL by its position, the identifier drawn and the time. *)
Definition settle_events (jobId : string) (os : nat -> Outcome)
    (order : list (nat * string * string)) : list Event :=
  map (fun x => UrlSettled jobId x.1.1 (os x.1.1) x.1.2 x.2) order.

(* Events that let the analyses of the first [count] URLs settle in the
   order of the URLs. *)
Definition settle_in_order (jobId : string) (os : nat -> Outcome)
    (ids times : nat -> string) (count : nat) : list Event :=
  map (fun n => UrlSettled jobId n (os n) (ids n) (times n)) (seq 0 count).

Lemma settle_events_with jobId os order :
  Forall (settles_with jobId os) (settle_events jobId os order).
Proof.
  apply Forall_forall. intros e He. apply list_elem_of_fmap in He as (x & -> & _).
  by eexists _, _, _.
Qed.

Lemma settle_in_order_with jobId os ids times count :
  Forall (settles_with jobId os) (settle_in_order jobId os ids times count).
Proof.
  apply Forall_forall. intros e He. apply list_elem_of_fmap in He as (x & -> & _).
  by eexists _, _, _.
Qed.

Lemma settle_in_order_from jobId os ids times count :
  settles_from jobId 0 (settle_in_order jobId os ids times count).
Proof.
  intros p e Hp. unfold settle_in_order in Hp.
  rewrite list_lookup_fmap in Hp.
  destruct (seq 0 count !! p) as [n|] eqn:Hn; [|done].
  apply lookup_seq in Hn as [-> _]. injection Hp as <-. by eexists _, _, _.
Qed.

(** C4: a failed analysis (an error on the way or the timeout) makes
    processUrl store the failure variant of the per-URL result, with the
    error message and under the job id, and reject; every later event that
    does not draw the same identifier keeps the stored result; and a job
    whose upload was accepted reaches Completed when the writer succeeds,
    whatever the outcomes of its analyses are and in whatever order they
    settle: its result file then has one row per URL, in the order of the
    URLs, and the row of every URL whose analysis failed is the
    placeholder row, with score 0, every analysis field empty and an error
    message that is not empty. The analyses settle first in the order
    [earlier], which is arbitrary, and those that have not settled by then
    settle in the order of the URLs. *)
Theorem failed_urls_become_placeholder_rows :
  (forall u jobId o uuid now st,
     failure o ->
     fst (processUrl u jobId o uuid now st) =
       Rejected (JsError ("Failed to analyze " +:+ u +:+ ": "
                          +:+ failure_message o)) /\
     bulkUrlResults (snd (processUrl u jobId o uuid now st)) !! uuid =
       Some {| ur_id := uuid; ur_jobId := jobId; ur_url := u;
               analysisResult := None;
               ur_errorMessage := Some (failure_message o);
               processedAt := now |}) /\
  (forall w e k r,
     bulkUrlResults (storage w) !! k = Some r -> draws e <> Some k ->
     bulkUrlResults (storage (step w e)) !! k = Some r) /\
  (forall evs0 sessionId originalname f uuid t0 t1 t2 t3 urls os earlier ids times,
     bulkJobs (storage (run evs0 init)) !! uuid = None ->
     valid (validateCSVFile (inr f)) = true ->
     parseCSVUrls f = inr urls ->
     let w :=
       run ([Upload sessionId originalname f uuid t0; Renamed uuid t1;
             ParseSettled uuid t2]
            ++ settle_events uuid os earlier
            ++ settle_in_order uuid os ids times (length urls)
            ++ [WriteSettled uuid None t3]) (run evs0 init) in
     exists job results,
       bulkJobs (storage w) !! uuid = Some job /\
       job_status job = completed /\
       files w !! resultPath uuid = Some (Results (generateResultsCSV results)) /\
       length results = length urls /\
       forall n u, urls !! n = Some u ->
         exists row, results !! n = Some row /\ url row = u /\
                     row_for u (os n) row).
Proof.
  split; [exact processUrl_failure|]. split; [exact results_kept|].
  intros evs0 sessionId originalname f uuid t0 t1 t2 t3 urls os earlier ids
    times Hfresh Hvalid Hparse w.
  set (Q := delivered uuid urls os).
  set (w0 := run evs0 init) in *.
  destruct (has_jobs_run evs0 uuid Hfresh) as [Hrun0 Hren0]. fold w0 in Hrun0, Hren0.
  pose proof (guard_inv_run evs0) as Hguard0. fold w0 in Hguard0.
  (* the upload *)
  set (e1 := Upload sessionId originalname f uuid t0).
  destruct (upload_creates sessionId originalname f uuid t0 w0 Hvalid Hfresh)
    as [Hcreated Hproc1].
  destruct (step_fresh w0 e1 uuid Hfresh Hrun0 Hren0)
    as [(Hnone & _)|(s & orig & f' & now' & urls' & He & Hparse' & _ & Hnew & Hr1 & Hn1)].
  { simpl in Hnone. rewrite Hnone in Hcreated. by destruct Hcreated. }
  injection He as <- <- <- <-.
  assert (urls' = urls) as -> by congruence.
  assert (job_inv uuid urls Q (step w0 e1)) as Hinv1
    by (by eapply job_inv_created).
  (* the rename and the start of processJob *)
  assert (runners (step (step w0 e1) (Renamed uuid t1)) !! uuid =
          Some (AwaitParse (Some f))) as Hr2.
  { eapply renamed_runner; [exact Hn1| |exact Hnew].
    simpl. rewrite Hproc1, Hguard0. by apply not_elem_of_dom. }
  assert (job_inv uuid urls Q (step (step w0 e1) (Renamed uuid t1))) as Hinv2
    by (by apply job_inv_step).
  (* the parse *)
  set (w3 := step (step (step w0 e1) (Renamed uuid t1)) (ParseSettled uuid t2)).
  assert (runners w3 !! uuid = Some (next_wait urls 0 [])) as Hr3
    by (by eapply parse_settles_runner).
  assert (job_inv uuid urls Q w3) as Hinv3 by (by apply job_inv_step).
  assert (settled_below 0 (next_wait urls 0 [])) as Hb3.
  { unfold next_wait. destruct (_ <? _)%nat; [|done].
    cbv zeta. unfold settled_below. intros j Hj _. lia. }
  (* the analyses settle *)
  destruct (settle_all_any uuid urls os (settle_events uuid os earlier) w3 _
              Hinv3 Hr3 Hb3 (settle_events_with _ _ _))
    as (Hinv4 & r4 & Hr4 & Hb4).
  set (w4 := run (settle_events uuid os earlier) w3) in *.
  destruct (in_order_pass uuid urls Q
              (settle_in_order uuid os ids times (length urls)) 0 w4 r4 Hinv4)
    as (results & Hr5 & Hinv5); try done.
  { eapply Forall_impl; [apply settle_in_order_with|].
    intros e He. by apply settles_with_respects. }
  { apply settle_in_order_from. }
  { unfold settle_in_order. by rewrite length_map, length_seq. }
  set (w5 := run (settle_in_order uuid os ids times (length urls)) w4) in *.
  (* the writer *)
  destruct Hinv5 as ((job5 & Hjob5 & _ & _) & _ & Hrunner5).
  destruct (Hrunner5 _ Hr5) as (_ & Hlen & Hrows).
  destruct (write_settles_completes uuid t3 w5 urls results job5 Hr5 Hjob5)
    as [Hjob6 Hfile6].
  assert (w = write_settles uuid None t3 w5) as ->.
  { unfold w. rewrite !run_app. done. }
  eexists _, results. split; [exact Hjob6|]. split; [done|].
  split; [exact Hfile6|]. split; [done|].
  intros n u Hu.
  destruct (lookup_lt_is_Some_2 results n) as [row Hrow].
  { rewrite Hlen. by eapply lookup_lt_Some. }
  exists row. split; [done|]. split.
  - by eapply row_ok_url; [apply Hrows|].
  - eapply row_ok_row_for; [by apply Hrows|done].
Qed.


(* The scenario of the specification: a batch of three URLs, the second
   of which never answers; the third settles first. *)
Definition three_url_file : CsvFile :=
  {| file_size := 64;
     parsed := inr [[("url", "https://a.example")];
                    [("url", "b.example")];
                    [("url", "https://c.example")]] |}.

Definition plain_page : Page :=
  {| title_text := "A page title of a length that the rubric accepts";
     meta_description := None; meta_robots := Some "index, follow";
     og_title := None; og_description := None; og_image := None;
     twitter_card := None; twitter_title := None;
     twitter_description := None; twitter_image := None |}.

Definition three_outcomes (n : nat) : Outcome :=
  match n with
  | 1%nat => TimedOut
  | _ => Fetched plain_page "example"
  end.

Definition three_url_run : list Event :=
  [ Upload "10.0.0.1-agent" "three.csv" three_url_file "job-3" "t0";
    Renamed "job-3" "t1"; ParseSettled "job-3" "t2" ]
  ++ settle_events "job-3" three_outcomes [(2%nat, "result-c", "t3")]
  ++ settle_in_order "job-3" three_outcomes
       (fun n => "result-" +:+ pretty n) (fun n => "t4") 3
  ++ [WriteSettled "job-3" None "t5"].

Lemma failed_urls_become_placeholder_rows_witness :
  valid (validateCSVFile (inr three_url_file)) = true /\
  parseCSVUrls three_url_file =
    inr ["https://a.example"; "https://b.example"; "https://c.example"] /\
  exists job results,
    bulkJobs (storage (run three_url_run (run [] init))) !! "job-3" = Some job /\
    job_status job = completed /\
    files (run three_url_run (run [] init)) !! resultPath "job-3" =
      Some (Results (generateResultsCSV results)) /\
    length results = 3%nat /\
    exists row, results !! 1%nat = Some row /\
                is_placeholder "https://b.example" row.
Proof.
  assert (Hvalid : valid (validateCSVFile (inr three_url_file)) = true)
    by reflexivity.
  assert (Hparse : parseCSVUrls three_url_file =
            inr ["https://a.example"; "https://b.example"; "https://c.example"])
    by reflexivity.
  split; [exact Hvalid|]. split; [exact Hparse|].
  destruct (proj2 (proj2 failed_urls_become_placeholder_rows) []
              "10.0.0.1-agent" "three.csv" three_url_file "job-3"
              "t0" "t1" "t2" "t5" _ three_outcomes [(2%nat, "result-c", "t3")]
              (fun n => "result-" +:+ pretty n) (fun n => "t4")
              ltac:(reflexivity) Hvalid Hparse)
    as (job & results & Hjob & Hstatus & Hfile & Hlen & Hrows).
  exists job, results.
  split; [exact Hjob|]. split; [exact Hstatus|]. split; [exact Hfile|].
  split; [exact Hlen|].
  destruct (Hrows 1%nat "https://b.example" ltac:(reflexivity))
    as (row & Hrow & _ & Hfor).
  exists row. split; [exact Hrow|exact Hfor].
Defined.

(* A page with every checked tag in its good range. *)
Definition perfect_page : Page :=
  {| title_text := "A page title of a length that the rubric accepts";
     meta_description :=
       Some "This meta description has been written to be long enough for the rubric, which asks for between 120 and 160 characters in all.";
     meta_robots := Some "index, follow";
     og_title := Some "A page title";
     og_description := Some "A description";
     og_image := Some "https://example.com/og.png";
     twitter_card := Some "summary";
     twitter_title := Some "A page title";
     twitter_description := Some "A description";
     twitter_image := Some "https://example.com/tw.png" |}.

(* The columns Score_Breakdown_Summary and Breakdown_Details of a record. *)
Definition breakdown_columns (record : list Cell) : option Cell * option Cell :=
  (record !! 16%nat, record !! 17%nat).

(** C5 (what the code does at the failing input): every row that the bulk
    pipeline hands to the writer, the row of processUrl for an analysed
    page and the placeholder row of processJob alike, carries neither a
    breakdown summary nor a breakdown list, so the writer leaves
    Score_Breakdown_Summary undefined and Breakdown_Details empty, and
    both fields are blank in the file; for the perfect page, whose
    breakdown is empty, the file shows neither a sentinel for no issues
    nor the empty JSON list. The writer itself renders a row that carries
    the two fields, as the tests of the writer build it, with the summary
    as given and the list in JSON, the empty list included. *)
Theorem pipeline_rows_have_blank_breakdown_columns :
  (forall analysis now,
     breakdown_columns (csv_record (csvResult analysis now)) =
       (Some CellUndefined, Some (CellString ""))) /\
  (forall u reason now,
     breakdown_columns (csv_record (errorResult u reason now)) =
       (Some CellUndefined, Some (CellString ""))) /\
  (let analysis := performSeoAnalysis "https://example.com" perfect_page
                     "example.com" in
   res_score analysis = 100 /\ res_breakdown analysis = [] /\
   map cast_cell
     (drop 16 (csv_record (csvResult analysis "2024-01-01T00:00:00.000Z"))) =
     [""; ""; ""]) /\
  (forall row bs summary,
     scoreBreakdown row = Some bs -> breakdownSummary row = Some summary ->
     breakdown_columns (csv_record row) =
       (Some (CellString summary), Some (CellString (JSON_stringify bs)))) /\
  JSON_stringify [] = "[]".
Proof.
  split; [done|]. split; [done|]. split; [by vm_compute|].
  split; [|done].
  intros row bs summary Hbs Hsum. unfold breakdown_columns, csv_record.
  simpl. by rewrite Hbs, Hsum.
Qed.

End Runner.

(* ===================================================================== *)
(* Text sanitising: properties                                           *)
(* ===================================================================== *)

Section Sanitising.

(* the character [c] occurs in [s] *)
Fixpoint occurs (c : ascii) (s : string) : bool :=
  match s with
  | EmptyString => false
  | String d r => if ascii_dec c d then true else occurs c r
  end.

(* [s] still holds a match of the tag regex of sanitizeText: some < of
   [s] has a > behind it *)
Fixpoint has_tag (s : string) : bool :=
  match s with
  | EmptyString => false
  | String c r => (if ascii_dec c "<" then occurs ">" r else false) || has_tag r
  end.

Lemma after_char_None c s : Js.after_char c s = None <-> occurs c s = false.
Proof.
  induction s as [|d s IH]; cbn [Js.after_char occurs]; [done|].
  destruct (ascii_dec c d); [split; discriminate | done].
Qed.

Lemma after_char_length c s rest :
  Js.after_char c s = Some rest -> (String.length rest < String.length s)%nat.
Proof.
  revert rest.
  induction s as [|d s IH]; cbn [Js.after_char String.length];
    intros rest H; [done|].
  destruct (ascii_dec c d).
  - injection H as ->. lia.
  - apply IH in H. lia.
Qed.

Lemma has_tag_occurs s : has_tag s = true -> occurs ">" s = true.
Proof.
  induction s as [|c s IH]; cbn [has_tag occurs]; [done|]. intros H.
  destruct (ascii_dec ">" c); [done|].
  apply orb_true_iff in H as [H|H]; [|by apply IH].
  by destruct (ascii_dec c "<").
Qed.

Lemma strip_tags_no_tag fuel s :
  (String.length s <= fuel)%nat -> has_tag (strip_tags fuel s) = false.
Proof.
  revert s. induction fuel as [|fuel IH]; intros s Hlen.
  - destruct s; [done|]. cbn [String.length] in Hlen. lia.
  - destruct s as [|c r]; [done|].
    cbn [String.length] in Hlen. cbn [strip_tags].
    destruct (ascii_dec c "<") as [->|Hc] eqn:E.
    + destruct (Js.after_char ">" r) as [rest|] eqn:Hr.
      * apply IH. apply after_char_length in Hr. lia.
      * apply after_char_None in Hr. cbn [has_tag]. rewrite E, Hr.
        destruct (has_tag r) eqn:Ht; [|done].
        apply has_tag_occurs in Ht. congruence.
    + cbn [has_tag]. rewrite E. apply IH. lia.
Qed.

Lemma has_tag_trimStart s : has_tag s = false -> has_tag (Js.trimStart s) = false.
Proof.
  induction s as [|c s IH]; [done|]. intros H. cbn [Js.trimStart].
  destruct (Js.is_space c); [|done].
  apply IH. cbn [has_tag] in H. by apply orb_false_iff in H as [_ H].
Qed.

Lemma occurs_trimEnd c s : occurs c s = false -> occurs c (Js.trimEnd s) = false.
Proof.
  induction s as [|d s IH]; [done|]. cbn [occurs Js.trimEnd]. intros H.
  destruct (ascii_dec c d) as [|Hd] eqn:E; [done|]. specialize (IH H).
  destruct (Js.trimEnd s) as [|e s'].
  - destruct (Js.is_space d); [done|]. cbn [occurs]. by rewrite E.
  - cbn [occurs] in *. by rewrite E.
Qed.

Lemma has_tag_trimEnd s : has_tag s = false -> has_tag (Js.trimEnd s) = false.
Proof.
  induction s as [|c s IH]; [done|]. intros H.
  cbn [has_tag] in H. apply orb_false_iff in H as [Hc Hs]. specialize (IH Hs).
  assert (Ho : (if ascii_dec c "<" then occurs ">" (Js.trimEnd s) else false)
               = false).
  { destruct (ascii_dec c "<"); [|done]. by apply occurs_trimEnd. }
  cbn [Js.trimEnd]. destruct (Js.trimEnd s) as [|e s'] eqn:E.
  - destruct (Js.is_space c); [done|]. cbn [has_tag occurs].
    by destruct (ascii_dec c "<").
  - change (has_tag (String c (String e s')))
      with ((if ascii_dec c "<" then occurs ">" (String e s') else false)
            || has_tag (String e s')).
    by rewrite Ho, IH.
Qed.

Lemma trimStart_head s :
  match Js.trimStart s with
  | EmptyString => True
  | String c _ => Js.is_space c = false
  end.
Proof.
  induction s as [|c s IH]; [done|]. cbn [Js.trimStart].
  destruct (Js.is_space c) eqn:E; [done|]. by rewrite E.
Qed.

Lemma trimEnd_head c r :
  Js.is_space c = false -> exists r', Js.trimEnd (String c r) = String c r'.
Proof.
  intros Hc. cbn [Js.trimEnd]. destruct (Js.trimEnd r); [|by eexists].
  rewrite Hc. by eexists.
Qed.

Lemma trimEnd_idemp s : Js.trimEnd (Js.trimEnd s) = Js.trimEnd s.
Proof.
  induction s as [|c s IH]; [done|]. cbn [Js.trimEnd].
  destruct (Js.trimEnd s) as [|e s'] eqn:E.
  - destruct (Js.is_space c) eqn:Hc; [done|]. cbn [Js.trimEnd]. by rewrite Hc.
  - change (Js.trimEnd (String c (String e s')))
      with (match Js.trimEnd (String e s') with
            | EmptyString =>
                if Js.is_space c then EmptyString else String c EmptyString
            | r' => String c r'
            end).
    by rewrite IH.
Qed.

Lemma trim_idemp s : Js.trim (Js.trim s) = Js.trim s.
Proof.
  unfold Js.trim. pose proof (trimStart_head s) as H.
  destruct (Js.trimStart s) as [|c r]; [done|].
  destruct (trimEnd_head c r H) as [r' Hr]. rewrite Hr.
  cbn [Js.trimStart]. rewrite H, <- Hr. apply trimEnd_idemp.
Qed.

Lemma lower_gt d : Js.lower d = ">"%char -> d = ">"%char.
Proof.
  destruct d as [[] [] [] [] [] [] [] []]; vm_compute; intros H;
    first [reflexivity | discriminate H].
Qed.

Lemma lower_lt d : Js.lower d = "<"%char -> d = "<"%char.
Proof.
  destruct d as [[] [] [] [] [] [] [] []]; vm_compute; intros H;
    first [reflexivity | discriminate H].
Qed.

Lemma startsWith_ci_occurs c p s :
  (forall d, Js.lower d = c -> d = c) ->
  Js.startsWith_ci p s = true -> occurs c p = true -> occurs c s = true.
Proof.
  intros Hc. revert s. induction p as [|a p IH]; intros s Hp Ho; [done|].
  destruct s as [|b s]; [done|]. cbn [Js.startsWith_ci occurs] in *.
  destruct (ascii_dec a (Js.lower b)) as [->|]; [|done].
  destruct (ascii_dec c (Js.lower b)) as [E|].
  - symmetry in E. apply Hc in E as ->. by destruct (ascii_dec c c).
  - destruct (ascii_dec c b); [done|]. by apply IH.
Qed.

Lemma after_ci_occurs c pat s rest :
  (forall d, Js.lower d = c -> d = c) -> occurs c pat = true ->
  Js.after_ci pat s = Some rest -> occurs c s = true.
Proof.
  intros Hc Hp. induction s as [|b s IH]; cbn [Js.after_ci].
  - destruct (Js.startsWith_ci pat "") eqn:E; [|done]. intros _.
    by apply (startsWith_ci_occurs c pat).
  - destruct (Js.startsWith_ci pat (String b s)) eqn:E.
    + intros _. by apply (startsWith_ci_occurs c pat).
    + intros H. cbn [occurs]. destruct (ascii_dec c b); [done|]. by apply IH.
Qed.

Lemma occurs_drop c n s : occurs c (Js.drop n s) = true -> occurs c s = true.
Proof.
  revert s. induction n as [|n IH]; intros s; [done|].
  destruct s as [|b s]; [done|]. cbn [Js.drop occurs]. intros H.
  destruct (ascii_dec c b); [done|]. by apply IH.
Qed.

(* Text without a complete tag holds no script block either, and both
   replacements leave it as it is. *)
Lemma strip_scripts_id fuel s : has_tag s = false -> strip_scripts fuel s = s.
Proof.
  revert s. induction fuel as [|fuel IH]; intros s H; [done|].
  destruct s as [|c r]; [done|].
  assert (Hr : has_tag r = false).
  { cbn [has_tag] in H. by apply orb_false_iff in H as [_ H]. }
  assert (Hrec : String c (strip_scripts fuel r) = String c r)
    by (by rewrite IH).
  cbn [strip_scripts]. cbv zeta.
  destruct (Js.startsWith_ci "<script" (String c r) && _) eqn:Hc; [|done].
  destruct (Js.after_ci "</script>" (Js.drop 7 (String c r))) as [rest|] eqn:Ha;
    [exfalso|done].
  apply andb_true_iff in Hc as [Hc _].
  apply (after_ci_occurs ">") in Ha; [|exact lower_gt|done].
  change (Js.drop 7 (String c r)) with (Js.drop 6 r) in Ha.
  apply occurs_drop in Ha.
  assert (c = "<"%char) as ->.
  { change (Js.startsWith_ci "<script" (String c r))
      with (if ascii_dec "<" (Js.lower c)
            then Js.startsWith_ci "script" r else false) in Hc.
    destruct (ascii_dec "<" (Js.lower c)) as [E|]; [|done].
    symmetry in E. by apply lower_lt in E. }
  cbn [has_tag] in H. rewrite Ha in H. by destruct (ascii_dec "<" "<").
Qed.

Lemma strip_tags_id fuel s : has_tag s = false -> strip_tags fuel s = s.
Proof.
  revert s. induction fuel as [|fuel IH]; intros s H; [done|].
  destruct s as [|c r]; [done|]. cbn [strip_tags has_tag] in *.
  apply orb_false_iff in H as [Hc Hr].
  destruct (ascii_dec c "<").
  - apply after_char_None in Hc. by rewrite Hc.
  - by rewrite IH.
Qed.

Lemma sanitizeText_has_tag text : has_tag (sanitizeText text) = false.
Proof.
  unfold sanitizeText, Js.trim. cbv zeta.
  apply has_tag_trimEnd, has_tag_trimStart, strip_tags_no_tag. lia.
Qed.

Lemma occurs_app c b r : occurs c (b +:+ String c r) = true.
Proof.
  induction b as [|d b IH].
  - change (occurs c (String c r) = true). cbn [occurs].
    by destruct (ascii_dec c c).
  - change (occurs c (String d (b +:+ String c r)) = true). cbn [occurs].
    by destruct (ascii_dec c d).
Qed.

Lemma has_tag_app a b c : has_tag (a +:+ "<" +:+ b +:+ ">" +:+ c) = true.
Proof.
  induction a as [|d a IH].
  - change (has_tag (String "<" (b +:+ String ">" c)) = true).
    cbn [has_tag]. rewrite occurs_app. by destruct (ascii_dec "<" "<").
  - change (has_tag (String d (a +:+ "<" +:+ b +:+ ">" +:+ c)) = true).
    cbn [has_tag]. rewrite IH. apply orb_true_r.
Qed.

(** X1: the text sanitizeText returns holds no complete tag any more, no <
    with a > somewhere behind it, and it has no white space at either
    end. *)
Theorem sanitizeText_leaves_no_tag (text : string) :
  (forall a b c, sanitizeText text <> a +:+ "<" +:+ b +:+ ">" +:+ c) /\
  Js.trim (sanitizeText text) = sanitizeText text.
Proof.
  split.
  - intros a b c E. pose proof (sanitizeText_has_tag text) as H.
    rewrite E, has_tag_app in H. discriminate H.
  - unfold sanitizeText. cbv zeta. apply trim_idemp.
Qed.

(** X2: sanitizeText is idempotent: sanitising a sanitised text changes
    nothing. *)
Theorem sanitizeText_idempotent (text : string) :
  sanitizeText (sanitizeText text) = sanitizeText text.
Proof.
  pose proof (sanitizeText_has_tag text) as H.
  unfold sanitizeText at 1. cbv zeta.
  rewrite (strip_scripts_id _ _ H), (strip_tags_id _ _ H).
  unfold sanitizeText. cbv zeta. apply trim_idemp.
Qed.

End Sanitising.

(* ===================================================================== *)
(* Scoring engine: the tags and the score in closed form                 *)
(* ===================================================================== *)

Section Grading.

(* What check_title and check_description push for the value [v]: a
   missing tag costing [miss] when [v] is empty, else a tag that shows
   the sanitised value, good when the length lies within [lo, hi] and a
   warning costing 10 when it does not. *)
Definition graded (lo hi : nat) (miss : Z) (v : string) (t : SeoTag) : Prop :=
  if Js.truthy v then
    content t = sanitizeText v /\
    if bool_decide (lo <= String.length v <= hi)%nat
    then status t = good /\ deduction t = 0
    else status t = warning /\ deduction t = 10
  else content t = "-" /\ status t = missing /\ deduction t = miss.

(* What a presence check pushes for the value [v]. *)
Definition present (v shown : string) (t : SeoTag) : Prop :=
  if Js.truthy v then content t = shown /\ status t = good /\ deduction t = 0
  else content t = "-" /\ status t = missing /\ deduction t = 5.

Definition length_cost (lo hi : nat) (miss : Z) (v : string) : Z :=
  if Js.truthy v then
    if bool_decide (lo <= String.length v <= hi)%nat then 0 else 10
  else miss.

Definition presence_cost (v : string) : Z := if Js.truthy v then 0 else 5.

(* The eight values that are only checked for presence, in the order of
   their checks. *)
Definition presence_checked (p : Page) : list string :=
  map Js.trim_or_empty
    [meta_robots p; og_title p; og_description p; og_image p;
     twitter_card p; twitter_title p; twitter_description p;
     twitter_image p].

Lemma graded_cost lo hi miss v t :
  graded lo hi miss v t -> deduction t = length_cost lo hi miss v.
Proof.
  unfold graded, length_cost. destruct (Js.truthy v); [|tauto].
  destruct (bool_decide _); tauto.
Qed.

Lemma present_cost v shown t : present v shown t -> deduction t = presence_cost v.
Proof. unfold present, presence_cost. destruct (Js.truthy v); tauto. Qed.

Lemma check_title_effect title a :
  exists t, tags (check_title title a) = tags a ++ [t] /\
    score (check_title title a) = score a - deduction t /\
    tag t = "Title" /\ graded 30 60 25 title t.
Proof.
  unfold check_title, graded. destruct (Js.truthy title); simpl.
  - destruct (_ <? 30)%nat eqn:E1; [|destruct (60 <? _)%nat eqn:E2];
      (eexists; split; [done|]; split; [simpl; lia|]; split; [done|];
       split; [done|]); simpl.
    + apply Nat.ltb_lt in E1. rewrite bool_decide_eq_false_2 by lia. done.
    + apply Nat.ltb_lt in E2. rewrite bool_decide_eq_false_2 by lia. done.
    + apply Nat.ltb_ge in E1, E2. rewrite bool_decide_eq_true_2 by lia. done.
  - eexists. split; [done|]. done.
Qed.

Lemma check_description_effect d a :
  exists t, tags (check_description d a) = tags a ++ [t] /\
    score (check_description d a) = score a - deduction t /\
    tag t = "Meta Description" /\ graded 120 160 20 d t.
Proof.
  unfold check_description, graded. destruct (Js.truthy d); simpl.
  - destruct (_ <? 120)%nat eqn:E1; [|destruct (160 <? _)%nat eqn:E2];
      (eexists; split; [done|]; split; [simpl; lia|]; split; [done|];
       split; [done|]); simpl.
    + apply Nat.ltb_lt in E1. rewrite bool_decide_eq_false_2 by lia. done.
    + apply Nat.ltb_lt in E2. rewrite bool_decide_eq_false_2 by lia. done.
    + apply Nat.ltb_ge in E1, E2. rewrite bool_decide_eq_true_2 by lia. done.
  - eexists. split; [done|]. done.
Qed.

Lemma check_present_effect name mf cat issue gf v shown a :
  exists t, tags (check_present name mf cat issue gf v shown a) = tags a ++ [t] /\
    score (check_present name mf cat issue gf v shown a)
      = score a - deduction t /\
    tag t = name /\ present v shown t.
Proof.
  unfold check_present, present. destruct (Js.truthy v); simpl.
  - eexists. split; [done|]. split; [simpl; lia|]. done.
  - eexists. split; [done|]. done.
Qed.

(* The ten tags of one run and what each of them is. *)
Record tags_of (p : Page) (ts : list SeoTag) : Prop := {
  the_tags :
    exists t0 t1 t2 t3 t4 t5 t6 t7 t8 t9,
      ts = [t0; t1; t2; t3; t4; t5; t6; t7; t8; t9] /\
      (tag t0 = "Title" /\ graded 30 60 25 (Js.trim (title_text p)) t0) /\
      (tag t1 = "Meta Description" /\
       graded 120 160 20 (Js.trim_or_empty (meta_description p)) t1) /\
      (tag t2 = "Meta Robots" /\
       let v := Js.trim_or_empty (meta_robots p) in
       present v (sanitizeText v) t2) /\
      (tag t3 = "OG Title" /\
       let v := Js.trim_or_empty (og_title p) in
       present v (sanitizeText v) t3) /\
      (tag t4 = "OG Description" /\
       let v := Js.trim_or_empty (og_description p) in
       present v (sanitizeText v) t4) /\
      (tag t5 = "OG Image" /\
       let v := Js.trim_or_empty (og_image p) in present v v t5) /\
      (tag t6 = "Twitter Card" /\
       let v := Js.trim_or_empty (twitter_card p) in
       present v (sanitizeText v) t6) /\
      (tag t7 = "Twitter Title" /\
       let v := Js.trim_or_empty (twitter_title p) in
       present v (sanitizeText v) t7) /\
      (tag t8 = "Twitter Description" /\
       let v := Js.trim_or_empty (twitter_description p) in
       present v (sanitizeText v) t8) /\
      (tag t9 = "Twitter Image" /\
       let v := Js.trim_or_empty (twitter_image p) in present v v t9);
}.

Ltac presence name t Hn Hp :=
  match goal with
  | |- context [check_present name ?mf ?c ?i ?gf ?v ?s ?a] =>
      let Ht := fresh "Ht" in
      let Hs := fresh "Hs" in
      destruct (check_present_effect name mf c i gf v s a)
        as (t & Ht & Hs & Hn & Hp);
      rewrite Ht, Hs; clear Ht Hs
  end.

Lemma run_checks_effect p :
  tags_of p (tags (run_checks p)) /\
  score (run_checks p) = 100 - foldr Z.add 0 (map deduction (tags (run_checks p))).
Proof.
  unfold run_checks. cbv zeta.
  presence "Twitter Image" t9 Hn9 Hp9.
  presence "Twitter Description" t8 Hn8 Hp8.
  presence "Twitter Title" t7 Hn7 Hp7.
  presence "Twitter Card" t6 Hn6 Hp6.
  presence "OG Image" t5 Hn5 Hp5.
  presence "OG Description" t4 Hn4 Hp4.
  presence "OG Title" t3 Hn3 Hp3.
  presence "Meta Robots" t2 Hn2 Hp2.
  destruct (check_description_effect
              (Js.trim_or_empty (meta_description p))
              (check_title (Js.trim (title_text p))
                 {| tags := []; breakdown := []; score := 100 |}))
    as (t1 & Ht1 & Hs1 & Hn1 & Hp1).
  rewrite Ht1, Hs1. clear Ht1 Hs1.
  destruct (check_title_effect (Js.trim (title_text p))
              {| tags := []; breakdown := []; score := 100 |})
    as (t0 & Ht0 & Hs0 & Hn0 & Hp0).
  rewrite Ht0, Hs0. clear Ht0 Hs0. simpl.
  split; [|lia]. split. by exists t0, t1, t2, t3, t4, t5, t6, t7, t8, t9.
Qed.

Lemma presence_cost_sum vs :
  foldr Z.add 0 (map presence_cost vs)
  = 5 * Z.of_nat (length (filter (fun v => v = "") vs)).
Proof.
  induction vs as [|v vs IH]; [done|]. cbn [map foldr]. rewrite IH.
  destruct v as [|c v].
  - rewrite filter_cons_True by done. cbn [length presence_cost Js.truthy]. lia.
  - rewrite filter_cons_False by done. cbn [presence_cost Js.truthy]. lia.
Qed.

Lemma length_cost_range lo hi miss v :
  length_cost lo hi miss v = 0 \/ length_cost lo hi miss v = 10 \/
  length_cost lo hi miss v = miss.
Proof.
  unfold length_cost. destruct (Js.truthy v); [|tauto].
  destruct (bool_decide _); tauto.
Qed.

Lemma run_checks_score p :
  score (run_checks p)
  = 100 - length_cost 30 60 25 (Js.trim (title_text p))
        - length_cost 120 160 20 (Js.trim_or_empty (meta_description p))
        - 5 * Z.of_nat (length (filter (fun v => v = "") (presence_checked p))).
Proof.
  destruct (run_checks_effect p) as [[Ht] ->].
  destruct Ht as (t0 & t1 & t2 & t3 & t4 & t5 & t6 & t7 & t8 & t9 & -> &
    [_ H0] & [_ H1] & [_ H2] & [_ H3] & [_ H4] & [_ H5] & [_ H6] & [_ H7] &
    [_ H8] & [_ H9]).
  rewrite <- presence_cost_sum. unfold presence_checked. cbn [map foldr].
  apply graded_cost in H0, H1.
  apply present_cost in H2, H3, H4, H5, H6, H7, H8, H9. lia.
Qed.

Lemma score_bounds p url : 15 <= score (analyzeSeoTags p url) <= 100.
Proof.
  unfold analyzeSeoTags. cbn [score]. rewrite run_checks_score.
  pose proof (length_cost_range 30 60 25 (Js.trim (title_text p))).
  pose proof (length_cost_range 120 160 20
                (Js.trim_or_empty (meta_description p))).
  pose proof (length_filter (fun v => v = "") (presence_checked p)) as Hl.
  change (length (presence_checked p)) with 8%nat in Hl. lia.
Qed.

(** X3: the score in closed form. For every page the score is 100 minus
    the cost of the title (25 when the trimmed title is empty, 10 when its
    length lies outside 30..60, else 0), minus the cost of the meta
    description (20 when empty, 10 when its length lies outside 120..160,
    else 0), minus 5 for each of the eight other checked values that is
    empty after trimming. *)
Theorem score_closed_form (p : Page) (url : string) :
  score (analyzeSeoTags p url)
  = 100 - length_cost 30 60 25 (Js.trim (title_text p))
        - length_cost 120 160 20 (Js.trim_or_empty (meta_description p))
        - 5 * Z.of_nat (length (filter (fun v => v = "") (presence_checked p))).
Proof.
  unfold analyzeSeoTags. cbn [score]. rewrite run_checks_score.
  pose proof (length_cost_range 30 60 25 (Js.trim (title_text p))).
  pose proof (length_cost_range 120 160 20
                (Js.trim_or_empty (meta_description p))).
  pose proof (length_filter (fun v => v = "") (presence_checked p)) as Hl.
  change (length (presence_checked p)) with 8%nat in Hl. lia.
Qed.

(** X4: the score never falls below 15, it is a multiple of 5, and the
    clamp at 0 never takes effect: the score is exactly 100 minus the
    deductions of the breakdown. *)
Theorem score_at_least_15 (p : Page) (url : string) :
  let r := analyzeSeoTags p url in
  15 <= score r <= 100 /\ score r mod 5 = 0 /\
  score r = 100 - sum_deductions (breakdown r).
Proof.
  cbv zeta. unfold analyzeSeoTags. cbn [score breakdown].
  rewrite <- (checked_score _ _ (run_checks_checked p)).
  rewrite run_checks_score.
  pose proof (length_cost_range 30 60 25 (Js.trim (title_text p))) as H1.
  pose proof (length_cost_range 120 160 20
                (Js.trim_or_empty (meta_description p))) as H2.
  pose proof (length_filter (fun v => v = "") (presence_checked p)) as Hl.
  change (length (presence_checked p)) with 8%nat in Hl.
  set (n := length _) in *. clearbody n.
  assert (Hmod : forall a b,
    (a = 0 \/ a = 10 \/ a = 25 \/ a = 20) -> (b = 0 \/ b = 10 \/ b = 20) ->
    (100 - a - b - 5 * Z.of_nat n) mod 5 = 0).
  { intros a b Ha Hb.
    replace (100 - a - b - 5 * Z.of_nat n)
      with ((100 - a - b) + (- Z.of_nat n) * 5) by lia.
    rewrite Z.mod_add by lia.
    destruct Ha as [->|[->|[->| ->]]]; destruct Hb as [->|[->| ->]]; done. }
  split; [lia|]. split; [|lia].
  rewrite Z.max_r by lia. apply Hmod; lia.
Qed.

(* What holds of every tag the engine returns. *)
Definition well_formed (t : SeoTag) : Prop :=
  match status t with
  | good => deduction t = 0
  | warning =>
      deduction t = 10 /\ (tag t = "Title" \/ tag t = "Meta Description")
  | missing =>
      content t = "-" /\
      deduction t = (if decide (tag t = "Title") then 25
                     else if decide (tag t = "Meta Description") then 20
                     else 5)
  | error => False
  end.

Lemma graded_status lo hi miss v t :
  graded lo hi miss v t ->
  (status t = good /\ deduction t = 0) \/
  (status t = warning /\ deduction t = 10) \/
  (status t = missing /\ content t = "-" /\ deduction t = miss).
Proof.
  unfold graded. destruct (Js.truthy v); [|tauto].
  destruct (bool_decide _); tauto.
Qed.

Lemma present_status v shown t :
  present v shown t ->
  (status t = good /\ deduction t = 0) \/
  (status t = missing /\ content t = "-" /\ deduction t = 5).
Proof. unfold present. destruct (Js.truthy v); tauto. Qed.

Lemma graded_content lo hi miss v t :
  graded lo hi miss v t -> has_tag (content t) = false.
Proof.
  unfold graded. destruct (Js.truthy v).
  - intros [-> _]. apply sanitizeText_has_tag.
  - by intros [-> _].
Qed.

Lemma present_content v t :
  present v (sanitizeText v) t -> has_tag (content t) = false.
Proof.
  unfold present. destruct (Js.truthy v).
  - intros [-> _]. apply sanitizeText_has_tag.
  - by intros [-> _].
Qed.

Ltac ten_tags p :=
  destruct (run_checks_effect p) as [[(t0 & t1 & t2 & t3 & t4 & t5 & t6 & t7
    & t8 & t9 & Htags & [Hn0 H0] & [Hn1 H1] & [Hn2 H2] & [Hn3 H3] & [Hn4 H4]
    & [Hn5 H5] & [Hn6 H6] & [Hn7 H7] & [Hn8 H8] & [Hn9 H9])] Hscore];
  cbv zeta in H2, H3, H4, H5, H6, H7, H8, H9.

Lemma run_checks_well_formed p : Forall well_formed (tags (run_checks p)).
Proof.
  ten_tags p. rewrite Htags.
  apply graded_status in H0, H1.
  apply present_status in H2, H3, H4, H5, H6, H7, H8, H9.
  repeat apply Forall_cons_2; [..|apply Forall_nil_2]; unfold well_formed.
  - rewrite Hn0. destruct H0 as [[-> ?]|[[-> ?]|(-> & ? & ?)]]; auto.
  - rewrite Hn1. destruct H1 as [[-> ?]|[[-> ?]|(-> & ? & ?)]]; auto.
  - rewrite Hn2. destruct H2 as [[-> ?]|(-> & ? & ?)]; auto.
  - rewrite Hn3. destruct H3 as [[-> ?]|(-> & ? & ?)]; auto.
  - rewrite Hn4. destruct H4 as [[-> ?]|(-> & ? & ?)]; auto.
  - rewrite Hn5. destruct H5 as [[-> ?]|(-> & ? & ?)]; auto.
  - rewrite Hn6. destruct H6 as [[-> ?]|(-> & ? & ?)]; auto.
  - rewrite Hn7. destruct H7 as [[-> ?]|(-> & ? & ?)]; auto.
  - rewrite Hn8. destruct H8 as [[-> ?]|(-> & ? & ?)]; auto.
  - rewrite Hn9. destruct H9 as [[-> ?]|(-> & ? & ?)]; auto.
Qed.

Lemma well_formed_cost t : well_formed t -> status t <> good -> 0 < deduction t.
Proof.
  unfold well_formed. destruct (status t); [done| | |done].
  - intros [-> _] _. lia.
  - intros [_ ->] _. repeat case_decide; lia.
Qed.

Lemma filter_nil_Forall {A} (P : A -> Prop) `{!forall x, Decision (P x)} l :
  filter P l = [] <-> Forall (fun x => ~ P x) l.
Proof.
  induction l as [|x l IH]; [by split; [constructor|]|].
  rewrite filter_cons. case_decide.
  - split; [done|]. intros H'. by apply Forall_cons_1 in H' as [? _].
  - rewrite IH. split; [by constructor|]. intros H'.
    by apply Forall_cons_1 in H' as [_ ?].
Qed.

Lemma positive_sum_nil ds :
  Forall (fun d => 0 < d) ds -> (foldr Z.add 0 ds = 0 <-> ds = []).
Proof.
  intros Hpos. split; [|by intros ->].
  destruct Hpos as [|d ds Hd Hds]; [done|]. cbn [foldr].
  assert (0 <= foldr Z.add 0 ds).
  { clear Hd. induction Hds; cbn [foldr]; lia. }
  lia.
Qed.

Lemma sum_deductions_map bs :
  sum_deductions bs = foldr Z.add 0 (map bd_deduction bs).
Proof. unfold sum_deductions. induction bs; cbn [map foldr]; congruence. Qed.

(** X5: every tag the engine returns is well formed: its status is good,
    warning or missing and never error; a good tag costs nothing; a
    warning costs 10 and occurs for the title and the meta description
    only; a missing tag shows the content - and costs 25 for the title,
    20 for the meta description and 5 for any other tag. *)
Theorem tags_are_well_formed (p : Page) (url : string) :
  Forall well_formed (tags (analyzeSeoTags p url)).
Proof. unfold analyzeSeoTags. cbn [tags]. apply run_checks_well_formed. Qed.

(** X6: a page scores 100 exactly when the breakdown is empty, and the
    breakdown is empty exactly when all ten tags are good. *)
Theorem perfect_score_iff_no_issue (p : Page) (url : string) :
  let r := analyzeSeoTags p url in
  (score r = 100 <-> breakdown r = []) /\
  (breakdown r = [] <-> Forall (fun t => status t = good) (tags r)).
Proof.
  cbv zeta. unfold analyzeSeoTags. cbn [score breakdown tags].
  destruct (run_checks_checked p) as [_ Hs Hp Hb].
  pose proof (run_checks_well_formed p) as Hwf.
  set (a := run_checks p) in *. clearbody a. split.
  - assert (Hpos : Forall (fun d => 0 < d) (map bd_deduction (breakdown a))).
    { rewrite Hb. apply Forall_fmap, Forall_forall. intros t Ht.
      apply list_elem_of_filter in Ht as [Hng Ht].
      rewrite Forall_forall in Hwf. by apply well_formed_cost; [apply Hwf|]. }
    apply positive_sum_nil in Hpos. rewrite <- sum_deductions_map in Hpos.
    rewrite Hs. split.
    + intros E. apply (fmap_nil_inv bd_deduction). apply Hpos. lia.
    + intros E. rewrite E. done.
  - transitivity (filter not_good (tags a) = []).
    + split.
      * intros E. rewrite E in Hb. symmetry in Hb. by apply fmap_nil_inv in Hb.
      * intros E. rewrite E in Hb. by apply fmap_nil_inv in Hb.
    + rewrite filter_nil_Forall. apply Forall_iff. intros t. unfold not_good.
      destruct (decide (status t = good)); tauto.
Qed.

(** X7: the content the engine shows for a text tag holds no markup: for
    every tag other than the two image tags the content contains no
    complete tag, no < with a > somewhere behind it. *)
Theorem tag_content_is_sanitised (p : Page) (url : string) :
  Forall (fun t => tag t <> "OG Image" -> tag t <> "Twitter Image" ->
            forall a b c, content t <> a +:+ "<" +:+ b +:+ ">" +:+ c)
         (tags (analyzeSeoTags p url)).
Proof.
  unfold analyzeSeoTags. cbn [tags]. ten_tags p. rewrite Htags.
  apply graded_content in H0, H1.
  apply present_content in H2, H3, H4, H6, H7, H8.
  assert (Hno : forall t, has_tag (content t) = false ->
            forall a b c, content t <> a +:+ "<" +:+ b +:+ ">" +:+ c).
  { intros t Ht a b c E. rewrite E, has_tag_app in Ht. discriminate Ht. }
  repeat apply Forall_cons_2; [..|apply Forall_nil_2]; intros Hi1 Hi2;
    first [by apply Hno | congruence].
Qed.

Lemma graded_shown lo hi miss v t :
  graded lo hi miss v t ->
  content t = if Js.truthy v then sanitizeText v else "-".
Proof. unfold graded. destruct (Js.truthy v); tauto. Qed.

Lemma extractTagContent_tags p url :
  let ts := tags (analyzeSeoTags p url) in
  let title := Js.trim (title_text p) in
  let description := Js.trim_or_empty (meta_description p) in
  extractTagContent ts "Title"
    = (if Js.truthy title then sanitizeText title else "-") /\
  extractTagContent ts "Meta Description"
    = (if Js.truthy description then sanitizeText description else "-") /\
  extractTagContent ts "H1" = "" /\
  extractTagContent ts "Robots" = "" /\
  extractTagContent ts "Canonical" = "".
Proof.
  cbv zeta. unfold analyzeSeoTags. cbn [tags]. ten_tags p. rewrite Htags.
  apply graded_shown in H0, H1. rewrite <- H0, <- H1.
  unfold extractTagContent. cbn [List.find].
  rewrite Hn0, Hn1, Hn2, Hn3, Hn4, Hn5, Hn6, Hn7, Hn8, Hn9. done.
Qed.

(** X8: the columns H1_Tag, Robots_Tag and Canonical_URL of the row built
    for an analysed page are always empty, whatever the page holds, also
    when it has a robots meta tag: processUrl looks these values up under
    tag names the engine never returns. *)
Theorem analysed_row_blank_columns
    (targetUrl : string) (page : Page) (hostname now : string) :
  let row := csvResult (performSeoAnalysis targetUrl page hostname) now in
  h1Tag row = "" /\ robotsTag row = "" /\ canonicalUrl row = "".
Proof.
  cbv zeta. unfold csvResult, performSeoAnalysis.
  cbn [h1Tag robotsTag canonicalUrl res_tags].
  match goal with
  | |- context [tags (analyzeSeoTags page ?u)] =>
      destruct (extractTagContent_tags page u) as (_ & _ & -> & -> & ->)
  end.
  done.
Qed.

(** X9: the row built for an analysed page carries the URL as it was
    given, the score of the engine, and in Title_Tag and Meta_Description
    the sanitised trimmed text, or the placeholder - when the page has
    none; the two length columns are the lengths of these cells, so a
    missing title is reported with Title_Length 1. *)
Theorem analysed_row_text_columns
    (targetUrl : string) (page : Page) (hostname now : string) :
  let row := csvResult (performSeoAnalysis targetUrl page hostname) now in
  let title := Js.trim (title_text page) in
  let description := Js.trim_or_empty (meta_description page) in
  url row = targetUrl /\
  seoScore row = score (analyzeSeoTags page targetUrl) /\
  titleTag row = (if Js.truthy title then sanitizeText title else "-") /\
  titleLength row = String.length (titleTag row) /\
  metaDescription row
    = (if Js.truthy description then sanitizeText description else "-") /\
  metaDescriptionLength row = String.length (metaDescription row) /\
  (title = "" -> titleTag row = "-" /\ titleLength row = 1%nat).
Proof.
  cbv zeta. unfold csvResult, performSeoAnalysis.
  cbn [url seoScore titleTag titleLength metaDescription
       metaDescriptionLength res_url res_score res_tags].
  match goal with
  | |- context [tags (analyzeSeoTags page ?u)] =>
      destruct (extractTagContent_tags page u) as (-> & -> & _)
  end.
  repeat split; try done; by rewrite H.
Qed.

End Grading.

(* ===================================================================== *)
(* CSV helpers: further properties                                       *)
(* ===================================================================== *)

Section Csv.

(* the URL carries one of the two schemes parseCSVUrls knows *)
Definition has_scheme (u : string) : Prop :=
  Js.startsWith "http://" u = true \/ Js.startsWith "https://" u = true.

Lemma row_url_scheme row u : row_url row = Some u -> has_scheme u.
Proof.
  unfold row_url, has_scheme. cbv zeta.
  set (found := if negb _ then _ else _). clearbody found.
  destruct (Js.truthy found); [|done].
  destruct (Js.startsWith "http://" found) eqn:E1;
    [intros [= <-]; by left|].
  destruct (Js.startsWith "https://" found) eqn:E2;
    [intros [= <-]; by right|].
  intros [= <-]. by right.
Qed.

Lemma has_scheme_http u : has_scheme u -> Js.startsWith "http" u = true.
Proof.
  unfold has_scheme.
  do 4 (destruct u as [|? u]; [by intros [|]|]).
  cbn [Js.startsWith].
  intros [H|H]; repeat (destruct (ascii_dec _ _); [|done]); done.
Qed.

Lemma omap_length {A B} (f : A -> option B) l :
  (length (omap f l) <= length l)%nat.
Proof.
  induction l as [|x l IH]; [done|]. cbn. destruct (f x); cbn; lia.
Qed.

(** X10: every URL that parseCSVUrls extracts starts with http:// or
    https:// (so performSeoAnalysis never prefixes it again), each record
    contributes at most one URL, and an error of the codec is passed on
    as it is. *)
Theorem parseCSVUrls_yields_absolute_urls (f : CsvFile) :
  match parseCSVUrls f, parsed f with
  | inr urls, inr rows =>
      Forall has_scheme urls /\
      Forall (fun u => Js.startsWith "http" u = true) urls /\
      (length urls <= length rows)%nat
  | inl e, inl e' => e = e'
  | _, _ => False
  end.
Proof.
  unfold parseCSVUrls. destruct (parsed f) as [e|rows]; [done|].
  assert (H : Forall has_scheme (omap row_url rows)).
  { apply Forall_forall. intros u Hu.
    apply list_elem_of_omap in Hu as (row & _ & Hu).
    by apply row_url_scheme in Hu. }
  split; [done|]. split.
  - eapply Forall_impl; [exact H|]. apply has_scheme_http.
  - apply omap_length.
Qed.


Lemma lookup_map {A B} (f : A -> B) l i : map f l !! i = f <$> l !! i.
Proof. revert i. induction l as [|x l IH]; intros [|i]; cbn; auto. Qed.

(** X12: the table generateResultsCSV writes is rectangular: its first
    record is the header of 19 columns, it is followed by one record of
    19 cells per result, in the order of the results, and the record of
    a result stands at the position of the result plus one. *)
Theorem generateResultsCSV_rectangular (results : list BulkAnalysisResult) :
  let table := generateResultsCSV results in
  table !! 0%nat = Some columns /\
  length table = S (length results) /\
  Forall (fun record => length record = 19%nat) table /\
  (forall i, table !! S i = csv_record <$> results !! i).
Proof.
  cbv zeta. unfold generateResultsCSV.
  split; [done|]. split; [by cbn; rewrite length_map|]. split.
  - apply Forall_cons_2; [done|]. apply Forall_forall. intros record Hr.
    apply list_elem_of_fmap in Hr as (r & -> & _). done.
  - intros i. cbn. apply lookup_map.
Qed.

End Csv.

(* ===================================================================== *)
(* storage.ts: the remaining operations of MemStorage                    *)
(* ===================================================================== *)

(* { ...first, ...second } for two partial jobs: a key of [second] wins *)
Definition merge_updates (first second : JobUpdates) : JobUpdates :=
  let pick {A} (a b : option A) : option A :=
    match b with Some v => Some v | None => a end in
  {| upd_id := pick (upd_id first) (upd_id second);
     upd_userSession := pick (upd_userSession first) (upd_userSession second);
     upd_filename := pick (upd_filename first) (upd_filename second);
     upd_totalUrls := pick (upd_totalUrls first) (upd_totalUrls second);
     upd_processedUrls :=
       pick (upd_processedUrls first) (upd_processedUrls second);
     upd_status := pick (upd_status first) (upd_status second);
     upd_createdAt := pick (upd_createdAt first) (upd_createdAt second);
     upd_completedAt := pick (upd_completedAt first) (upd_completedAt second);
     upd_resultFilePath :=
       pick (upd_resultFilePath first) (upd_resultFilePath second) |}.

(* Partial<BulkUrlResult>: [Some v] for a key the caller supplies. *)
Record UrlResultUpdates := {
  upd_ur_id : option string;
  upd_ur_jobId : option string;
  upd_ur_url : option string;
  upd_analysisResult : option SeoAnalysisResult;
  upd_ur_errorMessage : option string;
  upd_processedAt : option string;
}.

(* { ...result, ...updates } *)
Definition spread_result (result : BulkUrlResult) (updates : UrlResultUpdates)
    : BulkUrlResult :=
  {| ur_id := default (ur_id result) (upd_ur_id updates);
     ur_jobId := default (ur_jobId result) (upd_ur_jobId updates);
     ur_url := default (ur_url result) (upd_ur_url updates);
     analysisResult :=
       match upd_analysisResult updates with
       | Some v => Some v
       | None => analysisResult result
       end;
     ur_errorMessage :=
       match upd_ur_errorMessage updates with
       | Some v => Some v
       | None => ur_errorMessage result
       end;
     processedAt := default (processedAt result) (upd_processedAt updates) |}.

Definition updateBulkUrlResult (id : string) (updates : UrlResultUpdates)
    (st : MemStorage) : MemStorage :=
  match bulkUrlResults st !! id with
  | Some result =>
      set_bulkUrlResults
        (<[id := spread_result result updates]> (bulkUrlResults st)) st
  | None => st
  end.

(* getUserBulkJobs: the jobs of one session, sorted by the comparator
     new Date(b.createdAt).getTime() - new Date(a.createdAt).getTime().
   [getTime] is the reading of a time stamp by Date; the jobs are
   enumerated in the order of the map, which decides the order of jobs
   with equal time stamps only. *)
Definition newer_first (getTime : string -> Z) (a b : BulkAnalysisJob) : Prop :=
  getTime (createdAt b) <= getTime (createdAt a).

Global Instance newer_first_dec getTime a b : Decision (newer_first getTime a b).
Proof. unfold newer_first. apply _. Defined.

Definition getUserBulkJobs (getTime : string -> Z) (session : string)
    (st : MemStorage) : list BulkAnalysisJob :=
  merge_sort (newer_first getTime)
    (filter (fun job => userSession job = session)
            (map_to_list (bulkJobs st)).*2).

(* The users of MemStorage. The map keeps its keys in insertion order,
   which getUserByUsername depends on: it is a list of entries, and set
   replaces the value of a key that is present and appends a new key. *)
Record User := {
  user_id : string;
  username : string;
}.

Fixpoint map_set {V} (k : string) (v : V) (m : list (string * V))
    : list (string * V) :=
  match m with
  | [] => [(k, v)]
  | (k', v') :: m' =>
      if decide (k' = k) then (k, v) :: m' else (k', v') :: map_set k v m'
  end.

Fixpoint map_get {V} (k : string) (m : list (string * V)) : option V :=
  match m with
  | [] => None
  | (k', v') :: m' => if decide (k' = k) then Some v' else map_get k m'
  end.

Definition getUser (id : string) (users : list (string * User)) : option User :=
  map_get id users.

Definition getUserByUsername (name : string) (users : list (string * User))
    : option User :=
  List.find (fun user => bool_decide (username user = name)) users.*2.

(* InsertUser has the one field username; [uuid] is the identifier drawn
   by randomUUID(). *)
Definition createUser (uuid : string) (insertUser : string)
    (users : list (string * User)) : User * list (string * User) :=
  let user := {| user_id := uuid; username := insertUser |} in
  (user, map_set uuid user users).

Section StorageMore.

Lemma spread_no_updates job : spread_job job no_updates = job.
Proof. by destruct job. Qed.

Lemma spread_merge job first second :
  spread_job (spread_job job first) second
  = spread_job job (merge_updates first second).
Proof.
  destruct job, first as [a1 a2 a3 a4 a5 a6 a7 a8 a9],
    second as [b1 b2 b3 b4 b5 b6 b7 b8 b9].
  unfold spread_job, merge_updates. cbn.
  f_equal;
    first [by destruct b1|by destruct b2|by destruct b3|by destruct b4
          |by destruct b5|by destruct b6|by destruct b7|by destruct b8
          |by destruct b9].
Qed.

Lemma storage_eta st :
  {| bulkJobs := bulkJobs st; bulkUrlResults := bulkUrlResults st |} = st.
Proof. by destruct st. Qed.

(** X13: partial updates of a job compose: two successive calls of
    updateBulkJob on one id return and store what a single call with the
    merged object (the keys of the second call winning) does; and a call
    that supplies no key returns the stored job and leaves the store as
    it is. *)
Theorem updateBulkJob_composes (jobId : string) (first second : JobUpdates)
    (st : MemStorage) :
  updateBulkJob jobId second (snd (updateBulkJob jobId first st))
    = updateBulkJob jobId (merge_updates first second) st /\
  updateBulkJob jobId no_updates st = (getBulkJob jobId st, st).
Proof.
  unfold updateBulkJob, getBulkJob.
  destruct (bulkJobs st !! jobId) as [job|] eqn:Hjob; cbn.
  - rewrite lookup_insert_eq. cbn. unfold set_bulkJobs. cbn.
    rewrite insert_insert_eq, spread_merge, spread_no_updates.
    split; [done|]. rewrite insert_id by done. by rewrite storage_eta.
  - by rewrite Hjob.
Qed.


Lemma getBulkUrlResults_elem jobId st r :
  r ∈ getBulkUrlResults jobId st <->
  ur_jobId r = jobId /\ exists id, bulkUrlResults st !! id = Some r.
Proof.
  unfold getBulkUrlResults. rewrite list_elem_of_filter, list_elem_of_fmap.
  split.
  - intros [? ([id r'] & -> & Hin)]. split; [done|]. exists id.
    by apply elem_of_map_to_list in Hin.
  - intros [? [id Hid]]. split; [done|]. exists (id, r). split; [done|].
    by apply elem_of_map_to_list.
Qed.

(** X15: a per-URL result that createBulkUrlResult stores under a fresh
    identifier is added to the listing of its job and to no other
    listing: getBulkUrlResults returns, up to the order of the listing,
    the new result and the results it returned before for that job, and
    what it returned before for every other job; no job changes. *)
Theorem createBulkUrlResult_listed (uuid now : string)
    (insertResult : InsertBulkUrlResult) (st : MemStorage) :
  bulkUrlResults st !! uuid = None ->
  let result := fst (createBulkUrlResult uuid now insertResult st) in
  let st' := snd (createBulkUrlResult uuid now insertResult st) in
  getBulkUrlResults (ins_jobId insertResult) st'
    ≡ₚ result :: getBulkUrlResults (ins_jobId insertResult) st /\
  (forall other, other <> ins_jobId insertResult ->
     getBulkUrlResults other st' ≡ₚ getBulkUrlResults other st) /\
  (forall r jobId, r ∈ getBulkUrlResults jobId st' -> ur_jobId r = jobId) /\
  bulkJobs st' = bulkJobs st.
Proof.
  intros Hfresh. cbv zeta. unfold createBulkUrlResult. cbn.
  set (r := Build_BulkUrlResult _ _ _ _ _ _).
  assert (Hperm : forall jobId,
    filter (fun r => ur_jobId r = jobId)
      (map_to_list (<[uuid := r]> (bulkUrlResults st))).*2
    ≡ₚ filter (fun r => ur_jobId r = jobId)
         (r :: (map_to_list (bulkUrlResults st)).*2)).
  { intros jobId. by rewrite map_to_list_insert. }
  unfold getBulkUrlResults. cbn. split; [|split; [|split; [|done]]].
  - rewrite Hperm. by rewrite filter_cons_True.
  - intros other Hne. rewrite Hperm. by rewrite filter_cons_False.
  - intros r' jobId Hr. by apply list_elem_of_filter in Hr as [? _].
Qed.

Lemma createBulkUrlResult_listed_witness :
  bulkUrlResults new_MemStorage !! "r1" = None /\
  getBulkUrlResults "j1"
    (snd (createBulkUrlResult "r1" "t"
            {| ins_jobId := "j1"; ins_url := "https://example.com";
               ins_analysisResult := None;
               ins_errorMessage := Some "fetch failed" |} new_MemStorage))
  ≡ₚ [ {| ur_id := "r1"; ur_jobId := "j1"; ur_url := "https://example.com";
          analysisResult := None; ur_errorMessage := Some "fetch failed";
          processedAt := "t" |} ].
Proof.
  assert (H : bulkUrlResults new_MemStorage !! "r1" = None) by reflexivity.
  split; [exact H|].
  exact (proj1 (createBulkUrlResult_listed "r1" "t"
    {| ins_jobId := "j1"; ins_url := "https://example.com";
       ins_analysisResult := None;
       ins_errorMessage := Some "fetch failed" |} new_MemStorage H)).
Defined.

(** X16: updateBulkUrlResult with an identifier that is not in the store
    changes nothing; with one that is in the store it replaces that
    result by the merged one and changes no other result and no job. *)
Theorem updateBulkUrlResult_frame (id : string) (updates : UrlResultUpdates)
    (st : MemStorage) :
  let st' := updateBulkUrlResult id updates st in
  match bulkUrlResults st !! id with
  | None => st' = st
  | Some result =>
      bulkUrlResults st' !! id = Some (spread_result result updates)
  end /\
  (forall other, other <> id ->
     bulkUrlResults st' !! other = bulkUrlResults st !! other) /\
  dom (bulkUrlResults st') = dom (bulkUrlResults st) /\
  bulkJobs st' = bulkJobs st.
Proof.
  cbv zeta. unfold updateBulkUrlResult.
  destruct (bulkUrlResults st !! id) as [result|] eqn:Hr; [|done]. cbn.
  split; [by rewrite lookup_insert_eq|]. split; [|split; [|done]].
  - intros other Hne. by rewrite lookup_insert_ne.
  - apply dom_insert_lookup_L. by rewrite Hr.
Qed.

Section Listing.

Variable getTime : string -> Z.

Local Instance newer_first_total : Total (newer_first getTime).
Proof. intros a b. unfold newer_first. lia. Qed.

Local Instance newer_first_trans : Transitive (newer_first getTime).
Proof. intros a b c. unfold newer_first. lia. Qed.

(** X17: getUserBulkJobs returns exactly the stored jobs of the session,
    each stored job once, and never a job of another session; the
    listing is sorted by creation time, the newest first. *)
Theorem getUserBulkJobs_lists_own_jobs (session : string) (st : MemStorage) :
  let listing := getUserBulkJobs getTime session st in
  (forall job, job ∈ listing <->
     userSession job = session /\
     exists id, bulkJobs st !! id = Some job) /\
  (length listing <= size (bulkJobs st))%nat /\
  StronglySorted (newer_first getTime) listing.
Proof.
  cbv zeta. unfold getUserBulkJobs. split; [|split].
  - intros job. rewrite merge_sort_Permutation.
    rewrite list_elem_of_filter, list_elem_of_fmap. split.
    + intros [? ([id j] & -> & Hin)]. split; [done|]. exists id.
      by apply elem_of_map_to_list in Hin.
    + intros [? [id Hid]]. split; [done|]. exists (id, job). split; [done|].
      by apply elem_of_map_to_list.
  - rewrite merge_sort_Permutation.
    etransitivity; [apply length_filter|].
    by rewrite length_fmap, length_map_to_list.
  - apply StronglySorted_merge_sort; apply _.
Qed.

End Listing.

Lemma map_get_set {V} k (v : V) m k' :
  map_get k' (map_set k v m) = if decide (k = k') then Some v else map_get k' m.
Proof.
  induction m as [|[k0 v0] m IH]; cbn.
  - by repeat case_decide.
  - repeat (case_decide; subst; cbn); try done.
Qed.

Lemma map_set_fresh {V} k (v : V) m :
  map_get k m = None -> map_set k v m = m ++ [(k, v)].
Proof.
  induction m as [|[k0 v0] m IH]; cbn; [done|].
  case_decide; [done|]. intros H'. by rewrite IH.
Qed.

(** X18: a user that createUser stores under a fresh identifier is read
    back by getUser; no other user changes; and getUserByUsername keeps
    returning the user that was registered first under a name: the new
    user is found by name only when no earlier user has that name. *)
Theorem createUser_round_trip (uuid name : string)
    (users : list (string * User)) :
  getUser uuid users = None ->
  let user := fst (createUser uuid name users) in
  let users' := snd (createUser uuid name users) in
  getUser uuid users' = Some user /\
  (forall other, other <> uuid -> getUser other users' = getUser other users) /\
  (forall n, getUserByUsername n users' =
     match getUserByUsername n users with
     | Some first => Some first
     | None => if decide (n = name) then Some user else None
     end).
Proof.
  intros Hfresh. cbv zeta. unfold createUser, getUser. cbn.
  split; [|split].
  - rewrite map_get_set. by case_decide.
  - intros other Hne. rewrite map_get_set. by case_decide.
  - intros n. unfold getUserByUsername. rewrite map_set_fresh by done.
    rewrite fmap_app. cbn.
    induction (users.*2) as [|u us IH]; cbn.
    + case_bool_decide; case_decide; congruence.
    + by destruct (bool_decide (username u = n)).
Qed.

Lemma createUser_round_trip_witness :
  getUser "u2" [("u1", {| user_id := "u1"; username := "ann" |})] = None /\
  getUserByUsername "ann"
    (snd (createUser "u2" "ann"
            [("u1", {| user_id := "u1"; username := "ann" |})]))
  = Some {| user_id := "u1"; username := "ann" |}.
Proof.
  assert (H : getUser "u2" [("u1", {| user_id := "u1"; username := "ann" |})]
              = None) by reflexivity.
  split; [exact H|].
  exact (proj2 (proj2 (createUser_round_trip "u2" "ann" _ H)) "ann").
Defined.

End StorageMore.

(* ===================================================================== *)
(* bulk-processor.ts: the observers of the queue                         *)
(* ===================================================================== *)

(* Array.from(this.processingJobs), up to the order of the listing *)
Definition getProcessingJobs (w : World) : list string :=
  elements (processingJobs w).

Definition isProcessing (jobId : string) (w : World) : bool :=
  bool_decide (jobId ∈ processingJobs w).

(* ===================================================================== *)
(* The life of a job: properties                                         *)
(* ===================================================================== *)

Section Lifecycle.

Implicit Types (w : World) (jobId : string) (e : Event).

(* What holds of the record of a job, given its call of processJob [r]
   and its upload handler [rn]. *)
Definition life_ok (jobId : string) (job : BulkAnalysisJob)
    (r : option Runner) (rn : option CsvFile) : Prop :=
  job_id job = jobId /\ (1 <= totalUrls job <= 1000)%nat /\
  (resultFilePath job = None \/ resultFilePath job = Some (resultPath jobId)) /\
  (is_Some r ->
     rn = None /\ (job_status job = processing \/ job_status job = failed)) /\
  match job_status job with
  | pending =>
      r = None /\ processedUrls job = 0%nat /\ completedAt job = None /\
      resultFilePath job = None
  | completed =>
      r = None /\ rn = None /\ processedUrls job = totalUrls job /\
      resultFilePath job = Some (resultPath jobId) /\
      is_Some (completedAt job)
  | processing => is_Some r
  | failed => True
  end /\
  match r with
  | Some (AwaitParse _) => processedUrls job = 0%nat
  | Some (AwaitBatch urls i _ _) => processedUrls job = i
  | Some (AwaitWrite urls _) => processedUrls job = length urls
  | None => True
  end.

Ltac conjs :=
  repeat match goal with
         | |- _ /\ _ => split
         | |- is_Some _ -> _ => intros ?
         end.

Lemma life_step w e jobId job job' r' rn' U :
  guard_inv w -> job_inv jobId U anything w ->
  bulkJobs (storage w) !! jobId = Some job ->
  life_ok jobId job (runners w !! jobId) (renaming w !! jobId) ->
  job_change w jobId job e job' r' rn' ->
  life_ok jobId job' r' rn'.
Proof.
  intros Hguard ((job0 & Hjob0 & Htotal & _) & _ & Hrunner) Hjob Hlife Hchange.
  assert (job0 = job) as -> by congruence. clear Hjob0.
  destruct Hlife as (Hid & Htot & Hpath & Hrun & Hst & Hcnt).
  destruct Hchange as [e| now f Hf Hin | now f Hf Hin | now f err Hr Hp
    | now f urls Hr Hp
    | n o uuid now urls i results proms u Hr Hle Hpn Hu settled Hall
    | n o uuid now urls i results proms u brs Hr Hle Hpn Hu settled Hall
    | now err urls results Hr | now urls results Hr | sessionId Hs ].
  - done.
  - (* the call starts *)
    unfold life_ok. cbn. conjs; try done; try lia; auto.
  - (* a second call is turned away: there is none while the handler waits *)
    exfalso. rewrite Hguard in Hin. apply elem_of_dom in Hin.
    destruct (Hrun Hin) as [Hn _]. congruence.
  - unfold life_ok. cbn. conjs; try done; try lia;
      match goal with H : is_Some None |- _ => by destruct H end.
  - rewrite Hr in Hrun, Hcnt.
    destruct (Hrun (mk_is_Some _ _ eq_refl)) as [Hrn Hss].
    specialize (Hrunner _ Hr). cbn in Hrunner.
    assert (urls = U) as -> by congruence.
    unfold life_ok. conjs; try done; try lia.
    + by destruct Hss as [-> | ->].
    + unfold next_wait. destruct (0 <? length U)%nat eqn:E; cbn; [done|].
      apply Nat.ltb_ge in E. lia.
  - rewrite Hr in Hrun, Hcnt.
    destruct (Hrun (mk_is_Some _ _ eq_refl)) as [Hrn Hss].
    unfold life_ok. conjs; try done; try lia.
    by destruct Hss as [-> | ->].
  - rewrite Hr in Hrun, Hcnt.
    destruct (Hrun (mk_is_Some _ _ eq_refl)) as [Hrn Hss].
    destruct (Hrunner _ Hr) as (-> & Hi & _ & _ & Hlen & _).
    pose proof (batch_of_length U i) as Hb. unfold maxConcurrentUrls in *.
    set (k := (length (batch_of U i) `min` length proms)%nat) in *.
    assert (Hk : k = (10 `min` (length U - i))%nat) by lia.
    assert (Hfields : job_id (after_batch job i k) = job_id job /\
      totalUrls (after_batch job i k) = totalUrls job /\
      resultFilePath (after_batch job i k) = resultFilePath job /\
      job_status (after_batch job i k) = job_status job /\
      completedAt (after_batch job i k) = completedAt job /\
      processedUrls (after_batch job i k) = (i + k)%nat).
    { unfold after_batch. destruct k; [|done]. conjs; try done. lia. }
    destruct Hfields as (Hf1 & Hf2 & Hf3 & Hf4 & Hf5 & Hf6).
    unfold life_ok. rewrite Hf1, Hf2, Hf3, Hf4, Hf6.
    conjs; try done; try lia.
    + by destruct Hss as [-> | ->].
    + unfold next_wait. destruct (i + 10 <? length U)%nat eqn:E; cbn.
      * apply Nat.ltb_lt in E. lia.
      * apply Nat.ltb_ge in E. lia.
  - unfold life_ok. cbn. conjs; try done; try lia;
      match goal with H : is_Some None |- _ => by destruct H end.
  - rewrite Hr in Hrun, Hcnt.
    destruct (Hrun (mk_is_Some _ _ eq_refl)) as [Hrn Hss].
    destruct (Hrunner _ Hr) as (-> & _).
    unfold life_ok. cbn. conjs; try done; try lia; auto;
      match goal with H : is_Some None |- _ => by destruct H end.
  - unfold life_ok. cbn. conjs; try done; try lia; auto.
    by apply Hrun.
Qed.


Definition life_inv (jobId : string) w : Prop :=
  forall job, bulkJobs (storage w) !! jobId = Some job ->
    life_ok jobId job (runners w !! jobId) (renaming w !! jobId).

Lemma life_inv_run evs jobId : life_inv jobId (run evs init).
Proof.
  induction evs as [|e evs IH] using rev_ind; [done|].
  rewrite run_snoc. set (w := run evs init) in *. intros job' Hjob'.
  destruct (bulkJobs (storage w) !! jobId) as [job|] eqn:Hjob.
  - destruct (step_job w e jobId job Hjob) as (job'' & Hjob'' & Hchange).
    assert (job'' = job') as -> by congruence.
    destruct (jobs_inv_run evs jobId) as [U HU]; [by eexists|].
    eapply life_step; [apply guard_inv_run|exact HU|exact Hjob| |exact Hchange].
    by apply IH.
  - destruct (has_jobs_run evs jobId Hjob) as [Hrun Hren].
    destruct (step_fresh w e jobId Hjob Hrun Hren)
      as [(Hnone & _)|(s & orig & f & now & urls & -> & _ & Hlen & Hnew & Hr & Hn)].
    + congruence.
    + rewrite Hnew in Hjob'. injection Hjob' as <-. rewrite Hr, Hn.
      unfold life_ok. cbn. conjs; try done; try lia; auto;
        match goal with H : is_Some None |- _ => by destruct H end.
Qed.

Lemma completed_frozen w e jobId job job' r' rn' :
  life_ok jobId job (runners w !! jobId) (renaming w !! jobId) ->
  job_status job = completed ->
  job_change w jobId job e job' r' rn' -> job' = job.
Proof.
  intros (_ & _ & _ & _ & Hst & _) Hs Hchange. rewrite Hs in Hst.
  destruct Hst as (Hr & Hrn & _).
  destruct Hchange; try done; try congruence.
  match goal with H : _ \/ _ |- _ => destruct H; congruence end.
Qed.

(* The run of the one-URL job up to its completion. *)
Definition completed_run : list Event :=
  scenario_start ++ [scenario_settle; scenario_write].

(** X19: Completed is final. Once the record of a job says Completed, no
    event changes any field of it any more, whatever follows: not a
    DELETE request, not a late settling, not another upload. *)
Theorem completed_is_final (evs later : list Event) (jobId : string)
    (job : BulkAnalysisJob) :
  bulkJobs (storage (run evs init)) !! jobId = Some job ->
  job_status job = completed ->
  bulkJobs (storage (run (evs ++ later) init)) !! jobId = Some job.
Proof.
  intros Hjob Hs. induction later as [|e later IH] using rev_ind.
  - by rewrite app_nil_r.
  - rewrite app_assoc, run_snoc.
    destruct (step_job _ e jobId job IH) as (job' & Hjob' & Hchange).
    rewrite Hjob'. f_equal.
    eapply completed_frozen; [|exact Hs|exact Hchange].
    by apply life_inv_run.
Qed.

Lemma completed_is_final_witness :
  exists job,
    bulkJobs (storage (run completed_run init)) !! "job-1" = Some job /\
    job_status job = completed /\
    bulkJobs (storage (run (completed_run
                              ++ [Delete "job-1" "10.0.0.1-agent";
                                  Renamed "job-1" "2024-01-01T00:00:09.000Z"])
                           init)) !! "job-1" = Some job.
Proof.
  eexists. split; [vm_compute; reflexivity|]. split; [reflexivity|].
  apply (completed_is_final completed_run); [vm_compute|]; reflexivity.
Defined.


Lemma job_change_identity w jobId job e job' r' rn' :
  job_change w jobId job e job' r' rn' ->
  job_id job' = job_id job /\ userSession job' = userSession job /\
  filename job' = filename job /\ totalUrls job' = totalUrls job /\
  createdAt job' = createdAt job.
Proof.
  intros Hchange. destruct Hchange; try done.
  unfold after_batch. by destruct (_ `min` _)%nat.
Qed.

(** X21: the identity of a job is fixed. In every execution a job is
    stored under its own id and its total lies between 1 and 1000; and no
    event removes a job from the store or changes its id, its session,
    its file name, its total or its creation time. *)
Theorem job_identity_is_fixed :
  (forall evs,
     map_Forall (fun jobId job =>
       job_id job = jobId /\ (1 <= totalUrls job <= 1000)%nat)
       (bulkJobs (storage (run evs init)))) /\
  (forall w e jobId job,
     bulkJobs (storage w) !! jobId = Some job ->
     exists job',
       bulkJobs (storage (step w e)) !! jobId = Some job' /\
       job_id job' = job_id job /\ userSession job' = userSession job /\
       filename job' = filename job /\ totalUrls job' = totalUrls job /\
       createdAt job' = createdAt job).
Proof.
  split.
  - intros evs jobId job Hjob.
    by destruct (life_inv_run evs jobId job Hjob) as (? & ? & _).
  - intros w e jobId job Hjob.
    destruct (step_job w e jobId job Hjob) as (job' & Hjob' & Hchange).
    exists job'. split; [done|]. by eapply job_change_identity.
Qed.

(** X22: the observers of the queue. getProcessingJobs lists exactly the
    ids for which isProcessing holds; in every execution each of them is
    the id of a stored job whose status is Processing, or Failed when a
    DELETE request has hit the job while its call goes on, and whose
    upload handler has ended. *)
Theorem processing_jobs_are_stored (evs : list Event) :
  let w := run evs init in
  (forall jobId, jobId ∈ getProcessingJobs w <-> isProcessing jobId w = true) /\
  Forall (fun jobId =>
    exists job, bulkJobs (storage w) !! jobId = Some job /\
      (job_status job = processing \/ job_status job = failed) /\
      renaming w !! jobId = None) (getProcessingJobs w).
Proof.
  cbv zeta. unfold getProcessingJobs, isProcessing. split.
  - intros jobId. by rewrite elem_of_elements, bool_decide_eq_true.
  - apply Forall_forall. intros jobId Hin. apply elem_of_elements in Hin.
    rewrite (guard_inv_run evs) in Hin. apply elem_of_dom in Hin.
    destruct (bulkJobs (storage (run evs init)) !! jobId) as [job|] eqn:Hjob.
    + exists job. split; [done|].
      destruct (life_inv_run evs jobId job Hjob) as (_ & _ & _ & Hrun & _).
      destruct (Hrun Hin). done.
    + destruct (has_jobs_run evs jobId Hjob) as [Hr _].
      rewrite Hr in Hin. by destruct Hin.
Qed.

(** X23: jobs are isolated from one another. Events that are about other
    jobs, in any number and order, leave the record of a job, its call of
    processJob and its upload handler exactly as they were. *)
Theorem events_of_other_jobs_change_nothing (evs : list Event)
    (jobId : string) (w : World) :
  Forall (fun e => event_job e <> jobId) evs ->
  bulkJobs (storage (run evs w)) !! jobId = bulkJobs (storage w) !! jobId /\
  runners (run evs w) !! jobId = runners w !! jobId /\
  renaming (run evs w) !! jobId = renaming w !! jobId.
Proof.
  induction evs as [|e evs IH] using rev_ind; [done|].
  intros Hevs. apply Forall_app in Hevs as [Hevs He].
  rewrite Forall_singleton in He. rewrite run_snoc.
  destruct (step_touches_only (run evs w) e jobId) as (-> & -> & ->); [done|].
  by apply IH.
Qed.

Lemma events_of_other_jobs_change_nothing_witness :
  let evs := [ Upload "10.0.0.2-agent" "more.csv" one_url_file "job-2"
                 "2024-01-01T00:01:00.000Z";
               Renamed "job-2" "2024-01-01T00:01:01.000Z";
               Delete "job-2" "10.0.0.2-agent" ] in
  Forall (fun e => event_job e <> "job-1") evs /\
  bulkJobs (storage (run evs (run scenario_start init))) !! "job-1"
    = bulkJobs (storage (run scenario_start init)) !! "job-1" /\
  runners (run evs (run scenario_start init)) !! "job-1"
    = runners (run scenario_start init) !! "job-1" /\
  renaming (run evs (run scenario_start init)) !! "job-1"
    = renaming (run scenario_start init) !! "job-1".
Proof.
  cbv zeta.
  assert (H : Forall (fun e => event_job e <> "job-1")
                [ Upload "10.0.0.2-agent" "more.csv" one_url_file "job-2"
                    "2024-01-01T00:01:00.000Z";
                  Renamed "job-2" "2024-01-01T00:01:01.000Z";
                  Delete "job-2" "10.0.0.2-agent" ]).
  { refine (bool_decide_unpack _ _). vm_compute. exact I. }
  split; [exact H|].
  exact (events_of_other_jobs_change_nothing _ "job-1"
           (run scenario_start init) H).
Defined.

(** X24: DELETE is for the owner only, and it does not stop the work.
    For an unknown job the answer is 404 and for a job of another session
    403, and nothing at all changes. For the owner the answer is 200 and
    the job is neither Pending nor Processing afterwards; but the call of
    processJob for the job, if one is in flight, stays in flight and the
    job stays in the set of processing jobs. *)
Theorem delete_job_owner_only (jobId sessionId : string) (w : World) :
  let status := fst (delete_job jobId sessionId w) in
  let w' := snd (delete_job jobId sessionId w) in
  runners w' = runners w /\ processingJobs w' = processingJobs w /\
  match bulkJobs (storage w) !! jobId with
  | None => status = 404 /\ w' = w
  | Some job =>
      if decide (userSession job = sessionId) then
        status = 200 /\
        (exists job', bulkJobs (storage w') !! jobId = Some job' /\
           job_status job' <> pending /\ job_status job' <> processing)
      else status = 403 /\ w' = w
  end.
Proof.
  cbv zeta.
  destruct (delete_job_rest jobId sessionId w) as (-> & _ & -> & _).
  split; [done|]. split; [done|].
  pose proof (delete_job_lookup jobId sessionId w jobId) as Hlook.
  unfold delete_job, getBulkJob in *.
  destruct (bulkJobs (storage w) !! jobId) as [job|] eqn:Hjob; [|done].
  case_decide as Hown.
  - rewrite (bool_decide_eq_true_2 _ Hown) in *. cbn [negb andb] in *.
    rewrite (bool_decide_eq_true_2 (jobId = jobId)), andb_true_r in Hlook
      by done.
    split; [done|].
    destruct (bool_decide (job_status job = pending)
              || bool_decide (job_status job = processing)) eqn:E.
    + eexists. split; [exact Hlook|]. done.
    + exists job. split; [by rewrite Hlook|].
      apply orb_false_iff in E as [E1 E2].
      by apply bool_decide_eq_false in E1, E2.
  - by rewrite (bool_decide_eq_false_2 _ Hown).
Qed.

(* The per-URL result that processUrl stores for the URL [u] of the job
   when its race ends with [o]. *)
Definition stored_result (uuid jobId u : string) (o : Outcome) (now : string)
    : BulkUrlResult :=
  {| ur_id := uuid; ur_jobId := jobId; ur_url := u;
     analysisResult :=
       match o with
       | Fetched page hostname => Some (performSeoAnalysis u page hostname)
       | _ => None
       end;
     ur_errorMessage :=
       match o with
       | Fetched _ _ => None
       | _ => Some (message_or "Unknown error" (race_error o))
       end;
     processedAt := now |}.

Lemma processUrl_stores u jobId o uuid now st :
  bulkUrlResults (snd (processUrl u jobId o uuid now st))
  = <[uuid := stored_result uuid jobId u o now]> (bulkUrlResults st).
Proof. by destruct o. Qed.

(* A per-URL result is in the store after an event when it was there
   before, or when the event is the settling of a race that stores it. *)
Lemma step_results w e k r :
  bulkUrlResults (storage (step w e)) !! k = Some r ->
  bulkUrlResults (storage w) !! k = Some r \/
  exists jobId n o now urls i results proms u,
    e = UrlSettled jobId n o k now /\
    runners w !! jobId = Some (AwaitBatch urls i results proms) /\
    batch_of urls i !! (n - i)%nat = Some u /\
    r = stored_result k jobId u o now.
Proof.
  destruct e as [s orig f u t|j t|j t|j n o u t|j err t|j s]; simpl.
  - unfold upload. destruct (negb _); [by left|]. case_decide; by left.
  - unfold renamed. destruct (renaming w !! j); [|by left].
    rewrite processJob_results. by left.
  - unfold parse_settles.
    destruct (runners w !! j) as [[[f|]| |]|]; try by left.
    destruct (parseCSVUrls f); [|by left].
    rewrite job_fails_results. by left.
  - destruct (url_settles_inv j n o u t w)
      as [->|(urls & i & results & proms & url & Hr & _ & _ & Hu & H)];
      [by left|].
    cbv zeta in H.
    assert (bulkUrlResults (storage (url_settles j n o u t w))
            = <[u := stored_result u j url o t]> (bulkUrlResults (storage w)))
      as ->.
    { rewrite <- processUrl_stores.
      destruct (all_settled _) as [brs|]; rewrite H.
      - cbn [storage loop_head set_runners].
        by rewrite (proj1 (collect_batch_rest _ _ _ _ _ _ _ _ _)).
      - done. }
    destruct (decide (k = u)) as [->|Hne].
    + rewrite lookup_insert_eq. intros [= <-]. right.
      by exists j, n, o, t, urls, i, results, proms, url.
    + rewrite lookup_insert_ne by done. by left.
  - unfold write_settles.
    destruct (runners w !! j) as [[| |urls results]|]; try by left.
    destruct err as [e|].
    + rewrite job_fails_results. by left.
    + cbn [storage set_runners set_processingJobs emit].
      rewrite update_job_results. by left.
  - rewrite (proj2 (proj2 (proj2 (delete_job_rest j s w)))). by left.
Qed.

(* The URLs that a call of processJob works on come from parseCSVUrls. *)
Definition runner_urls (r : Runner) : list string :=
  match r with
  | AwaitParse _ => []
  | AwaitBatch urls _ _ _ => urls
  | AwaitWrite urls _ => urls
  end.

Definition urls_inv w : Prop :=
  forall jobId r, runners w !! jobId = Some r ->
    Forall has_scheme (runner_urls r).

Lemma parseCSVUrls_scheme f urls :
  parseCSVUrls f = inr urls -> Forall has_scheme urls.
Proof.
  unfold parseCSVUrls. destruct (parsed f) as [|rows]; [done|].
  intros [= <-]. apply Forall_forall. intros u Hu.
  apply list_elem_of_omap in Hu as (row & _ & Hu).
  by apply row_url_scheme in Hu.
Qed.

Lemma next_wait_urls urls i results :
  runner_urls (next_wait urls i results) = urls.
Proof. unfold next_wait. by destruct (_ <? _)%nat. Qed.

Lemma urls_inv_step w e : has_jobs w -> urls_inv w -> urls_inv (step w e).
Proof.
  intros Hhas Hinv jobId r' Hr'.
  destruct (bulkJobs (storage w) !! jobId) as [job|] eqn:Hjob; last first.
  { destruct (Hhas jobId Hjob) as [Hrun Hren].
    destruct (step_fresh w e jobId Hjob Hrun Hren)
      as [(_ & Hn & _)|(? & ? & ? & ? & ? & _ & _ & _ & _ & Hn & _)];
      congruence. }
  destruct (step_job w e jobId job Hjob) as (job' & _ & Hchange).
  rewrite Hr' in Hchange.
  inversion Hchange; subst;
    try match goal with
        | H : runners w !! jobId = Some (AwaitBatch ?urls _ _ _) |- _ =>
            specialize (Hinv _ _ H); cbn in Hinv
        end;
    try rewrite next_wait_urls; cbn; try done.
  - by eapply Hinv.
  - by eapply Hinv.
  - by eapply parseCSVUrls_scheme.
  - by eapply Hinv.
Qed.

Lemma urls_inv_run evs : urls_inv (run evs init).
Proof.
  induction evs as [|e evs IH] using rev_ind; [done|].
  rewrite run_snoc. apply urls_inv_step; [apply has_jobs_run|done].
Qed.

Definition result_ok w (k : string) (r : BulkUrlResult) : Prop :=
  ur_id r = k /\ is_Some (bulkJobs (storage w) !! ur_jobId r) /\
  has_scheme (ur_url r) /\
  match analysisResult r, ur_errorMessage r with
  | Some a, None =>
      res_url a = ur_url r /\ 15 <= res_score a <= 100 /\
      map tag (res_tags a) = tag_order
  | None, Some _ => True
  | _, _ => False
  end.

Lemma batch_of_elem urls i j u : batch_of urls i !! j = Some u -> u ∈ urls.
Proof.
  rewrite batch_of_take. intros H. apply list_elem_of_lookup_2 in H.
  by apply subseteq_take, subseteq_drop in H.
Qed.

(** X25: every per-URL result in the store is well formed, in every
    execution: it is stored under its own id, it belongs to a job of the
    store, its URL starts with http:// or https://, and it holds either
    an analysis, for that URL, with a score between 15 and 100 and the
    ten tags, and no error message, or an error message and no
    analysis. *)
Theorem stored_results_are_well_formed (evs : list Event) :
  let w := run evs init in
  map_Forall (fun k r =>
    ur_id r = k /\ is_Some (getBulkJob (ur_jobId r) (storage w)) /\
    has_scheme (ur_url r) /\
    match analysisResult r, ur_errorMessage r with
    | Some a, None =>
        res_url a = ur_url r /\ 15 <= res_score a <= 100 /\
        map tag (res_tags a) = tag_order
    | None, Some _ => True
    | _, _ => False
    end) (bulkUrlResults (storage w)).
Proof.
  cbv zeta. unfold getBulkJob.
  change (map_Forall (result_ok (run evs init))
            (bulkUrlResults (storage (run evs init)))).
  induction evs as [|e evs IH] using rev_ind; [done|].
  rewrite run_snoc. set (w := run evs init) in *. intros k r Hr.
  assert (Hkeep : forall j, is_Some (bulkJobs (storage w) !! j) ->
                    is_Some (bulkJobs (storage (step w e)) !! j)).
  { intros j [job Hjob].
    destruct (step_job w e j job Hjob) as (job' & -> & _). by eexists. }
  destruct (step_results w e k r Hr)
    as [Hold|(j & n & o & now & urls & i & results & proms & u & -> & Hrun
              & Hu & ->)].
  - destruct (IH k r Hold) as (? & ? & ? & ?).
    split; [done|]. split; [by apply Hkeep|]. done.
  - unfold result_ok. cbn [ur_id ur_jobId ur_url]. conjs; [done| | |].
    + apply Hkeep.
      destruct (bulkJobs (storage w) !! j) as [job|] eqn:Hjob; [by eexists|].
      destruct (has_jobs_run evs j Hjob) as [Hnone _]. fold w in Hnone.
      congruence.
    + pose proof (urls_inv_run evs j _ Hrun) as Hall. cbn in Hall.
      rewrite Forall_forall in Hall. apply Hall. by eapply batch_of_elem.
    + destruct o as [page hostname| |];
        cbn [stored_result analysisResult ur_errorMessage]; [|done..].
      unfold performSeoAnalysis. cbn [res_url res_score res_tags].
      split; [done|]. split; [apply score_bounds|].
      unfold analyzeSeoTags. cbn [tags].
      apply (checked_names _ _ (run_checks_checked page)).
Qed.

End Lifecycle.

(* ===================================================================== *)
(* routes.ts: GET /api/bulk/download/:jobId                              *)
(* ===================================================================== *)



Section Downloads.

Implicit Types (w : World) (jobId : string) (e : Event).

Lemma length_append a b :
  String.length (a +:+ b) = (String.length a + String.length b)%nat.
Proof.
  induction a as [|c a IH]; [done|].
  change (S (String.length (a +:+ b)) = S (String.length a + String.length b)).
  by rewrite IH.
Qed.




Lemma update_job_files jobId updates w :
  files (update_job jobId updates w) = files w.
Proof. done. Qed.

Lemma job_fails_files jobId err now w : files (job_fails jobId err now w) = files w.
Proof. done. Qed.







End Downloads.

(* ===================================================================== *)
(* routes.ts: the upload filter and its error handler                    *)
(* ===================================================================== *)

(* String.prototype.toLowerCase on 8-bit characters: the letters A-Z and
   the capital letters of the Latin-1 block *)
Definition lower_char (c : ascii) : ascii :=
  let n := nat_of_ascii c in
  if ((65 <=? n)%nat && (n <=? 90)%nat)
     || ((192 <=? n)%nat && (n <=? 222)%nat && negb (n =? 215)%nat)
  then ascii_of_nat (n + 32) else c.

Fixpoint toLowerCase (s : string) : string :=
  match s with
  | EmptyString => EmptyString
  | String c r => String (lower_char c) (toLowerCase r)
  end.

(* String.prototype.endsWith *)
Definition endsWith (suffix s : string) : bool :=
  (String.length suffix <=? String.length s)%nat
  && Js.startsWith suffix
       (Js.drop (String.length s - String.length suffix) s).

(* An error on its way through the middleware chain: whether it is a
   MulterError, its code (empty when it has none) and its message. *)
Record MiddlewareError := {
  is_multer : bool;
  err_code : string;
  err_message : string;
}.

(* The fileFilter of the multer configuration: [None] for cb(null, true),
   else the error handed to cb. *)
Definition fileFilter (mimetype originalname : string)
    : option MiddlewareError :=
  if bool_decide (mimetype = "text/csv")
     || endsWith ".csv" (toLowerCase originalname)
  then None
  else Some {| is_multer := false; err_code := "";
               err_message := "Only CSV files are allowed" |}.

(* What a middleware does with an error: it answers, or it calls next. *)
Inductive Handled :=
  | Answered (status : Z) (error : string)
  | Next (err : MiddlewareError).

Definition handleMulterError (err : MiddlewareError) : Handled :=
  if is_multer err && bool_decide (err_code err = "LIMIT_FILE_SIZE") then
    Answered 400 "File size too large. Maximum allowed size is 10MB."
  else if is_multer err && bool_decide (err_code err = "LIMIT_FILE_COUNT") then
    Answered 400 "Too many files. Only one file is allowed."
  else if bool_decide (err_message err = "Only CSV files are allowed") then
    Answered 400 "Only CSV files are allowed. Please upload a valid CSV file."
  else Next err.

Section Routes.

Implicit Types (w : World) (jobId : string) (e : Event).

Lemma toLowerCase_app a b : toLowerCase (a +:+ b) = toLowerCase a +:+ toLowerCase b.
Proof.
  induction a as [|c a IH]; [done|].
  change (String (lower_char c) (toLowerCase (a +:+ b))
          = String (lower_char c) (toLowerCase a +:+ toLowerCase b)).
  by rewrite IH.
Qed.

Lemma drop_append a b : Js.drop (String.length a) (a +:+ b) = b.
Proof. induction a as [|c a IH]; [by destruct b|]. exact IH. Qed.

Lemma startsWith_refl s : Js.startsWith s s = true.
Proof.
  induction s as [|c s IH]; [done|]. cbn [Js.startsWith].
  by destruct (ascii_dec c c).
Qed.

Lemma endsWith_app a suffix : endsWith suffix (a +:+ suffix) = true.
Proof.
  unfold endsWith. rewrite length_append.
  replace (String.length a + String.length suffix - String.length suffix)%nat
    with (String.length a) by lia.
  rewrite drop_append, startsWith_refl, andb_true_r.
  apply Nat.leb_le. lia.
Qed.

(** X27: the upload filter and its error handler. A file is let through
    when its MIME type is text/csv or its name ends with .csv in any
    letter case, whatever the other of the two says; every file the
    filter turns away is answered by handleMulterError with status 400
    and the CSV-only message, and never passed on; and an error that is
    neither a size or count limit of multer nor the CSV-only error is
    passed on to the next handler as it is. *)
Theorem upload_filter_and_handler :
  (forall mimetype base ext,
     toLowerCase ext = ".csv" ->
     fileFilter mimetype (base +:+ ext) = None /\
     fileFilter "text/csv" base = None) /\
  (forall mimetype originalname err,
     fileFilter mimetype originalname = Some err ->
     mimetype <> "text/csv" /\
     handleMulterError err =
       Answered 400 "Only CSV files are allowed. Please upload a valid CSV file.") /\
  (forall err,
     err_message err <> "Only CSV files are allowed" ->
     (is_multer err = false \/
      (err_code err <> "LIMIT_FILE_SIZE" /\ err_code err <> "LIMIT_FILE_COUNT")) ->
     handleMulterError err = Next err).
Proof.
  split; [|split].
  - intros mimetype base ext Hext. unfold fileFilter.
    rewrite toLowerCase_app, Hext, endsWith_app, orb_true_r. done.
  - intros mimetype originalname err. unfold fileFilter.
    destruct (bool_decide (mimetype = "text/csv")) eqn:E; [done|].
    apply bool_decide_eq_false in E.
    destruct (endsWith _ _); [done|]. by intros [= <-].
  - intros err Hmsg Hcode. unfold handleMulterError.
    rewrite (bool_decide_eq_false_2 _ Hmsg).
    destruct Hcode as [->|[H1 H2]]; [done|].
    by rewrite (bool_decide_eq_false_2 _ H1), (bool_decide_eq_false_2 _ H2),
      !andb_false_r.
Qed.

Lemma update_job_emitted jobId updates w :
  emitted (update_job jobId updates w) = emitted w.
Proof. apply update_job_rest. Qed.

Lemma update_job_missing jobId updates w :
  bulkJobs (storage w) !! jobId = None -> update_job jobId updates w = w.
Proof.
  intros Hnone. unfold update_job, updateBulkJob. rewrite Hnone. by destruct w.
Qed.

(** X28: processJob for a job id that is not in the store: the call takes
    the guard, announces the start, fails with the error
    Job <id> not found, announces the failure and releases the guard. It
    leaves the store, the files and the set of processing jobs as they
    were, and no call in flight. *)
Theorem processJob_unknown_job (jobId now : string) (w : World) :
  getBulkJob jobId (storage w) = None ->
  (jobId ∉ processingJobs w) ->
  let w' := processJob jobId now w in
  storage w' = storage w /\ files w' = files w /\
  processingJobs w' = processingJobs w /\
  runners w' !! jobId = None /\
  emitted w' = emitted w ++
    [job_started jobId;
     job_failed jobId (JsError ("Job " +:+ jobId +:+ " not found"))].
Proof.
  intros Hnone Hout. cbv zeta. unfold processJob.
  rewrite decide_False by done. cbv zeta.
  cbn [storage emit set_processingJobs]. rewrite Hnone.
  unfold job_fails. rewrite update_job_missing by done.
  cbn [storage files processingJobs runners emitted emit set_processingJobs
       set_runners].
  split; [done|]. split; [done|]. split; [set_solver|].
  split; [apply lookup_delete_eq|]. by rewrite <- app_assoc.
Qed.

Lemma processJob_unknown_job_witness :
  getBulkJob "ghost" (storage init) = None /\
  ("ghost" ∉ processingJobs init) /\
  emitted (processJob "ghost" "2024-01-01T00:00:00.000Z" init) =
    [job_started "ghost"; job_failed "ghost" (JsError "Job ghost not found")] /\
  processingJobs (processJob "ghost" "2024-01-01T00:00:00.000Z" init) = ∅.
Proof.
  assert (H1 : getBulkJob "ghost" (storage init) = None) by reflexivity.
  assert (H2 : "ghost" ∉ processingJobs init).
  { refine (bool_decide_unpack _ _). vm_compute. exact I. }
  split; [exact H1|]. split; [exact H2|].
  pose proof (processJob_unknown_job "ghost" "2024-01-01T00:00:00.000Z" init
                H1 H2) as (_ & _ & H3 & _ & H4).
  split; [exact H4|exact H3].
Defined.

(** X29: what an upload does. A file that validateCSVFile turns down
    changes nothing. A valid file, with an identifier that no job has
    yet, adds exactly one job: Pending, with nothing processed, with the
    session and the file name of the request, and with the number of URLs
    that parseCSVUrls extracts as its total; its upload handler waits for
    the rename; no other job, no call, no file and no event changes. *)
Theorem upload_adds_one_pending_job (sessionId originalname : string)
    (f : CsvFile) (uuid now : string) (w : World) :
  bulkJobs (storage w) !! uuid = None ->
  let w' := upload sessionId originalname f uuid now w in
  if valid (validateCSVFile (inr f)) then
    exists urls,
      parseCSVUrls f = inr urls /\ (1 <= length urls <= 1000)%nat /\
      bulkJobs (storage w') =
        <[uuid := {| job_id := uuid; userSession := sessionId;
                     filename := originalname; totalUrls := length urls;
                     processedUrls := 0; job_status := pending;
                     createdAt := now; completedAt := None;
                     resultFilePath := None |}]> (bulkJobs (storage w)) /\
      renaming w' = <[uuid := f]> (renaming w) /\
      bulkUrlResults (storage w') = bulkUrlResults (storage w) /\
      runners w' = runners w /\ processingJobs w' = processingJobs w /\
      files w' = files w /\ emitted w' = emitted w
  else w' = w.
Proof.
  intros Hfresh. cbv zeta. unfold upload.
  destruct (valid (validateCSVFile (inr f))) eqn:Hvalid; cbn [negb]; [|done].
  destruct (validate_valid f Hvalid) as (urls & Hparse & Hcount & Hbounds).
  rewrite decide_False by (by apply not_elem_of_dom).
  exists urls. rewrite Hcount. cbn. done.
Qed.

Lemma upload_adds_one_pending_job_witness :
  bulkJobs (storage init) !! "job-1" = None /\
  bulkJobs (storage (upload "10.0.0.1-agent" "sites.csv" one_url_file "job-1"
                       "2024-01-01T00:00:00.000Z" init)) !! "job-1"
  = Some {| job_id := "job-1"; userSession := "10.0.0.1-agent";
            filename := "sites.csv"; totalUrls := 1;
            processedUrls := 0; job_status := pending;
            createdAt := "2024-01-01T00:00:00.000Z"; completedAt := None;
            resultFilePath := None |}.
Proof.
  assert (H : bulkJobs (storage init) !! "job-1" = None) by reflexivity.
  split; [exact H|].
  pose proof (upload_adds_one_pending_job "10.0.0.1-agent" "sites.csv"
                one_url_file "job-1" "2024-01-01T00:00:00.000Z" init H) as Hu.
  cbv zeta in Hu.
  change (valid (validateCSVFile (inr one_url_file))) with true in Hu.
  destruct Hu as (urls & Hparse & _ & Hjobs & _).
  rewrite Hjobs, lookup_insert_eq.
  assert (urls = ["https://example.com"]) as ->
    by (vm_compute in Hparse; congruence).
  reflexivity.
Defined.

(* The events that the loop over a settled batch emits: one progress
   event per collected result, with the count going up by one. *)
Lemma collect_batch_emitted jobId total i batch now :
  forall j batchResults results w,
  emitted (snd (collect_batch jobId total i j batch batchResults now results w))
  = emitted w ++
    map (fun k => job_progress jobId total (i + k + 1))
        (seq j (length batch `min` length batchResults)).
Proof.
  induction batch as [|u batch IH]; intros j brs results w.
  - cbn. by rewrite app_nil_r.
  - destruct brs as [|r brs]; [cbn; by rewrite app_nil_r|].
    cbn [collect_batch]. cbv zeta. rewrite IH.
    cbn [emitted emit]. rewrite update_job_emitted, <- app_assoc. done.
Qed.

(* What an event adds to the emitted events. *)
Definition announced (w : World) (e : Event) (ev : QueueEvent) : Prop :=
  match ev with
  | job_progress jobId total processed =>
      (1 <= processed <= total)%nat /\
      exists urls i results proms,
        runners w !! jobId = Some (AwaitBatch urls i results proms) /\
        total = length urls
  | job_started jobId | job_completed jobId | job_failed jobId _ =>
      is_Some (runners w !! jobId) \/ is_Some (renaming w !! jobId)
  end.

Lemma job_fails_emitted jobId err now w :
  emitted (job_fails jobId err now w) = emitted w ++ [job_failed jobId err].
Proof.
  unfold job_fails. cbn [emitted set_runners set_processingJobs emit].
  by rewrite update_job_emitted.
Qed.

Lemma step_emitted w e :
  exists new, emitted (step w e) = emitted w ++ new /\
    Forall (announced w e) new.
Proof.
  destruct e as [s orig f u t|j t|j t|j n o u t|j err t|j s]; simpl.
  - exists []. rewrite app_nil_r. split; [|done].
    unfold upload. destruct (negb _); [done|]. by case_decide.
  - unfold renamed. destruct (renaming w !! j) as [f|] eqn:Hf;
      [|exists []; by rewrite app_nil_r].
    unfold processJob. case_decide; [exists []; by rewrite app_nil_r|].
    cbv zeta. cbn [storage emit set_processingJobs set_files set_renaming].
    destruct (getBulkJob j (storage w)).
    + exists [job_started j]. cbn [emitted set_runners].
      rewrite update_job_emitted.
      cbn [emitted emit set_processingJobs set_files set_renaming].
      split; [done|]. apply Forall_singleton. right. by eexists.
    + exists [job_started j; job_failed j (JsError ("Job " +:+ j +:+ " not found"))].
      rewrite job_fails_emitted.
      cbn [emitted emit set_processingJobs set_files set_renaming].
      rewrite <- app_assoc.
      split; [done|]. repeat apply Forall_cons_2; [| |done]; right; by eexists.
  - unfold parse_settles.
    destruct (runners w !! j) as [[[f|]| |]|] eqn:Hr;
      try (exists []; by rewrite app_nil_r).
    destruct (parseCSVUrls f) as [err|urls];
      [|exists []; by rewrite app_nil_r].
    exists [job_failed j err]. rewrite job_fails_emitted. split; [done|].
    apply Forall_singleton. left. by eexists.
  - destruct (url_settles_inv j n o u t w)
      as [->|(urls & i & results & proms & url & Hr & _ & _ & _ & H)];
      [exists []; by rewrite app_nil_r|].
    cbv zeta in H. destruct (all_settled _) as [brs|]; rewrite H;
      [|exists []; by rewrite app_nil_r].
    cbn [emitted loop_head set_runners]. rewrite collect_batch_emitted.
    eexists. split; [done|]. apply Forall_forall. intros ev Hev.
    apply list_elem_of_fmap in Hev as (k & -> & Hk).
    apply elem_of_seq in Hk. cbn. split.
    + pose proof (batch_of_length urls i). lia.
    + by exists urls, i, results, proms.
  - unfold write_settles.
    destruct (runners w !! j) as [[| |urls results]|] eqn:Hr;
      try (exists []; by rewrite app_nil_r).
    destruct err as [err|].
    + exists [job_failed j err]. rewrite job_fails_emitted. split; [done|].
      apply Forall_singleton. left. by eexists.
    + exists [job_completed j].
      cbn [emitted set_runners set_processingJobs emit].
      rewrite update_job_emitted. split; [done|].
      apply Forall_singleton. left. by eexists.
  - exists []. rewrite app_nil_r. split; [|done].
    unfold delete_job. destruct (getBulkJob j (storage w)) as [job|]; [|done].
    destruct (negb _); [done|].
    destruct (resultFilePath job), (bool_decide _ || bool_decide _);
      cbn [snd emitted set_files]; try done; apply update_job_emitted.
Qed.

(* What holds of every emitted event. *)
Definition event_ok (w : World) (ev : QueueEvent) : Prop :=
  match ev with
  | job_progress jobId total processed =>
      (1 <= processed <= total)%nat /\
      exists job, bulkJobs (storage w) !! jobId = Some job /\
                  totalUrls job = total
  | job_started jobId | job_completed jobId | job_failed jobId _ =>
      is_Some (bulkJobs (storage w) !! jobId)
  end.

(** X30: the events of the queue never overshoot. In every execution
    each emitted event is about a job of the store, and each progress
    event reports the total of its job and a processed count between 1
    and that total. *)
Theorem emitted_events_are_sound (evs : list Event) :
  let w := run evs init in
  Forall (fun ev =>
    match ev with
    | job_progress jobId total processed =>
        (1 <= processed <= total)%nat /\
        exists job, getBulkJob jobId (storage w) = Some job /\
                    totalUrls job = total
    | job_started jobId | job_completed jobId | job_failed jobId _ =>
        is_Some (getBulkJob jobId (storage w))
    end) (emitted w).
Proof.
  cbv zeta. unfold getBulkJob.
  change (Forall (event_ok (run evs init)) (emitted (run evs init))).
  induction evs as [|e evs IH] using rev_ind; [done|].
  rewrite run_snoc. set (w := run evs init) in *.
  assert (Hkeep : forall j job, bulkJobs (storage w) !! j = Some job ->
            exists job', bulkJobs (storage (step w e)) !! j = Some job' /\
                         totalUrls job' = totalUrls job).
  { intros j job Hjob.
    destruct (step_job w e j job Hjob) as (job' & Hjob' & Hchange).
    exists job'. split; [done|].
    by destruct (job_change_identity _ _ _ _ _ _ _ Hchange) as (_ & _ & _ & ? & _). }
  assert (Hstored : forall j,
            is_Some (runners w !! j) \/ is_Some (renaming w !! j) ->
            exists job, bulkJobs (storage w) !! j = Some job).
  { intros j Hj.
    destruct (bulkJobs (storage w) !! j) as [job|] eqn:Hjob; [by eexists|].
    destruct (has_jobs_run evs j Hjob) as [Hr Hn]. fold w in Hr, Hn.
    rewrite Hr, Hn in Hj. by destruct Hj as [[? ?]|[? ?]]. }
  destruct (step_emitted w e) as (new & -> & Hnew).
  apply Forall_app. split.
  - eapply Forall_impl; [exact IH|]. intros ev Hev.
    destruct ev as [j|j total processed|j|j err]; cbn in *.
    + destruct Hev as [job Hjob].
      destruct (Hkeep j job Hjob) as (job' & -> & _). by eexists.
    + destruct Hev as (Hle & job & Hjob & Htotal).
      destruct (Hkeep j job Hjob) as (job' & Hjob' & Ht).
      split; [done|]. exists job'. split; [done|congruence].
    + destruct Hev as [job Hjob].
      destruct (Hkeep j job Hjob) as (job' & -> & _). by eexists.
    + destruct Hev as [job Hjob].
      destruct (Hkeep j job Hjob) as (job' & -> & _). by eexists.
  - eapply Forall_impl; [exact Hnew|]. intros ev Hev.
    destruct ev as [j|j total processed|j|j err]; cbn in *.
    + destruct (Hstored j Hev) as [job Hjob].
      destruct (Hkeep j job Hjob) as (job' & -> & _). by eexists.
    + destruct Hev as (Hle & urls & i & results & proms & Hr & ->).
      split; [done|].
      destruct (Hstored j) as [job Hjob]; [left; by eexists|].
      destruct (Hkeep j job Hjob) as (job' & Hjob' & Ht).
      exists job'. split; [done|]. rewrite Ht.
      destruct (jobs_inv_run evs j) as (U & (job0 & Hjob0 & Htot & _) & _ & Hrunner);
        [by eexists|].
      fold w in Hjob0, Hrunner. assert (job0 = job) as -> by congruence.
      destruct (Hrunner _ Hr) as (-> & _). done.
    + destruct (Hstored j Hev) as [job Hjob].
      destruct (Hkeep j job Hjob) as (job' & -> & _). by eexists.
    + destruct (Hstored j Hev) as [job Hjob].
      destruct (Hkeep j job Hjob) as (job' & -> & _). by eexists.
Qed.

End Routes.
